(** * Sprung helper scripts: a shallow embedding and its properties

    The development follows the three Python scripts of the repository:

    - [Sprung/flatten.py]: flattens the top-level sub-directories of a source
      tree into a few archive files and writes an index of line offsets
      (module [Flatten], and module [Live] for the run on the file system
      it writes to);
    - [Scripts/redact_large_lines.py]: replaces oversized lines of a text
      stream by a placeholder (module [Redact]);
    - [Scripts/export_template_defaults.py]: clears a directory and exports
      the templates of a store into it (module [ExportTemplates]).

    Python values are modelled as follows.  [int] is [Z]; [str] is [string]
    (a sequence of characters, [len] is [String.length]); a [list] is a
    [list]; a [dict] whose iteration order is observed is an association
    list in insertion order, a [dict] that is only looked up and updated is
    a [gmap]; an exception is a constructor of [Py.exn] carried by
    [Py.Raise]. *)

From Stdlib Require Import ZArith String Ascii List Lia Permutation.
From Stdlib Require Import DecimalString.
From stdpp Require Import base option list gmap strings sorting.

Local Open Scope string_scope.
Local Open Scope Z_scope.
Local Open Scope list_scope.

(** ** The fragment of the Python runtime the scripts rely on *)

Module Py.

Inductive exn : Type :=
| TypeError
| IndexError
| KeyError
| ValueError
| OSError
| SystemExit.

(** The outcome of running a piece of code: a value, an uncaught
    exception, or (for loops unrolled with a bound) an exhausted bound. *)
Inductive result (A : Type) : Type :=
| Ok (a : A)
| Raise (e : exn)
| OutOfFuel.

Arguments Ok {A} a.
Arguments Raise {A} e.
Arguments OutOfFuel {A}.

Definition bind {A B : Type} (r : result A) (k : A -> result B) : result B :=
  match r with
  | Ok a => k a
  | Raise e => Raise e
  | OutOfFuel => OutOfFuel
  end.

Definition is_ok {A : Type} (r : result A) : bool :=
  match r with Ok _ => true | _ => false end.

(** The character ["\n"] and the one-character string made of it. *)
Definition nl_char : ascii := ascii_of_nat 10.
Definition nl : string := String nl_char EmptyString.

(** [s.count("\n")] *)
Fixpoint count_nl (s : string) : Z :=
  match s with
  | EmptyString => 0
  | String c s' => (if Ascii.eqb c nl_char then 1 else 0) + count_nl s'
  end.

(** [len(s)] *)
Definition len (s : string) : Z := Z.of_nat (String.length s).

(** [str(n)] and [f"{n}"] for an [int]. *)
Definition str_of_int (n : Z) : string :=
  NilZero.string_of_int (Z.to_int n).

(** [s.startswith(p)] *)
Definition startswith (s p : string) : bool := String.prefix p s.

(** [sep.join(l)] *)
Definition join (sep : string) (l : list string) : string :=
  String.concat sep l.

(** [l[i]] for a non-negative index. *)
Definition index {A : Type} (l : list A) (i : nat) : result A :=
  match l !! i with
  | Some x => Ok x
  | None => Raise IndexError
  end.

(** [l.remove(x)]: drops the first element equal to [x]. *)
Fixpoint list_remove {A : Type} `{EqDecision A} (x : A) (l : list A)
  : result (list A) :=
  match l with
  | [] => Raise ValueError
  | y :: l' =>
      if decide (y = x) then Ok l'
      else bind (list_remove x l') (fun r => Ok (y :: r))
  end.

(** [sorted]: Python's sort is stable and only uses [<].  A stable
    insertion sort returns the same list. *)
Fixpoint insert_sorted {A : Type} (lt : A -> A -> bool) (x : A) (l : list A)
  : list A :=
  match l with
  | [] => [x]
  | y :: l' => if lt y x then y :: insert_sorted lt x l' else x :: y :: l'
  end.

Fixpoint sorted {A : Type} (lt : A -> A -> bool) (l : list A) : list A :=
  match l with
  | [] => []
  | x :: l' => insert_sorted lt x (sorted lt l')
  end.

(** [sorted(l, key=f)] where computing a key may raise: the keys are
    computed first, left to right, then the elements are sorted by key. *)
Fixpoint with_keys {A : Type} (key : A -> result Z) (l : list A)
  : result (list (Z * A)) :=
  match l with
  | [] => Ok []
  | x :: l' =>
      bind (key x) (fun k =>
      bind (with_keys key l') (fun r => Ok ((k, x) :: r)))
  end.

Definition key_lt {A : Type} (a b : Z * A) : bool := Z.ltb a.1 b.1.

Definition sorted_key {A : Type} (key : A -> result Z) (l : list A)
  : result (list A) :=
  bind (with_keys key l) (fun kl => Ok ((sorted key_lt kl).*2)).

(** [s.ljust(w)], which is also what the format [{x:<w}] pads with. *)
Definition ljust (w : nat) (s : string) : string :=
  String.append s
    (string_of_list_ascii (repeat " "%char (w - String.length s))).

(** [d[k] = v] on a [dict] kept in insertion order. *)
Fixpoint dict_set {V : Type} (k : string) (v : V) (d : list (string * V))
  : list (string * V) :=
  match d with
  | [] => [(k, v)]
  | (k', v') :: d' =>
      if String.eqb k' k then (k', v) :: d' else (k', v') :: dict_set k v d'
  end.

End Py.

Import Py.

Notation "'let*' x ':=' c1 'in' c2" := (Py.bind c1 (fun x => c2))
  (at level 10, x name, c1 at level 100, c2 at level 200).

(** ** The file system

    A file-system object is a regular file or a directory.  A path is the
    list of the components that lead to an object from the directory the
    model starts at.  The text of a file is what [open(..., "r")] followed
    by [read()] returns for it (decoded, newlines translated); a file whose
    [open] or [read] raises, for instance because it vanished after it was
    listed, has no text. *)

Module FS.

Definition path : Type := list string.

#[warnings="-register-all"]
Inductive node : Type :=
| File (text : option string)
| Dir (children : list (string * node)).

Definition is_file (n : node) : bool :=
  match n with File _ => true | Dir _ => false end.

Definition is_dir (n : node) : bool :=
  match n with Dir _ => true | File _ => false end.

(** First child of that name. *)
Fixpoint child (name : string) (cs : list (string * node)) : option node :=
  match cs with
  | [] => None
  | (k, n) :: cs' => if String.eqb k name then Some n else child name cs'
  end.

(** The object a path leads to. *)
Fixpoint get (n : node) (p : path) : option node :=
  match p with
  | [] => Some n
  | c :: p' =>
      match n with
      | Dir cs =>
          match child c cs with
          | Some n' => get n' p'
          | None => None
          end
      | File _ => None
      end
  end.

(** Every object strictly below [n], with its path; [here] is the path of
    [n] itself.  This is what a recursive traversal visits. *)
Fixpoint descendants (n : node) (here : path) : list (path * node) :=
  match n with
  | File _ => []
  | Dir cs =>
      (fix go (cs : list (string * node)) : list (path * node) :=
         match cs with
         | [] => []
         | (name, c) :: cs' =>
             (here ++ [name], c) :: descendants c (here ++ [name]) ++ go cs'
         end) cs
  end.

(** [p.name]: the last component. *)
Definition name (p : path) : string := List.last p "".

(** [str(p)] for a relative path. *)
Definition to_str (p : path) : string := Py.join "/" p.

(** Position of the last ["."] of a name. *)
Fixpoint rfind_dot (s : string) : option nat :=
  match s with
  | EmptyString => None
  | String c s' =>
      match rfind_dot s' with
      | Some i => Some (S i)
      | None => if Ascii.eqb c "."%char then Some O else None
      end
  end.

(** [p.suffix] of pathlib: the part of the name from its last dot on, when
    that dot is neither the first nor the last character. *)
Definition suffix (p : path) : string :=
  let nm := name p in
  match rfind_dot nm with
  | Some i =>
      if (Nat.ltb 0 i && Nat.ltb i (String.length nm - 1))%bool
      then String.substring i (String.length nm - i) nm
      else ""
  | None => ""
  end.

(** Paths compare component by component, components as strings. *)
Fixpoint compare (a b : path) : comparison :=
  match a, b with
  | [], [] => Eq
  | [], _ :: _ => Lt
  | _ :: _, [] => Gt
  | x :: a', y :: b' =>
      match String.compare x y with
      | Eq => compare a' b'
      | c => c
      end
  end.

Definition ltb (a b : path) : bool :=
  match compare a b with Lt => true | _ => false end.

(** [f.read()] on a freshly opened file. *)
Definition read_text (n : node) : Py.result string :=
  match n with
  | File (Some s) => Py.Ok s
  | _ => Py.Raise Py.OSError
  end.

(** *** Changing the tree *)

(** Replace the first child of that name, or add one. *)
Fixpoint set_child (name : string) (n : node) (cs : list (string * node))
  : list (string * node) :=
  match cs with
  | [] => [(name, n)]
  | (k, m) :: cs' =>
      if String.eqb k name then (k, n) :: cs' else (k, m) :: set_child name n cs'
  end.

(** Drop the first child of that name. *)
Fixpoint del_child (name : string) (cs : list (string * node))
  : list (string * node) :=
  match cs with
  | [] => []
  | (k, m) :: cs' =>
      if String.eqb k name then cs' else (k, m) :: del_child name cs'
  end.

(** Apply [f] to the object at [p]; every directory on the way must
    exist. *)
Fixpoint update (p : path) (f : node -> Py.result node) (n : node)
  : Py.result node :=
  match p with
  | [] => f n
  | c :: p' =>
      match n with
      | Dir cs =>
          match child c cs with
          | Some m =>
              Py.bind (update p' f m) (fun m' => Py.Ok (Dir (set_child c m' cs)))
          | None => Py.Raise Py.OSError
          end
      | File _ => Py.Raise Py.OSError
      end
  end.

(** A path split into its parent and its name. *)
Definition parent (p : path) : path := removelast p.

(** [os.unlink] inside the parent directory. *)
Definition unlink_in (nm : string) (dir : node) : Py.result node :=
  match dir with
  | Dir cs =>
      match child nm cs with
      | Some (File _) => Py.Ok (Dir (del_child nm cs))
      | _ => Py.Raise Py.OSError
      end
  | File _ => Py.Raise Py.OSError
  end.

(** [os.rmdir] inside the parent directory: the directory must be empty. *)
Definition rmdir_in (nm : string) (dir : node) : Py.result node :=
  match dir with
  | Dir cs =>
      match child nm cs with
      | Some (Dir []) => Py.Ok (Dir (del_child nm cs))
      | _ => Py.Raise Py.OSError
      end
  | File _ => Py.Raise Py.OSError
  end.

(** Writing a file inside the parent directory: a directory of that name
    is in the way, a file of that name is replaced. *)
Definition write_in (nm : string) (data : string) (dir : node)
  : Py.result node :=
  match dir with
  | Dir cs =>
      match child nm cs with
      | Some (Dir _) => Py.Raise Py.OSError
      | _ => Py.Ok (Dir (set_child nm (File (Some data)) cs))
      end
  | File _ => Py.Raise Py.OSError
  end.

(** [p.unlink()], [p.rmdir()] and [p.write_text(data)]; the root itself
    can be neither removed nor written. *)
Definition unlink (p : path) (root : node) : Py.result node :=
  match p with
  | [] => Py.Raise Py.OSError
  | _ :: _ => update (parent p) (unlink_in (name p)) root
  end.

Definition rmdir (p : path) (root : node) : Py.result node :=
  match p with
  | [] => Py.Raise Py.OSError
  | _ :: _ => update (parent p) (rmdir_in (name p)) root
  end.

Definition write_text (p : path) (data : string) (root : node)
  : Py.result node :=
  match p with
  | [] => Py.Raise Py.OSError
  | _ :: _ => update (parent p) (write_in (name p) data) root
  end.

(** [p.mkdir(parents=True, exist_ok=True)]: missing directories are
    created along the path, a file on the path is an error. *)
Fixpoint mkdir_p (p : path) (n : node) : Py.result node :=
  match n with
  | File _ => Py.Raise Py.OSError
  | Dir cs =>
      match p with
      | [] => Py.Ok n
      | c :: p' =>
          Py.bind (mkdir_p p' (default (Dir []) (child c cs)))
            (fun m' => Py.Ok (Dir (set_child c m' cs)))
      end
  end.

(** The names [p.iterdir()] lists. *)
Definition listdir (p : path) (root : node) : Py.result (list string) :=
  match get root p with
  | Some (Dir cs) => Py.Ok cs.*1
  | _ => Py.Raise Py.OSError
  end.

Definition exists_at (p : path) (root : node) : bool :=
  bool_decide (is_Some (get root p)).

Definition is_file_at (p : path) (root : node) : bool :=
  match get root p with Some (File _) => true | _ => false end.

Definition is_dir_at (p : path) (root : node) : bool :=
  match get root p with Some (Dir _) => true | _ => false end.

(** The depth of the tree below an object. *)
Fixpoint height (n : node) : nat :=
  match n with
  | File _ => O
  | Dir cs =>
      S ((fix go (cs : list (string * node)) : nat :=
            match cs with
            | [] => O
            | (_, c) :: cs' => Nat.max (height c) (go cs')
            end) cs)
  end.

End FS.

(** ** [Sprung/flatten.py] *)

Module Flatten.

(** *** Group balancer: [merge_smallest_dirs] *)

(** [sum(locs[d] for d in g)] *)
Fixpoint sum_locs (locs : gmap string Z) (g : list string) (acc : Z)
  : result Z :=
  match g with
  | [] => Ok acc
  | d :: g' =>
      match locs !! d with
      | Some v => sum_locs locs g' (acc + v)
      | None => Raise KeyError
      end
  end.

(** [sum(locs[d] for d in g if d in locs)] *)
Fixpoint sum_locs_present (locs : gmap string Z) (g : list string) (acc : Z)
  : Z :=
  match g with
  | [] => acc
  | d :: g' =>
      match locs !! d with
      | Some v => sum_locs_present locs g' (acc + v)
      | None => sum_locs_present locs g' acc
      end
  end.

(** One iteration of the [while] loop body (lines 86-95). *)
Definition merge_step (locs : gmap string Z) (groups : list (list string))
  : result (gmap string Z * list (list string)) :=
  let* smallest := sorted_key (fun g => sum_locs locs g 0) groups in
  let* g1 := index smallest 0 in
  let* g2 := index smallest 1 in
  let new_group := g1 ++ g2 in
  let* groups1 := list_remove g1 groups in
  let* groups2 := list_remove g2 groups1 in
  let groups3 := groups2 ++ [new_group] in
  let new_key := join "+" new_group in
  Ok (<[new_key := sum_locs_present locs new_group 0]> locs, groups3).

(** The [while len(groups) > max_files] loop, unrolled at most [fuel]
    times.  Every pass leaves one group less, so the loop is entered at most
    once more than there are groups. *)
Fixpoint merge_loop (fuel : nat) (locs : gmap string Z)
    (groups : list (list string)) (max_files : Z)
  : result (list (list string)) :=
  if Z.gtb (Z.of_nat (length groups)) max_files then
    match fuel with
    | O => OutOfFuel
    | S fuel' =>
        let* st := merge_step locs groups in
        merge_loop fuel' st.1 st.2 max_files
    end
  else Ok groups.

(** [dir_locs] is a [dict[str, int]] whose key order is observed
    ([dir_locs.keys()]): an association list in insertion order. *)
Definition merge_smallest_dirs (dir_locs : list (string * Z)) (max_files : Z)
  : result (list (list string)) :=
  let groups := map (fun d => [d]) dir_locs.*1 in
  let locs : gmap string Z := list_to_map dir_locs in
  merge_loop (S (length groups)) locs groups max_files.

(** *** File discoverer: [gather_swift_files] *)

Definition allowed_suffixes : list string := [".swift"; ".txt"; ".md"].

(** The two tests of the comprehension that only look at the name. *)
Definition eligible_name (p : FS.path) : bool :=
  bool_decide (FS.suffix p ∈ allowed_suffixes)
  && negb (startswith (FS.name p) "Merged_").

Definition eligible (f : FS.path * FS.node) : bool :=
  eligible_name f.1 && FS.is_file f.2.

Section Discovery.

(** The order in which the operating system lists the entries of a
    directory is not specified; [scan_order] stands for it. *)
Variable scan_order : list (FS.path * FS.node) -> list (FS.path * FS.node).

(** [directory.rglob("*")] *)
Definition rglob (root : FS.node) (directory : FS.path)
  : list (FS.path * FS.node) :=
  match FS.get root directory with
  | Some n => scan_order (FS.descendants n directory)
  | None => []
  end.

(** [root.iterdir()] *)
Definition iterdir (root : FS.node) : result (list (FS.path * FS.node)) :=
  match root with
  | FS.Dir cs => Ok (scan_order (map (fun c => ([c.1], c.2)) cs))
  | FS.File _ => Raise OSError
  end.

Definition gather_swift_files (root : FS.node) (directory : FS.path)
  : list (FS.path * FS.node) :=
  filter (fun f => eligible f) (rglob root directory).

(** *** Line counter: [count_lines_in_dir] *)

(** [sum(1 for _ in f)]: the number of lines a text file iterates over;
    [pending] tells whether an unterminated line has been started. *)
Fixpoint iter_lines (s : string) (pending : bool) : Z :=
  match s with
  | EmptyString => if pending then 1 else 0
  | String c s' =>
      if Ascii.eqb c nl_char then 1 + iter_lines s' false
      else iter_lines s' true
  end.

(** The [try] block of the loop body: a failure leaves [total] as it is. *)
Definition count_file (total : Z) (file : FS.path * FS.node) : Z :=
  match FS.read_text file.2 with
  | Ok s => total + iter_lines s false
  | _ => total
  end.

Definition count_lines_in_dir (root : FS.node) (subdir : FS.path) : Z :=
  foldl count_file 0 (gather_swift_files root subdir).

(** *** Archive writer: [combine_swift_files] *)

Record entry : Type := Entry {
  start_line : Z;
  filename : string;
  loc : Z;
  rel_path : FS.path
}.

(** What a run leaves behind: the files of the output directory, by name,
    and the lines printed.  The output directory is taken to lie outside the
    tree that is read, to be there or to be made without error (line 145)
    and to hold no directory, so that every archive can be opened; module
    [Live] below has the run without these conditions. *)
Record world : Type := World {
  out_files : gmap string string;
  stdout : list string
}.

Definition print (line : string) (w : world) : world :=
  World (out_files w) (stdout w ++ [line]).

Definition write_file (name text : string) (w : world) : world :=
  World (<[name := text]> (out_files w)) (stdout w).

Definition DIVIDER : string :=
  nl +:+ string_of_list_ascii (repeat "="%char 80) +:+ nl.

Definition header_of (rel : FS.path) : string :=
  DIVIDER +:+ "// FILE: " +:+ FS.to_str rel +:+ nl +:+ DIVIDER +:+ nl.

(** The [for file in sorted(all_files)] loop (lines 56-70).  [written] is
    the text written to the archive so far; it is returned also when a read
    raises, since the archive is closed with what it has. *)
Fixpoint combine_loop (files : list (FS.path * FS.node)) (line_counter : Z)
    (written : string) (index_entries : list entry)
  : string * result (list entry) :=
  match files with
  | [] => (written, Ok index_entries)
  | file :: files' =>
      let rel := file.1 in
      let header := header_of rel in
      let written := written +:+ header in
      let start := line_counter in
      let header_lines := count_nl header in
      let line_counter := line_counter + header_lines in
      match FS.read_text file.2 with
      | Ok contents =>
          let written := written +:+ contents in
          let file_line_count := count_nl contents + 1 in
          let index_entries :=
            index_entries ++ [Entry start (FS.name rel) file_line_count rel] in
          let line_counter := line_counter + file_line_count in
          let written := written +:+ nl in
          combine_loop files' line_counter written index_entries
      | Raise e => (written, Raise e)
      | OutOfFuel => (written, OutOfFuel)
      end
  end.

(** Lines 45-49 (and again line 72). *)
Definition out_name (subdirs : list FS.path) : string :=
  match subdirs with
  | [s] => FS.name s
  | _ => "Merged_" +:+ join "+" (map FS.name subdirs)
  end.

Definition path_lt (a b : FS.path * FS.node) : bool := FS.ltb a.1 b.1.

(** [x or y] for an optional label. *)
Definition label_or (x : option string) (y : string) : string :=
  match x with
  | Some (String c l) => String c l
  | _ => y
  end.

(** Returns [None] for Python's [None]. *)
Definition combine_swift_files (root : FS.node) (subdirs : list FS.path)
    (merged_label : option string) (w : world)
  : world * result (option (string * list entry)) :=
  let all_files := concat (map (gather_swift_files root) subdirs) in
  match all_files with
  | [] => (w, Ok None)
  | _ :: _ =>
      let out_file := out_name subdirs +:+ ".txt" in
      let run := combine_loop (sorted path_lt all_files) 1 "" [] in
      let w := write_file out_file run.1 w in
      match run.2 with
      | Ok index_entries =>
          (w, Ok (Some (label_or merged_label (out_name subdirs),
                        index_entries)))
      | Raise e => (w, Raise e)
      | OutOfFuel => (w, OutOfFuel)
      end
  end.

(** *** Index emitter: [create_index_file] *)

Definition index_key : string :=
  "." +:+ nl +:+
  "│" +:+ nl +:+
  "│  KEY:" +:+ nl +:+
  "│    <number>  = line number where this file starts in the .txt file" +:+ nl +:+
  "│    (<N> lines) = total number of lines of Swift code for that file" +:+ nl +:+
  "│" +:+ nl +:+
  "│  Example:  151  - InterviewOrchestrator.swift (22 lines)" +:+ nl +:+
  "│           ↑start│          │ file length → 22 lines" +:+ nl +:+
  "│" +:+ nl.

Definition render_entry (last : bool) (e : entry) : string :=
  (if last then "│   └── " else "│   ├── ") +:+
  ljust 5 (str_of_int (start_line e)) +:+ " - " +:+ filename e +:+
  " (" +:+ str_of_int (loc e) +:+ " lines)" +:+ nl.

(** The [enumerate] loop: the last entry gets the closing branch. *)
Fixpoint render_entries (entries : list entry) : string :=
  match entries with
  | [] => ""
  | [e] => render_entry true e
  | e :: rest => render_entry false e +:+ render_entries rest
  end.

Definition render_archive (merge_info : gmap string (list string))
    (item : string * list entry) : string :=
  (match merge_info !! item.1 with
   | Some dirs =>
       "├── " +:+ item.1 +:+ ".txt  (merged: " +:+ join ", " dirs +:+ ")" +:+ nl
   | None => "├── " +:+ item.1 +:+ ".txt" +:+ nl
   end) +:+ render_entries item.2 +:+ "│" +:+ nl.

Definition item_lt (a b : string * list entry) : bool := String.ltb a.1 b.1.

Definition index_text (index_data : gmap string (list entry))
    (merge_info : gmap string (list string)) : string :=
  index_key +:+
  foldr (fun item acc => render_archive merge_info item +:+ acc) ""
    (sorted item_lt (map_to_list index_data)).

Definition create_index_file (index_data : gmap string (list entry))
    (output_dir : string) (merge_info : gmap string (list string))
    (w : world) : world :=
  let w := write_file "SourceIndex.txt" (index_text index_data merge_info) w in
  print ("Created index file: " +:+ output_dir +:+ "/SourceIndex.txt") w.

(** *** [main] *)

Record args : Type := Args {
  output : string;
  max_files : option Z
}.

(** The counting loop (lines 150-153). *)
Definition count_dir (root : FS.node) (st : list (string * Z) * world)
    (d : FS.path * FS.node) : list (string * Z) * world :=
  let total := count_lines_in_dir root d.1 in
  (dict_set (FS.name d.1) total st.1,
   print ("Directory " +:+ FS.name d.1 +:+ ": " +:+ str_of_int total +:+ " LOC")
     st.2).

(** The flattening loop (lines 165-171).  Unpacking [None] into two names
    raises [TypeError]. *)
Fixpoint flatten_groups (root : FS.node) (groups : list (list string))
    (index_data : gmap string (list entry))
    (merge_info : gmap string (list string)) (w : world)
  : world * result (gmap string (list entry) * gmap string (list string)) :=
  match groups with
  | [] => (w, Ok (index_data, merge_info))
  | group :: groups' =>
      let dirs_to_merge := map (fun g => [g]) group in
      let run := combine_swift_files root dirs_to_merge None w in
      match run.2 with
      | Ok (Some (merged_label, entries)) =>
          match entries with
          | _ :: _ =>
              flatten_groups root groups'
                (<[merged_label := entries]> index_data)
                (if Nat.ltb 1 (length group)
                 then <[merged_label := group]> merge_info else merge_info)
                run.1
          | [] => flatten_groups root groups' index_data merge_info run.1
          end
      | Ok None => (run.1, Raise TypeError)
      | Raise e => (run.1, Raise e)
      | OutOfFuel => (run.1, OutOfFuel)
      end
  end.

(** Lines 157-160: the grouping decision. *)
Definition decide_groups (a : args) (subdirs : list (FS.path * FS.node))
    (dir_locs : list (string * Z)) (w : world)
  : world * result (list (list string)) :=
  let groups := map (fun d => [FS.name d.1]) subdirs in
  match max_files a with
  | Some m =>
      if (negb (Z.eqb m 0) && Z.gtb (Z.of_nat (length subdirs)) m)%bool then
        let target_files := Z.max (m - 1) 1 in
        let w := print ("Merging " +:+ str_of_int (Z.of_nat (length subdirs))
                        +:+ " directories down to " +:+ str_of_int target_files
                        +:+ " flattened files (+ index = " +:+ str_of_int m
                        +:+ " total)...") w in
        (w, merge_smallest_dirs dir_locs target_files)
      else (w, Ok groups)
  | None => (w, Ok groups)
  end.

Definition main (root : FS.node) (a : args) (w : world)
  : world * result unit :=
  match iterdir root with
  | Ok listing =>
      let subdirs := filter (fun d => FS.is_dir d.2) (sorted path_lt listing) in
      let counted := foldl (count_dir root) ([], w) subdirs in
      let grouped := decide_groups a subdirs counted.1 counted.2 in
      match grouped.2 with
      | Ok groups =>
          let flat := flatten_groups root groups ∅ ∅ grouped.1 in
          match flat.2 with
          | Ok (index_data, merge_info) =>
              if bool_decide (index_data = ∅) then
                (print "No Swift files found in any top-level subdirectory."
                   flat.1, Ok tt)
              else
                let w := create_index_file index_data (output a) merge_info
                           flat.1 in
                (print ("All done. Output written to: " +:+ output a) w, Ok tt)
          | Raise e => (flat.1, Raise e)
          | OutOfFuel => (flat.1, OutOfFuel)
          end
      | Raise e => (grouped.1, Raise e)
      | OutOfFuel => (grouped.1, OutOfFuel)
      end
  | Raise e => (w, Raise e)
  | OutOfFuel => (w, OutOfFuel)
  end.

End Discovery.

End Flatten.

(** ** [Sprung/flatten.py] on the file system it writes to

    In [Flatten] a run reads a tree and leaves its files in a [world]
    apart from it, which is what happens when the output directory lies
    outside [root_dir].  The script itself works on one file system: it
    makes the output directory before it lists [root_dir] (line 145), it
    gathers the files of a group when it comes to the group, after the
    archives of the groups before it are written, and opening an archive
    can fail.  [Live] follows the script on that one file system; the two
    are shown to agree when the output directory lies outside [root_dir]
    and holds no directory.  Paths are resolved: they start at the top of
    the file system. *)

Module Live.
Import Flatten.

(** The file system, the lines printed, and the paths of the files the
    run has opened for reading and for writing, in the order of the
    calls. *)
Record state : Type := State {
  disk : FS.node;
  printed : list string;
  reads : list FS.path;
  writes : list FS.path
}.

Definition print (line : string) (s : state) : state :=
  State (disk s) (printed s ++ [line]) (reads s) (writes s).

(** [str(p)] for a resolved path. *)
Definition abs_str (p : FS.path) : string := "/" +:+ FS.to_str p.

(** The directory [root_dir] as the file system has it now; the paths
    found below it are relative to it. *)
Definition root_node (root : FS.path) (s : state) : FS.node :=
  default (FS.Dir []) (FS.get (disk s) root).

Section Run.

Variable scan_order : list (FS.path * FS.node) -> list (FS.path * FS.node).

(** Writes to an archive are buffered: a reader of the archive that is
    being written finds of the text [written] so far what has reached the
    file, [flushed written]. *)
Variable flushed : string -> string.

Definition count_lines_in_dir (root subdir : FS.path) (s : state)
  : Z * state :=
  let files := gather_swift_files scan_order (root_node root s) subdir in
  (foldl count_file 0 files,
   State (disk s) (printed s)
     (reads s ++ map (fun f => root ++ f.1) files) (writes s)).

(** The counting loop (lines 150-153). *)
Definition count_dir (root : FS.path) (st : list (string * Z) * state)
    (d : FS.path * FS.node) : list (string * Z) * state :=
  let counted := count_lines_in_dir root d.1 st.2 in
  (dict_set (FS.name d.1) counted.1 st.1,
   print ("Directory " +:+ FS.name d.1 +:+ ": " +:+ str_of_int counted.1
          +:+ " LOC") counted.2).

(** The [for file in sorted(all_files)] loop (lines 56-70), while the
    archive [out_file] is open.  The files are as they were gathered; only
    the archive itself has changed since, if it is one of them.  [seen]
    collects the files opened. *)
Fixpoint combine_loop (root out_file : FS.path)
    (files : list (FS.path * FS.node)) (line_counter : Z)
    (written : string) (index_entries : list entry) (seen : list FS.path)
  : string * list FS.path * result (list entry) :=
  match files with
  | [] => (written, seen, Ok index_entries)
  | file :: files' =>
      let rel := file.1 in
      let header := header_of rel in
      let written := written +:+ header in
      let start := line_counter in
      let header_lines := count_nl header in
      let line_counter := line_counter + header_lines in
      let seen := seen ++ [root ++ rel] in
      match (if decide (root ++ rel = out_file) then Ok (flushed written)
             else FS.read_text file.2) with
      | Ok contents =>
          let written := written +:+ contents in
          let file_line_count := count_nl contents + 1 in
          let index_entries :=
            index_entries ++ [Entry start (FS.name rel) file_line_count rel] in
          let line_counter := line_counter + file_line_count in
          let written := written +:+ nl in
          combine_loop root out_file files' line_counter written
            index_entries seen
      | Raise e => (written, seen, Raise e)
      | OutOfFuel => (written, seen, OutOfFuel)
      end
  end.

(** [combine_swift_files]: the files are gathered, then the archive is
    opened, which raises before anything is read when a directory has its
    name; when the archive is closed it holds what was written, also after
    a read that raised. *)
Definition combine_swift_files (root : FS.path) (subdirs : list FS.path)
    (output_dir : FS.path) (merged_label : option string) (s : state)
  : state * result (option (string * list entry)) :=
  let all_files :=
    concat (map (gather_swift_files scan_order (root_node root s)) subdirs) in
  match all_files with
  | [] => (s, Ok None)
  | _ :: _ =>
      let out_file := output_dir ++ [out_name subdirs +:+ ".txt"] in
      let run :=
        combine_loop root out_file (sorted path_lt all_files) 1 "" [] [] in
      match FS.write_text out_file run.1.1 (disk s) with
      | Ok closed =>
          let s := State closed (printed s) (reads s ++ run.1.2)
                     (writes s ++ [out_file]) in
          match run.2 with
          | Ok index_entries =>
              (s, Ok (Some (label_or merged_label (out_name subdirs),
                            index_entries)))
          | Raise e => (s, Raise e)
          | OutOfFuel => (s, OutOfFuel)
          end
      | Raise e => (s, Raise e)
      | OutOfFuel => (s, OutOfFuel)
      end
  end.

Definition create_index_file (index_data : gmap string (list entry))
    (output_dir : FS.path) (merge_info : gmap string (list string))
    (s : state) : state * result unit :=
  let index_file := output_dir ++ ["SourceIndex.txt"] in
  match FS.write_text index_file (index_text index_data merge_info) (disk s) with
  | Ok d =>
      (print ("Created index file: " +:+ abs_str index_file)
         (State d (printed s) (reads s) (writes s ++ [index_file])), Ok tt)
  | Raise e => (s, Raise e)
  | OutOfFuel => (s, OutOfFuel)
  end.

(** The flattening loop (lines 165-171). *)
Fixpoint flatten_groups (root output_dir : FS.path)
    (groups : list (list string))
    (index_data : gmap string (list entry))
    (merge_info : gmap string (list string)) (s : state)
  : state * result (gmap string (list entry) * gmap string (list string)) :=
  match groups with
  | [] => (s, Ok (index_data, merge_info))
  | group :: groups' =>
      let dirs_to_merge := map (fun g => [g]) group in
      let run := combine_swift_files root dirs_to_merge output_dir None s in
      match run.2 with
      | Ok (Some (merged_label, entries)) =>
          match entries with
          | _ :: _ =>
              flatten_groups root output_dir groups'
                (<[merged_label := entries]> index_data)
                (if Nat.ltb 1 (length group)
                 then <[merged_label := group]> merge_info else merge_info)
                run.1
          | [] =>
              flatten_groups root output_dir groups' index_data merge_info
                run.1
          end
      | Ok None => (run.1, Raise TypeError)
      | Raise e => (run.1, Raise e)
      | OutOfFuel => (run.1, OutOfFuel)
      end
  end.

(** Lines 157-160: the grouping decision. *)
Definition decide_groups (max_files : option Z)
    (subdirs : list (FS.path * FS.node)) (dir_locs : list (string * Z))
    (s : state) : state * result (list (list string)) :=
  let groups := map (fun d => [FS.name d.1]) subdirs in
  match max_files with
  | Some m =>
      if (negb (Z.eqb m 0) && Z.gtb (Z.of_nat (length subdirs)) m)%bool then
        let target_files := Z.max (m - 1) 1 in
        let s := print ("Merging " +:+ str_of_int (Z.of_nat (length subdirs))
                        +:+ " directories down to " +:+ str_of_int target_files
                        +:+ " flattened files (+ index = " +:+ str_of_int m
                        +:+ " total)...") s in
        (s, merge_smallest_dirs dir_locs target_files)
      else (s, Ok groups)
  | None => (s, Ok groups)
  end.

(** [main] for the resolved [root_dir] and output directory. *)
Definition main (root output_dir : FS.path) (max_files : option Z)
    (s : state) : state * result unit :=
  match FS.mkdir_p output_dir (disk s) with
  | Ok made =>
      let s := State made (printed s) (reads s) (writes s) in
      match (match FS.get made root with
             | Some r => iterdir scan_order r
             | None => Raise OSError
             end) with
      | Ok listing =>
          let subdirs :=
            filter (fun d => FS.is_dir d.2) (sorted path_lt listing) in
          let counted := foldl (count_dir root) ([], s) subdirs in
          let grouped := decide_groups max_files subdirs counted.1 counted.2 in
          match grouped.2 with
          | Ok groups =>
              let flat := flatten_groups root output_dir groups ∅ ∅ grouped.1 in
              match flat.2 with
              | Ok (index_data, merge_info) =>
                  if bool_decide (index_data = ∅) then
                    (print "No Swift files found in any top-level subdirectory."
                       flat.1, Ok tt)
                  else
                    let made_index :=
                      create_index_file index_data output_dir merge_info
                        flat.1 in
                    match made_index.2 with
                    | Ok _ =>
                        (print ("All done. Output written to: "
                                +:+ abs_str output_dir) made_index.1, Ok tt)
                    | Raise e => (made_index.1, Raise e)
                    | OutOfFuel => (made_index.1, OutOfFuel)
                    end
              | Raise e => (flat.1, Raise e)
              | OutOfFuel => (flat.1, OutOfFuel)
              end
          | Raise e => (grouped.1, Raise e)
          | OutOfFuel => (grouped.1, OutOfFuel)
          end
      | Raise e => (s, Raise e)
      | OutOfFuel => (s, OutOfFuel)
      end
  | Raise e => (s, Raise e)
  | OutOfFuel => (s, OutOfFuel)
  end.

End Run.

End Live.

(** ** [Scripts/redact_large_lines.py] *)

Module Redact.

(** [PLACEHOLDER.format(length=n)] *)
Definition PLACEHOLDER (length : Z) : string :=
  "[redacted for brevity; original length: " +:+ str_of_int length
  +:+ " chars]".

(** The generator [redact_lines], as the list of what it yields. *)
Fixpoint redact_lines (lines : list string) (limit : Z) : list string :=
  match lines with
  | [] => []
  | line :: rest =>
      (if Z.leb (len line) limit then line
       else PLACEHOLDER (len line) +:+ nl)
      :: redact_lines rest limit
  end.

(** [for line in src]: the text of the file cut after each newline; only
    the last line can lack its newline. *)
Fixpoint file_lines (s : string) : list string :=
  match s with
  | EmptyString => []
  | String c s' =>
      if Ascii.eqb c nl_char then nl :: file_lines s'
      else
        match file_lines s' with
        | [] => [String c EmptyString]
        | line :: rest => String c line :: rest
        end
  end.

(** [dst.writelines(lines)] writes the lines one after the other. *)
Definition writelines (lines : list string) : string :=
  foldr String.append "" lines.

(** [main] for the parsed arguments: the input is read to its end and
    closed, the directory of the output is made, the output is written.
    The result is the tree the run leaves and its outcome. *)
Definition main (input output : FS.path) (limit : Z) (fs : FS.node)
  : FS.node * result unit :=
  match FS.get fs input with
  | None => (fs, Raise OSError)
  | Some src =>
      match FS.read_text src with
      | Ok text =>
          let redacted := redact_lines (file_lines text) limit in
          match FS.mkdir_p (FS.parent output) fs with
          | Ok fs1 =>
              match FS.write_text output (writelines redacted) fs1 with
              | Ok fs2 => (fs2, Ok tt)
              | Raise e => (fs1, Raise e)
              | OutOfFuel => (fs1, OutOfFuel)
              end
          | Raise e => (fs, Raise e)
          | OutOfFuel => (fs, OutOfFuel)
          end
      | Raise e => (fs, Raise e)
      | OutOfFuel => (fs, OutOfFuel)
      end
  end.

End Redact.

(** ** [Scripts/export_template_defaults.py]

    The script works on one file system, which it reads and changes; a step
    is a function from the tree to the tree it leaves and an outcome.  What
    the script prints is left out. *)

Module ExportTemplates.

Definition M (A : Type) : Type := FS.node -> FS.node * result A.

Definition ret {A : Type} (a : A) : M A := fun fs => (fs, Ok a).

Definition bindM {A B : Type} (c : M A) (k : A -> M B) : M B :=
  fun fs =>
    match c fs with
    | (fs', Ok a) => k a fs'
    | (fs', Raise e) => (fs', Raise e)
    | (fs', OutOfFuel) => (fs', OutOfFuel)
    end.

(** A call that changes the tree or raises and leaves it as it was. *)
Definition lift (op : FS.node -> result FS.node) : M unit :=
  fun fs =>
    match op fs with
    | Ok fs' => (fs', Ok tt)
    | Raise e => (fs, Raise e)
    | OutOfFuel => (fs, OutOfFuel)
    end.

(** A call that only reads the tree. *)
Definition ask {A : Type} (q : FS.node -> A) : M A := fun fs => (fs, Ok (q fs)).

Definition try_ask {A : Type} (q : FS.node -> result A) : M A :=
  fun fs => (fs, q fs).

Notation "'do' x <- c ; k" := (bindM c (fun x => k))
  (at level 10, x name, c at level 100, k at level 200).
Notation "c ;; k" := (bindM c (fun _ => k))
  (at level 100, k at level 200, right associativity).

(** The loop [for child in path.iterdir()] of [ensure_clean_directory],
    over the names listed; [clean] is the recursive call. *)
Fixpoint clean_children (clean : FS.path -> M unit) (path : FS.path)
    (names : list string) : M unit :=
  match names with
  | [] => ret tt
  | nm :: rest =>
      let child := path ++ [nm] in
      (do file <- ask (FS.is_file_at child);
       if file then lift (FS.unlink child)
       else
         do dir <- ask (FS.is_dir_at child);
         if dir then (clean child ;; lift (FS.rmdir child))
         else ret tt) ;;
      clean_children clean path rest
  end.

(** [ensure_clean_directory]; the recursion goes down the tree, [fuel]
    bounds its depth. *)
Fixpoint ensure_clean_directory (fuel : nat) (path : FS.path) : M unit :=
  match fuel with
  | O => fun fs => (fs, OutOfFuel)
  | S fuel' =>
      (do there <- ask (FS.exists_at path);
       if there then
         do names <- try_ask (FS.listdir path);
         clean_children (ensure_clean_directory fuel') path names
       else ret tt) ;;
      lift (FS.mkdir_p path)
  end.

(** A row of the table of templates; [slug] is one path component.  The
    optional columns are [None] when they hold nothing; a manifest is the
    blob as it is stored. *)
Record template : Type := Template {
  name : string;
  slug : string;
  is_default : bool;
  html : option string;
  text : option string;
  manifest : option string
}.

(** The store: its templates in the order of their slugs, and the blob of
    the latest seed of a slug. *)
Record store : Type := Store {
  templates : list template;
  seed : string -> option string
}.

Section RowExport.

(** [json.dumps(..., indent=2, sort_keys=True)] of what [json.loads] makes
    of a decoded blob (or of the decoded blob itself when it is not JSON);
    [None] for a blob that is not valid UTF-8, which [decode] refuses.  And
    the catalog document for a version, a time and the templates. *)
Variable json_pretty : string -> option string.
Variable catalog_text : Z -> string -> list template -> string.

(** The text for a manifest or a seed (lines 86 and 91-94, 111-117): a
    column that holds nothing or an empty blob gives the empty object; a
    blob that cannot be decoded raises [UnicodeDecodeError], a [ValueError]
    that the handler for [JSONDecodeError] does not catch. *)
Definition render (blob : option string) : M string :=
  match blob with
  | Some (String c b) =>
      try_ask (fun _ =>
        match json_pretty (String c b) with
        | Some t => Ok t
        | None => Raise ValueError
        end)
  | _ => ret "{}"
  end.

(** The body of the loop over the rows (lines 75-122). *)
Definition export_row (st : store) (output_dir : FS.path) (row : template)
  : M unit :=
  let template_dir := output_dir ++ [slug row] in
  lift (FS.mkdir_p template_dir) ;;
  lift (FS.write_text (template_dir ++ [slug row +:+ ".html"])
          (default "" (html row))) ;;
  lift (FS.write_text (template_dir ++ [slug row +:+ ".txt"])
          (default "" (text row))) ;;
  (do manifest_text <- render (manifest row);
   lift (FS.write_text (template_dir ++ [slug row +:+ ".manifest.json"])
           manifest_text)) ;;
  do seed_text <- render (seed st (slug row));
  lift (FS.write_text (template_dir ++ [slug row +:+ ".seed.json"])
          seed_text).

Fixpoint export_rows (st : store) (output_dir : FS.path)
    (rows : list template) : M unit :=
  match rows with
  | [] => ret tt
  | row :: rest =>
      export_row st output_dir row ;; export_rows st output_dir rest
  end.

Definition export_templates (st : store) (output_dir : FS.path)
    (catalog_version : Z) (now : string) : M unit :=
  export_rows st output_dir (templates st) ;;
  lift (FS.write_text (output_dir ++ ["catalog.json"])
          (catalog_text catalog_version now (templates st))).

(** [main]: [st] is [None] when the store file does not exist, [now] is
    the time read from the clock. *)
Definition main (st : option store) (output : FS.path) (catalog_version : Z)
    (now : string) : M unit :=
  fun fs =>
    match st with
    | None => (fs, Raise SystemExit)
    | Some st =>
        (ensure_clean_directory (S (FS.height fs)) output ;;
         export_templates st output catalog_version now) fs
    end.

End RowExport.

End ExportTemplates.

(** * Notions used in the statements *)

Module Layout.
Import Flatten.

(** The text made of a list of pieces. *)
Definition concat_str (l : list string) : string :=
  foldr String.append "" l.

(** The 1-based number of the physical line on which the character that
    follows [before] stands. *)
Definition line_at (before : string) : Z := 1 + count_nl before.

(** What the archive holds for one file: its header, its text and one
    newline. *)
Definition block (e : entry) (text : string) : string :=
  header_of (rel_path e) +:+ text +:+ nl.

Definition archive_blocks (entries : list entry) (texts : list string)
  : list string :=
  zip_with block entries texts.

(** An enumeration order lists every entry of a directory once. *)
Definition lists_all
    (scan_order : list (FS.path * FS.node) -> list (FS.path * FS.node)) : Prop :=
  forall l, scan_order l ≡ₚ l.

(** No two objects of the tree have the same path. *)
Definition unique_paths (root : FS.node) : Prop :=
  NoDup (FS.descendants root []).*1.

(** The order [sorted] puts discovered objects in: [a] is not after [b]. *)
Definition not_after (a b : FS.path * FS.node) : Prop :=
  path_lt b a = false.

(** The lines a file adds to the count of its directory. *)
Definition lines_counted (f : FS.path * FS.node) : Z :=
  match FS.read_text f.2 with
  | Ok s => iter_lines s false
  | _ => 0
  end.

(** An enumeration order other than that of the model. *)
Definition reverse_order (l : list (FS.path * FS.node))
  : list (FS.path * FS.node) := rev l.

(** The tree with the object at [p] replaced by [n']. *)
Fixpoint put (p : FS.path) (n' : FS.node) (root : FS.node) : FS.node :=
  match p with
  | [] => n'
  | c :: p' =>
      match root with
      | FS.Dir cs =>
          match FS.child c cs with
          | Some m => FS.Dir (FS.set_child c (put p' n' m) cs)
          | None => root
          end
      | FS.File _ => root
      end
  end.

(** The paths, below the output directory, of what the export of a
    template writes, and of all that an export writes. *)
Definition template_paths (row : ExportTemplates.template) : list FS.path :=
  let s := ExportTemplates.slug row in
  [[s]; [s; s +:+ ".html"]; [s; s +:+ ".txt"]; [s; s +:+ ".manifest.json"];
   [s; s +:+ ".seed.json"]].

Definition exported_paths (st : ExportTemplates.store) : list FS.path :=
  concat (map template_paths (ExportTemplates.templates st))
  ++ [["catalog.json"]].

(** Everything below the directory [out], other than [out] itself, has a
    path in [P]. *)
Definition holds_only (out : FS.path) (fs : FS.node) (P : FS.path -> Prop)
  : Prop :=
  forall q, q <> [] -> is_Some (FS.get fs (out ++ q)) -> P q.

(** The names of a list of directories. *)
Definition dir_names (subdirs : list (FS.path * FS.node)) : list string :=
  map (fun d => FS.name d.1) subdirs.

(** A file whose text cannot be read. *)
Definition unreadable (f : FS.path * FS.node) : Prop :=
  exists e, FS.read_text f.2 = Raise e.

Definition readable (f : FS.path * FS.node) : bool :=
  is_ok (FS.read_text f.2).

(** The number of lines of the header block of an entry. *)
Definition header_lines (e : entry) : Z := count_nl (header_of (rel_path e)).

(** Whether a text read so far leaves a line without its newline;
    [pending] says so for what came before [s]. *)
Fixpoint open_after (s : string) (pending : bool) : bool :=
  match s with
  | EmptyString => pending
  | String c s' => open_after s' (negb (Ascii.eqb c nl_char))
  end.

(** A text that is not empty and does not end with a newline. *)
Definition unterminated (s : string) : bool := open_after s false.

(** What the archive holds for a file at [rel] with that text. *)
Definition text_block (f : FS.path * FS.node) (text : string) : string :=
  header_of f.1 +:+ text +:+ nl.

(** The number of directories at the top of a tree. *)
Definition top_level_dirs (root : FS.node) : nat :=
  match root with
  | FS.Dir cs =>
      length (filter (fun c : string * FS.node => FS.is_dir c.2) cs)
  | FS.File _ => O
  end.

(** The most groups a run makes of [n] directories. *)
Definition archive_bound (a : args) (n : nat) : nat :=
  match max_files a with
  | Some m =>
      if (negb (Z.eqb m 0) && Z.gtb (Z.of_nat n) m)%bool
      then Z.to_nat (Z.max (m - 1) 1) else n
  | None => n
  end.

(** The archive a group is written to. *)
Definition archive_of (group : list string) : string :=
  out_name (map (fun g => [g]) group) +:+ ".txt".

(** The sum of the lines of the blocks of a list of entries. *)
Definition block_lines (entries : list entry) : Z :=
  foldr (fun e acc => header_lines e + loc e + acc) 0 entries.

(** No file stands at [p] or on the way to it: [p] is a directory or can
    be made one. *)
Fixpoint way_clear (p : FS.path) (n : FS.node) : bool :=
  match n with
  | FS.File _ => false
  | FS.Dir cs =>
      match p with
      | [] => true
      | c :: p' =>
          match FS.child c cs with
          | Some m => way_clear p' m
          | None => true
          end
      end
  end.

(** The path [q] lies neither on the way to [p] nor below it. *)
Definition apart (p q : FS.path) : Prop :=
  ~ q `prefix_of` p /\ ~ p `prefix_of` q.

(** The text of the file at [p], when there is a file with a text. *)
Definition text_at (p : FS.path) (fs : FS.node) : option string :=
  match FS.get fs p with
  | Some (FS.File (Some t)) => Some t
  | _ => None
  end.

(** A name that is one component of a path: not empty, neither of the
    two dot names, without a slash. *)
Fixpoint has_slash (s : string) : bool :=
  match s with
  | EmptyString => false
  | String c s' => (Ascii.eqb c "/"%char || has_slash s')%bool
  end.

Definition component (s : string) : bool :=
  (negb (String.eqb s "") && negb (String.eqb s ".")
   && negb (String.eqb s "..") && negb (has_slash s))%bool.

(** The rows the model of the export is made for: a slug is one component
    of a path. *)
Definition plain_row (st : ExportTemplates.store)
    (row : ExportTemplates.template) : Prop :=
  component (ExportTemplates.slug row) = true.

(** The text the export writes for a manifest or a seed, when the blob
    can be decoded. *)
Definition rendered (json_pretty : string -> option string)
    (blob : option string) : option string :=
  match blob with
  | Some (String c b) => json_pretty (String c b)
  | _ => Some "{}"
  end.

(** Every manifest and every seed of the store can be decoded. *)
Definition decodable (json_pretty : string -> option string)
    (st : ExportTemplates.store) : Prop :=
  forall row, row ∈ ExportTemplates.templates st ->
    is_Some (rendered json_pretty (ExportTemplates.manifest row))
    /\ is_Some (rendered json_pretty
                  (ExportTemplates.seed st (ExportTemplates.slug row))).

Definition plain_store (st : ExportTemplates.store) : Prop :=
  Forall (plain_row st) (ExportTemplates.templates st).

(** A step of the export that leaves what is apart from [out] as it
    was, whatever its outcome. *)
Definition keeps_outside {A : Type} (out : FS.path) (c : ExportTemplates.M A)
  : Prop :=
  forall fs q, apart out q -> FS.get (c fs).1 q = FS.get fs q.

(** A directory that holds only files, and the children of a directory
    that holds only such directories. *)
Definition files_only (ds : list (string * FS.node)) : Prop :=
  forall f m, FS.child f ds = Some m -> FS.is_file m = true.

Definition tidy (cs : list (string * FS.node)) : Prop :=
  forall k n, FS.child k cs = Some n -> exists ds, n = FS.Dir ds /\ files_only ds.

(** The children [cs] of the output directory are those it had, [cs0],
    with the files of a world laid over them. *)
Definition overlay (cs0 cs : list (string * FS.node))
    (files : gmap string string) : Prop :=
  forall n,
    FS.child n cs
    = match files !! n with
      | Some t => Some (FS.File (Some t))
      | None => FS.child n cs0
      end.

(** A state of the file system and a world that tell of the same run:
    the same lines are printed, [root_dir] is the tree [r], the output
    directory holds what it held at the start and the files of the world,
    and what is apart from the output directory is as in [fs0]. *)
Definition mirrors (root out : FS.path) (r : FS.node)
    (cs0 : list (string * FS.node)) (fs0 : FS.node)
    (s : Live.state) (w : Flatten.world) : Prop :=
  Live.printed s = Flatten.stdout w
  /\ FS.get (Live.disk s) root = Some r
  /\ (exists cs, FS.get (Live.disk s) out = Some (FS.Dir cs)
                 /\ overlay cs0 cs (Flatten.out_files w))
  /\ (forall q, apart out q -> FS.get (Live.disk s) q = FS.get fs0 q).

(** The path [p] lies below an entry of the directory [root], not
    directly in it; and the path [p] lies directly in the directory
    [dir]. *)
Definition deep_below (root p : FS.path) : Prop :=
  exists d q, q <> [] /\ p = root ++ d :: q.

Definition directly_in (dir p : FS.path) : Prop :=
  exists n, p = dir ++ [n].

(** What a run has opened: files below the entries of [root_dir] for
    reading, files directly in the output directory for writing. *)
Definition logs_within (root out : FS.path) (s : Live.state) : Prop :=
  Forall (deep_below root) (Live.reads s)
  /\ Forall (directly_in out) (Live.writes s).

(** A line with no newline but the one that ends it, and a line that is
    not empty and has no newline at all. *)
Definition full_line (s : string) : Prop :=
  exists body, s = body +:+ nl /\ count_nl body = 0.

Definition open_line (s : string) : Prop :=
  s <> "" /\ count_nl s = 0.

(** The lines of a text: full lines, the last of which may be open. *)
Fixpoint well_cut (lines : list string) : Prop :=
  match lines with
  | [] => True
  | s :: rest =>
      match rest with
      | [] => full_line s \/ open_line s
      | _ :: _ => full_line s /\ well_cut rest
      end
  end.

End Layout.

(** * Inputs used in examples *)

Module Examples.
Import Flatten.

Definition example_counts : list (string * Z) :=
  [("A", 10); ("B", 20); ("C", 5); ("D", 1)].

(** A tree with one directory of two eligible files, an empty directory
    and a file at top level. *)
Definition two_files : FS.node :=
  FS.Dir [("A", FS.Dir [("x.swift", FS.File (Some ("a" +:+ nl +:+ "b")));
                        ("y.md", FS.File (Some ("c" +:+ nl)));
                        ("z.bin", FS.File (Some "zz"))])].

Definition empty_world : world := World ∅ [].

(** The entries the archive writer returns for the directory A of
    [two_files]. *)
Definition two_files_entries : list entry :=
  [Entry 1 "x.swift" 2 ["A"; "x.swift"]; Entry 9 "y.md" 2 ["A"; "y.md"]].

(** A tree whose only top-level directory holds no eligible file. *)
Definition no_eligible_files : FS.node :=
  FS.Dir [("A", FS.Dir [("notes.bin", FS.File (Some "zz"))])].

(** A tree without any directory at top level. *)
Definition no_directories : FS.node :=
  FS.Dir [("README.md", FS.File (Some "hello"))].

Definition default_args : args := Args "flattened_output" None.

(** A directory with an eligible file that cannot be read. *)
Definition vanished : FS.node :=
  FS.Dir [("A", FS.Dir [("x.swift", FS.File None);
                        ("y.md", FS.File (Some ("c" +:+ nl)))])].

(** A directory whose second eligible file cannot be read. *)
Definition vanished_second : FS.node :=
  FS.Dir [("A", FS.Dir [("a.swift", FS.File (Some ("x" +:+ nl)));
                        ("b.swift", FS.File None);
                        ("c.swift", FS.File (Some "y"))])].

(** A working directory whose export directory holds files of an earlier
    export: a stale file, a stale template directory and an old catalog. *)
Definition stale_tree : FS.node :=
  FS.Dir
    [("Resources",
      FS.Dir
        [("TemplateDefaults",
          FS.Dir
            [("old.txt", FS.File (Some "old"));
             ("retired",
              FS.Dir [("retired.html", FS.File (Some "<p>"));
                      ("cache", FS.Dir [("x", FS.File (Some "1"))])]);
             ("catalog.json", FS.File (Some "{}"))])]);
     ("keep.txt", FS.File (Some "kept"))].

Definition export_dir : FS.path := ["Resources"; "TemplateDefaults"].

Definition one_template : ExportTemplates.store :=
  ExportTemplates.Store
    [ExportTemplates.Template "Modern" "modern" true (Some "<html>") None None]
    (fun _ => None).

(** Stand-ins for the JSON rendering of the library: [as_is] takes every
    blob as text, [ascii_only] refuses a blob with a byte above 127. *)
Definition as_is (blob : string) : option string := Some blob.

Definition ascii_only (blob : string) : option string :=
  if forallb (fun c => Nat.ltb (nat_of_ascii c) 128) (list_ascii_of_string blob)
  then Some blob else None.
Definition catalog_stub (version : Z) (now : string)
    (ts : list ExportTemplates.template) : string :=
  str_of_int version +:+ " " +:+ now.

(** A store with two templates, and one in which a template has the name
    of the catalog for its slug. *)
Definition two_templates : ExportTemplates.store :=
  ExportTemplates.Store
    [ExportTemplates.Template "Classic" "classic" false (Some "<c>")
       (Some "c") (Some "{1}");
     ExportTemplates.Template "Modern" "modern" true (Some "<m>") None None]
    (fun s => if String.eqb s "modern" then Some "{2}" else None).

(** A store whose second template has a manifest that is not valid
    UTF-8: its only byte is 255. *)
Definition bad_manifest : ExportTemplates.store :=
  ExportTemplates.Store
    [ExportTemplates.Template "Classic" "classic" false (Some "<c>")
       (Some "c") (Some "{1}");
     ExportTemplates.Template "Modern" "modern" true (Some "<m>") (Some "m")
       (Some (String (ascii_of_nat 255) EmptyString))]
    (fun _ => None).

Definition catalog_clash : ExportTemplates.store :=
  ExportTemplates.Store
    [ExportTemplates.Template "Odd" "catalog.json" false None None None]
    (fun _ => None).

(** A project whose sources lie in one directory, and the same project
    beside a directory for the output. *)
Definition project : FS.node :=
  FS.Dir [("proj", FS.Dir [("Sprung", FS.Dir [("a.swift", FS.File (Some "x"))])])].

Definition sources : FS.node :=
  FS.Dir [("A", FS.Dir [("x.swift", FS.File (Some ("a" +:+ nl +:+ "b")));
                        ("y.md", FS.File (Some ("c" +:+ nl)))]);
          ("B", FS.Dir [("z.swift", FS.File (Some "z"))])].

Definition workspace : FS.node :=
  FS.Dir [("src", sources); ("notes.txt", FS.File (Some "n"))].

(** Nothing of an archive that is being written has reached the file. *)
Definition nothing_flushed (written : string) : string := "".

(** A log with a short line, a long line and a last line without its
    newline, in a tree that has no directory for the output yet. *)
Definition log_text : string :=
  "ok" +:+ nl +:+ "a line that is much too long" +:+ nl +:+ "end".

Definition log_tree : FS.node :=
  FS.Dir [("logs", FS.Dir [("app.log", FS.File (Some log_text))]);
          ("notes.txt", FS.File (Some "n"))].

(** The enumeration order of the model itself. *)
Definition same_order (l : list (FS.path * FS.node)) : list (FS.path * FS.node) := l.

End Examples.

(** * Properties *)

(** ** Facts about the runtime fragment *)

Lemma insert_sorted_perm {A : Type} (lt : A -> A -> bool) x l :
  Py.insert_sorted lt x l ≡ₚ x :: l.
Proof.
  induction l as [|y l IH]; simpl; [done|].
  destruct (lt y x); [|done].
  rewrite IH. apply perm_swap.
Qed.

Lemma sorted_perm {A : Type} (lt : A -> A -> bool) l : Py.sorted lt l ≡ₚ l.
Proof.
  induction l as [|x l IH]; simpl; [done|].
  by rewrite insert_sorted_perm, IH.
Qed.

Lemma elem_of_concat {A : Type} (x : A) (ls : list (list A)) :
  x ∈ concat ls <-> exists l, l ∈ ls /\ x ∈ l.
Proof.
  induction ls as [|l0 ls IH]; simpl.
  - split; [intros H; by apply elem_of_nil in H|].
    intros (l & H & _). by apply elem_of_nil in H.
  - rewrite elem_of_app, IH. split.
    + intros [H|(l & H1 & H2)]; [exists l0|exists l]; split; auto; by constructor.
    + intros (l & H1 & H2). apply elem_of_cons in H1 as [->|H1]; eauto.
Qed.

Lemma concat_singletons {A : Type} (l : list A) :
  concat (map (fun d => [d]) l) = l.
Proof. induction l as [|x l IH]; simpl; [done|by rewrite IH]. Qed.

#[local] Instance concat_perm_proper {A : Type} :
  Proper ((≡ₚ) ==> (≡ₚ)) (@concat A).
Proof.
  intros l1 l2 Hp. induction Hp; simpl.
  - done.
  - by rewrite IHHp.
  - rewrite !app_assoc. f_equiv. apply Permutation_app_comm.
  - by etrans.
Qed.

Lemma NoDup_fst_functional {K V : Type} (l : list (K * V)) k v1 v2 :
  NoDup l.*1 -> (k, v1) ∈ l -> (k, v2) ∈ l -> v1 = v2.
Proof.
  induction l as [|[k0 v0] l IH]; intros Hnd H1 H2.
  - by apply elem_of_nil in H1.
  - rewrite fmap_cons in Hnd. apply NoDup_cons in Hnd as [Hnotin Hnd].
    apply elem_of_cons in H1 as [E1|H1], H2 as [E2|H2].
    + congruence.
    + injection E1 as -> ->. destruct Hnotin.
      by apply (list_elem_of_fmap_2 fst) in H2.
    + injection E2 as -> ->. destruct Hnotin.
      by apply (list_elem_of_fmap_2 fst) in H1.
    + by apply IH.
Qed.

Section PyFacts.
Context {A : Type}.

Lemma with_keys_ok (key : A -> result Z) l :
  (forall x, x ∈ l -> exists k, key x = Ok k) ->
  exists kl, Py.with_keys key l = Ok kl /\ kl.*2 = l.
Proof.
  induction l as [|x l IH]; intros Hk; simpl.
  - by exists [].
  - destruct (Hk x) as [k Hx]; [left|].
    destruct IH as (kl & Hkl & Hsnd).
    { intros y Hy. apply Hk. by right. }
    rewrite Hx, Hkl. simpl. exists ((k, x) :: kl). split; [done|]. rewrite fmap_cons. by f_equal.
Qed.

Lemma sorted_key_ok (key : A -> result Z) l :
  (forall x, x ∈ l -> exists k, key x = Ok k) ->
  exists sl, Py.sorted_key key l = Ok sl /\ sl ≡ₚ l.
Proof.
  intros Hk. destruct (with_keys_ok key l Hk) as (kl & Hkl & Hsnd).
  unfold Py.sorted_key. rewrite Hkl. simpl. eexists; split; [done|].
  rewrite <- Hsnd. apply fmap_Permutation, sorted_perm.
Qed.

Lemma list_remove_ok `{EqDecision A} (x : A) l :
  x ∈ l -> exists l', Py.list_remove x l = Ok l' /\ l ≡ₚ x :: l'.
Proof.
  induction l as [|y l IH]; intros Hin; simpl.
  - by apply elem_of_nil in Hin.
  - destruct (decide (y = x)) as [->|Hne].
    + by exists l.
    + apply elem_of_cons in Hin as [->|Hin]; [done|].
      destruct (IH Hin) as (l' & -> & Hp). simpl.
      exists (y :: l'). split; [done|]. rewrite Hp. apply perm_swap.
Qed.

End PyFacts.

(** ** Group balancer *)

Section Balancer.
Import Flatten.

Lemma sum_locs_ok (locs : gmap string Z) g acc :
  (forall d, d ∈ g -> is_Some (locs !! d)) ->
  exists k, sum_locs locs g acc = Ok k.
Proof.
  revert acc. induction g as [|d g IH]; intros acc Hg; simpl.
  - by eexists.
  - destruct (Hg d) as [v ->]; [left|]. apply IH. intros; apply Hg. by right.
Qed.

(** What one pass through the loop body does to the groups: it always
    succeeds on two or more groups whose names all have a count, merges two
    of them and keeps every name. *)
Lemma merge_step_spec (locs : gmap string Z) groups :
  (forall d, d ∈ concat groups -> is_Some (locs !! d)) ->
  (2 <= length groups)%nat ->
  exists locs' groups',
    merge_step locs groups = Ok (locs', groups')
    /\ concat groups' ≡ₚ concat groups
    /\ S (length groups') = length groups
    /\ (forall d, is_Some (locs !! d) -> is_Some (locs' !! d)).
Proof.
  intros Hcov Hlen. unfold merge_step.
  destruct (sorted_key_ok (fun g => sum_locs locs g 0) groups) as (sl & -> & Hsl).
  { intros g Hg. apply sum_locs_ok. intros d Hd. apply Hcov.
    apply elem_of_concat. eauto. }
  simpl.
  assert (Hl : length sl = length groups) by by rewrite Hsl.
  destruct sl as [|g1 [|g2 rest]]; simpl in Hl; try lia.
  simpl.
  destruct (list_remove_ok g1 groups) as (groups1 & -> & Hp1).
  { rewrite <- Hsl. left. }
  simpl.
  assert (Hp1' : groups1 ≡ₚ g2 :: rest).
  { apply (Permutation_cons_inv (a := g1)). by rewrite <- Hp1, Hsl. }
  destruct (list_remove_ok g2 groups1) as (groups2 & -> & Hp2).
  { rewrite Hp1'. left. }
  simpl. do 2 eexists. split; [done|]. split; [|split].
  - rewrite Hp1, Hp2. rewrite concat_app. simpl.
    rewrite app_nil_r. rewrite (Permutation_app_comm (concat groups2)).
    by rewrite <- app_assoc.
  - rewrite length_app. simpl. rewrite Hp1, Hp2. simpl. lia.
  - intros d Hd. destruct (decide (join "+" (g1 ++ g2) = d)) as [->|Hne].
    + rewrite lookup_insert_eq. by eexists.
    + by rewrite lookup_insert_ne.
Qed.

Lemma merge_loop_spec fuel (locs : gmap string Z) groups max_files :
  (forall d, d ∈ concat groups -> is_Some (locs !! d)) ->
  1 <= max_files ->
  (length groups <= fuel)%nat ->
  exists groups',
    merge_loop fuel locs groups max_files = Ok groups'
    /\ concat groups' ≡ₚ concat groups
    /\ Z.of_nat (length groups') =
         (if Z.gtb (Z.of_nat (length groups)) max_files
          then max_files else Z.of_nat (length groups)).
Proof.
  intros Hcov Hmax. revert locs groups Hcov.
  induction fuel as [|fuel IH]; intros locs groups Hcov Hfuel;
    cbn [merge_loop].
  - destruct groups as [|g groups]; [|simpl in Hfuel; lia].
    change (Z.of_nat (length [])) with 0.
    destruct (Z.gtb_spec 0 max_files); [lia|]. by exists [].
  - destruct (Z.gtb_spec (Z.of_nat (length groups)) max_files) as [Hgt|Hle];
      [|by exists groups].
    destruct (merge_step_spec locs groups Hcov) as (locs' & groups' & -> & Hp & Hl & Hmono);
      [lia|].
    simpl. destruct (IH locs' groups') as (r & Hr & Hpr & Hlr).
    { intros d Hd. apply Hmono, Hcov. by rewrite <- Hp. }
    { lia. }
    exists r. split; [done|]. split; [by rewrite Hpr|].
    rewrite Hlr. destruct (Z.gtb_spec (Z.of_nat (length groups')) max_files); lia.
Qed.

(** Whatever the target, the bound on the loop is never reached: a target
    below one ends in [IndexError] once fewer than two groups are left. *)
Lemma merge_loop_total fuel (locs : gmap string Z) groups max_files :
  (forall d, d ∈ concat groups -> is_Some (locs !! d)) ->
  (length groups < fuel)%nat ->
  merge_loop fuel locs groups max_files <> OutOfFuel.
Proof.
  revert locs groups.
  induction fuel as [|fuel IH]; intros locs groups Hcov Hfuel;
    cbn [merge_loop]; [lia|].
  destruct (Z.gtb _ _); [|done].
  destruct (decide (2 <= length groups)%nat) as [Hlen|Hlen].
  - destruct (merge_step_spec locs groups Hcov Hlen)
      as (locs' & groups' & -> & Hp & Hl & Hmono).
    cbn [bind fst snd]. apply IH; [|lia].
    intros d Hd. apply Hmono, Hcov. by rewrite <- Hp.
  - unfold merge_step.
    destruct (sorted_key_ok (fun g => sum_locs locs g 0) groups)
      as (sl & -> & Hsl).
    { intros g Hg. apply sum_locs_ok. intros d Hd. apply Hcov.
      apply elem_of_concat. eauto. }
    assert (Hl : length sl = length groups) by by rewrite Hsl.
    destruct sl as [|g1 [|g2 rest]]; simpl in Hl; [done|done|lia].
Qed.

Lemma merge_smallest_dirs_total (dir_locs : list (string * Z)) max_files :
  merge_smallest_dirs dir_locs max_files <> OutOfFuel.
Proof.
  unfold merge_smallest_dirs. apply merge_loop_total; [|lia].
  intros d Hd. rewrite concat_singletons in Hd.
  destruct (list_to_map dir_locs !! d) as [v|] eqn:E; [by eexists|].
  by apply not_elem_of_list_to_map in E.
Qed.

Lemma merge_smallest_dirs_spec (dir_locs : list (string * Z)) max_files :
  1 <= max_files ->
  exists groups,
    merge_smallest_dirs dir_locs max_files = Ok groups
    /\ concat groups ≡ₚ dir_locs.*1
    /\ Z.of_nat (length groups) =
         (if Z.gtb (Z.of_nat (length dir_locs)) max_files
          then max_files else Z.of_nat (length dir_locs)).
Proof.
  intros Hmax. unfold merge_smallest_dirs.
  destruct (merge_loop_spec (S (length (map (fun d => [d]) dir_locs.*1)))
              (list_to_map dir_locs) (map (fun d => [d]) dir_locs.*1) max_files)
    as (groups & Hrun & Hperm & Hlen); [|done|lia|].
  { intros d Hd. rewrite concat_singletons in Hd.
    destruct (list_to_map dir_locs !! d) as [v|] eqn:E; [by eexists|].
    by apply not_elem_of_list_to_map in E. }
  rewrite concat_singletons in Hperm.
  rewrite !length_map in Hlen. by exists groups.
Qed.

End Balancer.

(** ** Claims about the group balancer *)

Section BalancerClaims.
Import Flatten Examples.

Lemma NoDup_concat_lookup {A : Type} (ls : list (list A)) i j g h d :
  NoDup (concat ls) ->
  ls !! i = Some g -> ls !! j = Some h -> d ∈ g -> d ∈ h -> i = j.
Proof.
  revert i j. induction ls as [|l ls IH]; intros i j Hnd Hi Hj Hg Hh.
  - done.
  - simpl in Hnd. apply NoDup_app in Hnd as (_ & Hdisj & Hnd).
    destruct i as [|i], j as [|j]; simpl in *; simplify_eq.
    + done.
    + exfalso. apply (Hdisj d Hg). apply elem_of_concat.
      exists h. split; [|done]. by eapply list_elem_of_lookup_2.
    + exfalso. apply (Hdisj d Hh). apply elem_of_concat.
      exists g. split; [|done]. by eapply list_elem_of_lookup_2.
    + f_equal. by apply IH.
Qed.

Lemma NoDup_concat_each {A : Type} (ls : list (list A)) g :
  NoDup (concat ls) -> g ∈ ls -> NoDup g.
Proof.
  induction ls as [|l ls IH]; intros Hnd Hg.
  - by apply elem_of_nil in Hg.
  - simpl in Hnd. apply NoDup_app in Hnd as (Hl & _ & Hnd).
    apply elem_of_cons in Hg as [->|Hg]; auto.
Qed.

(** C9.  For a map with distinct keys and a target of at least one group
    the balancer returns normally, and its groups partition the key set:
    their concatenation is a rearrangement of the keys, no name sits in two
    groups or twice in one, and the number of groups is the target when
    there are more keys than the target and the number of keys otherwise. *)
Theorem merge_smallest_dirs_partition
    (dir_locs : list (string * Z)) (max_files : Z) :
  NoDup dir_locs.*1 ->
  1 <= max_files ->
  exists groups,
    merge_smallest_dirs dir_locs max_files = Ok groups
    /\ concat groups ≡ₚ dir_locs.*1
    /\ (forall d, d ∈ dir_locs.*1 <-> exists g, g ∈ groups /\ d ∈ g)
    /\ (forall i j g h d,
          groups !! i = Some g -> groups !! j = Some h ->
          d ∈ g -> d ∈ h -> i = j)
    /\ (forall g, g ∈ groups -> NoDup g)
    /\ Z.of_nat (length groups) =
         (if Z.gtb (Z.of_nat (length dir_locs)) max_files
          then max_files else Z.of_nat (length dir_locs)).
Proof.
  intros Hnd Hmax.
  destruct (merge_smallest_dirs_spec dir_locs max_files Hmax)
    as (groups & Hrun & Hperm & Hlen).
  assert (Hnd' : NoDup (concat groups)) by by rewrite Hperm.
  exists groups. repeat split; try done.
  - intros Hd. apply elem_of_concat. by rewrite Hperm.
  - intros Hd. rewrite <- Hperm. by apply elem_of_concat.
  - intros i j g h d. by apply NoDup_concat_lookup.
  - intros g. by apply NoDup_concat_each.
Qed.

Lemma merge_smallest_dirs_partition_witness :
  exists groups,
    merge_smallest_dirs example_counts 2 = Ok groups
    /\ concat groups ≡ₚ example_counts.*1
    /\ (forall d, d ∈ example_counts.*1 <-> exists g, g ∈ groups /\ d ∈ g)
    /\ (forall i j g h d,
          groups !! i = Some g -> groups !! j = Some h ->
          d ∈ g -> d ∈ h -> i = j)
    /\ (forall g, g ∈ groups -> NoDup g)
    /\ Z.of_nat (length groups) =
         (if Z.gtb (Z.of_nat (length example_counts)) 2
          then 2 else Z.of_nat (length example_counts)).
Proof.
  apply (merge_smallest_dirs_partition example_counts 2).
  - apply (bool_decide_unpack _). vm_compute. exact I.
  - lia.
Defined.

(** C3.  On the counts A:10, B:20, C:5, D:1 with two groups as target, the
    first pass merges D and C (total 6), the second merges that group with A
    (total 16), and the balancer returns the groups B and D,C,A: the
    partition made of D,C,A and B. *)
Theorem merge_smallest_dirs_example :
  let locs0 : gmap string Z := list_to_map example_counts in
  let locs1 : gmap string Z := <["D+C" := 6]> locs0 in
  let locs2 : gmap string Z := <["D+C+A" := 16]> locs1 in
  merge_step locs0 [["A"]; ["B"]; ["C"]; ["D"]]
    = Ok (locs1, [["A"]; ["B"]; ["D"; "C"]])
  /\ sum_locs locs1 ["D"; "C"] 0 = Ok 6
  /\ merge_step locs1 [["A"]; ["B"]; ["D"; "C"]]
    = Ok (locs2, [["B"]; ["D"; "C"; "A"]])
  /\ sum_locs locs2 ["D"; "C"; "A"] 0 = Ok 16
  /\ merge_smallest_dirs example_counts 2 = Ok [["B"]; ["D"; "C"; "A"]]
  /\ [["B"]; ["D"; "C"; "A"]] ≡ₚ [["D"; "C"; "A"]; ["B"]].
Proof.
  repeat split; try (vm_compute; reflexivity).
  apply perm_swap.
Qed.

End BalancerClaims.

(** ** Archive writer: line accounting *)

Section Writer.
Import Flatten Layout.


Lemma append_cons x (a b : string) : String x a +:+ b = String x (a +:+ b).
Proof. reflexivity. Qed.

Lemma append_nil_l (b : string) : "" +:+ b = b.
Proof. reflexivity. Qed.

Lemma append_assoc (a b c : string) : (a +:+ b) +:+ c = a +:+ b +:+ c.
Proof.
  induction a as [|x a IH]; [done|]. rewrite !append_cons. by f_equal.
Qed.

Lemma append_nil_r (a : string) : a +:+ "" = a.
Proof.
  induction a as [|x a IH]; [done|]. rewrite append_cons. by f_equal.
Qed.

Lemma prefix_append (p s : string) : String.prefix p (p +:+ s) = true.
Proof.
  induction p as [|c p IH]; [by destruct s|].
  rewrite append_cons. simpl. by destruct (ascii_dec c c).
Qed.

Lemma count_nl_app (a b : string) :
  count_nl (a +:+ b) = count_nl a + count_nl b.
Proof.
  induction a as [|x a IH]; [done|].
  rewrite append_cons. cbn [count_nl]. rewrite IH. lia.
Qed.

Lemma count_nl_nonneg (a : string) : 0 <= count_nl a.
Proof.
  induction a as [|x a IH]; cbn [count_nl]; [done|].
  destruct (Ascii.eqb _ _); lia.
Qed.

Lemma count_nl_nl : count_nl nl = 1.
Proof. reflexivity. Qed.

#[local] Arguments header_of : simpl never.
#[local] Arguments count_nl : simpl never.

Lemma count_nl_block e text :
  count_nl (block e text) = header_lines e + count_nl text + 1.
Proof.
  unfold block, header_lines. rewrite !count_nl_app, count_nl_nl. lia.
Qed.

Lemma concat_str_app l1 l2 :
  concat_str (l1 ++ l2) = concat_str l1 +:+ concat_str l2.
Proof.
  induction l1 as [|x l1 IH]; simpl; [done|]. by rewrite IH, append_assoc.
Qed.

(** The text and the entries the loop produces, from any cursor and any
    text already written. *)
Lemma combine_loop_spec files line_counter written acc T entries :
  combine_loop files line_counter written acc = (T, Ok entries) ->
  exists new texts,
    entries = acc ++ new
    /\ length new = length files
    /\ Forall2 (fun f t => FS.read_text f.2 = Ok t) files texts
    /\ Forall2 (fun f e => rel_path e = f.1 /\ filename e = FS.name f.1)
         files new
    /\ T = written +:+ concat_str (archive_blocks new texts)
    /\ (forall i e, new !! i = Some e ->
          start_line e =
            line_counter + count_nl (concat_str (take i (archive_blocks new texts))))
    /\ (forall i e t, new !! i = Some e -> texts !! i = Some t ->
          loc e = count_nl t + 1).
Proof.
  revert line_counter written acc.
  induction files as [|file files IH]; intros lc written acc Hrun;
    cbn [combine_loop] in Hrun.
  - injection Hrun as <- <-. exists [], []. simpl.
    rewrite app_nil_r, append_nil_r.
    split; [done|]. split; [done|]. split; [constructor|].
    split; [constructor|]. split; [done|].
    split; intros i e; by rewrite lookup_nil.
  - destruct (FS.read_text file.2) as [contents| |] eqn:Hread;
      [|by injection Hrun|by injection Hrun].
    apply IH in Hrun as (new & texts & -> & Hlen & Hrd & Hnm & -> & Hstart & Hloc).
    set (e0 := Entry lc (FS.name file.1) (count_nl contents + 1) file.1).
    exists (e0 :: new), (contents :: texts).
    split; [by rewrite <- app_assoc|]. split; [simpl; lia|].
    split; [by constructor|]. split; [by constructor|].
    change (archive_blocks (e0 :: new) (contents :: texts))
      with (block e0 contents :: archive_blocks new texts).
    split.
    { cbn [concat_str foldr]. unfold block at 1. cbn [rel_path e0].
      by rewrite !append_assoc. }
    split.
    + intros [|i] e He; simpl in He.
      * injection He as <-. cbn [take concat_str foldr start_line e0].
        change (count_nl "") with 0. lia.
      * rewrite (Hstart i e He). cbn [take concat_str foldr].
        rewrite count_nl_app, count_nl_block. unfold header_lines, concat_str.
        change (rel_path e0) with file.1. lia.
    + intros [|i] e t He Ht; simpl in He, Ht.
      * by injection He as <-; injection Ht as <-.
      * by eapply Hloc.
Qed.

Lemma combine_loop_length files line_counter written acc T entries :
  combine_loop files line_counter written acc = (T, Ok entries) ->
  length entries = (length acc + length files)%nat.
Proof.
  intros H. apply combine_loop_spec in H as (new & ? & -> & Hl & _).
  rewrite length_app. lia.
Qed.

(** Each block ends a line, so the text before a later block has more
    newlines. *)
Lemma count_nl_take_blocks entries texts i :
  (S i <= length (archive_blocks entries texts))%nat ->
  exists e t, entries !! i = Some e /\ texts !! i = Some t
    /\ count_nl (concat_str (take (S i) (archive_blocks entries texts)))
       = count_nl (concat_str (take i (archive_blocks entries texts)))
         + header_lines e + count_nl t + 1.
Proof.
  intros Hi.
  destruct (lookup_lt_is_Some_2 (archive_blocks entries texts) i) as [b Hb];
    [lia|].
  unfold archive_blocks in Hb.
  apply lookup_zip_with_Some in Hb as (e & t & -> & He & Ht).
  exists e, t. split; [done|]. split; [done|].
  erewrite take_S_r.
  2:{ unfold archive_blocks. apply lookup_zip_with_Some. eauto. }
  rewrite concat_str_app, count_nl_app. simpl.
  rewrite append_nil_r, count_nl_block. lia.
Qed.

Lemma count_nl_take_mono (bs : list string) i j :
  (i <= j)%nat ->
  count_nl (concat_str (take i bs)) <= count_nl (concat_str (take j bs)).
Proof.
  intros Hij. replace j with (i + (j - i))%nat by lia.
  rewrite <- take_take_drop, concat_str_app, count_nl_app.
  pose proof (count_nl_nonneg (concat_str (take (j - i) (drop i bs)))). lia.
Qed.

(** What a successful call of the archive writer leaves: the archive is the
    sequence of the blocks of its entries, and every entry starts on the
    line its block begins at. *)
Lemma combine_swift_files_spec scan_order root subdirs lbl w label entries :
  (combine_swift_files scan_order root subdirs lbl w).2
    = Ok (Some (label, entries)) ->
  exists texts,
    length texts = length entries
    /\ out_files (combine_swift_files scan_order root subdirs lbl w).1
         !! (out_name subdirs +:+ ".txt")
       = Some (concat_str (archive_blocks entries texts))
    /\ (forall i e, entries !! i = Some e ->
          start_line e =
            line_at (concat_str (take i (archive_blocks entries texts))))
    /\ (forall i e t, entries !! i = Some e -> texts !! i = Some t ->
          loc e = count_nl t + 1).
Proof.
  unfold combine_swift_files.
  destruct (concat (map (gather_swift_files scan_order root) subdirs))
    as [|f0 fs] eqn:Hall; [done|].
  destruct (combine_loop (sorted path_lt (f0 :: fs)) 1 "" []) as [T r] eqn:Hrun.
  cbn [fst snd]. destruct r as [ix| |]; [|done|done].
  intros [= <- <-].
  apply combine_loop_spec in Hrun
    as (new & texts & -> & Hlen & Hrd & _ & -> & Hstart & Hloc).
  rewrite app_nil_l in *. exists texts.
  split. { apply Forall2_length in Hrd. lia. }
  split. { cbn [fst snd write_file out_files]. by rewrite lookup_insert_eq. }
  split; [|done]. intros i e He. rewrite (Hstart i e He). unfold line_at. lia.
Qed.

Lemma combine_loop_returns files line_counter written acc :
  Forall (fun f => exists t, FS.read_text f.2 = Ok t) files ->
  exists entries,
    (combine_loop files line_counter written acc).2 = Ok entries.
Proof.
  revert line_counter written acc.
  induction files as [|f files IH]; intros lc wr acc Hall; cbn [combine_loop].
  - by eexists.
  - apply Forall_cons in Hall as [[t Ht] Hall]. rewrite Ht. by apply IH.
Qed.

(** The archive writer returns entries as soon as the group has an
    eligible file and all its eligible files can be read. *)
Lemma combine_swift_files_returns scan_order root subdirs lbl w :
  concat (map (gather_swift_files scan_order root) subdirs) <> [] ->
  Forall (fun f => exists t, FS.read_text f.2 = Ok t)
    (concat (map (gather_swift_files scan_order root) subdirs)) ->
  exists label entries,
    (combine_swift_files scan_order root subdirs lbl w).2
      = Ok (Some (label, entries)).
Proof.
  intros Hne Hall. unfold combine_swift_files.
  destruct (concat _) as [|f0 fs] eqn:E; [done|].
  destruct (combine_loop_returns (sorted path_lt (f0 :: fs)) 1 "" [])
    as [entries Hrun].
  { by rewrite sorted_perm. }
  destruct (combine_loop _ _ _ _) as [T r]. simpl in Hrun. subst r.
  cbn [fst snd]. eauto.
Qed.

Lemma blocks_length entries texts :
  length texts = length entries ->
  length (archive_blocks entries texts) = length entries.
Proof. intros H. unfold archive_blocks. rewrite length_zip_with. lia. Qed.

End Writer.

(** ** Claims about the archive writer *)

Section WriterClaims.
Import Flatten Layout Examples.

#[local] Arguments header_of : simpl never.
#[local] Arguments count_nl : simpl never.

(** C5.  When the archive writer returns its entries, the archive it wrote
    is the sequence of the blocks (header, text, newline) of these entries;
    the start line of every entry is the 1-based number of the physical line
    on which its block, hence its header, begins in that file; and the start
    lines are strictly increasing. *)
Theorem start_lines_physical_and_increasing
    scan_order root subdirs lbl w label entries :
  (combine_swift_files scan_order root subdirs lbl w).2
    = Ok (Some (label, entries)) ->
  exists texts,
    length texts = length entries
    /\ out_files (combine_swift_files scan_order root subdirs lbl w).1
         !! (out_name subdirs +:+ ".txt")
       = Some (concat_str (archive_blocks entries texts))
    /\ (forall i e, entries !! i = Some e ->
          start_line e =
            line_at (concat_str (take i (archive_blocks entries texts))))
    /\ (forall i j ei ej, (i < j)%nat ->
          entries !! i = Some ei -> entries !! j = Some ej ->
          start_line ei < start_line ej).
Proof.
  intros Hrun.
  destruct (combine_swift_files_spec _ _ _ _ _ _ _ Hrun)
    as (texts & Hlen & Hfile & Hstart & Hloc).
  exists texts. split; [done|]. split; [done|]. split; [done|].
  intros i j ei ej Hij Hi Hj.
  rewrite (Hstart i ei Hi), (Hstart j ej Hj). unfold line_at.
  pose proof (lookup_lt_Some _ _ _ Hj) as Hjlen.
  destruct (count_nl_take_blocks entries texts i)
    as (e & t & _ & _ & Hstep).
  { rewrite blocks_length by done. lia. }
  pose proof (count_nl_take_mono (archive_blocks entries texts) (S i) j).
  pose proof (count_nl_nonneg t).
  pose proof (count_nl_nonneg (header_of (rel_path e))).
  unfold header_lines in Hstep. lia.
Qed.

Lemma start_lines_physical_and_increasing_witness :
  exists texts,
    length texts = length two_files_entries
    /\ out_files (combine_swift_files same_order two_files [["A"]] None
                    empty_world).1 !! (out_name [["A"]] +:+ ".txt")
       = Some (concat_str (archive_blocks two_files_entries texts))
    /\ (forall i e, two_files_entries !! i = Some e ->
          start_line e =
            line_at (concat_str
                       (take i (archive_blocks two_files_entries texts))))
    /\ (forall i j ei ej, (i < j)%nat ->
          two_files_entries !! i = Some ei ->
          two_files_entries !! j = Some ej ->
          start_line ei < start_line ej).
Proof.
  apply (start_lines_physical_and_increasing
           same_order two_files [["A"]] None empty_world "A" two_files_entries).
  vm_compute. reflexivity.
Defined.

(** C1, as the code has it.  For two consecutive entries of an archive the
    second starts where the first does plus the lines of the first one's
    header plus its recorded line count; the newline written after the text
    is already counted in that line count (newlines + 1). *)
Theorem consecutive_start_lines
    scan_order root subdirs lbl w label entries i e1 e2 :
  (combine_swift_files scan_order root subdirs lbl w).2
    = Ok (Some (label, entries)) ->
  entries !! i = Some e1 ->
  entries !! S i = Some e2 ->
  start_line e2 = start_line e1 + header_lines e1 + loc e1.
Proof.
  intros Hrun H1 H2.
  destruct (combine_swift_files_spec _ _ _ _ _ _ _ Hrun)
    as (texts & Hlen & _ & Hstart & Hloc).
  rewrite (Hstart i e1 H1), (Hstart (S i) e2 H2). unfold line_at.
  pose proof (lookup_lt_Some _ _ _ H2) as Hlt.
  destruct (count_nl_take_blocks entries texts i)
    as (e & t & He & Ht & Hstep).
  { rewrite blocks_length by done. lia. }
  rewrite H1 in He. injection He as <-.
  rewrite (Hloc i e1 t H1 Ht). lia.
Qed.

Lemma consecutive_start_lines_witness :
  start_line (Entry 9 "y.md" 2 ["A"; "y.md"])
  = start_line (Entry 1 "x.swift" 2 ["A"; "x.swift"])
    + header_lines (Entry 1 "x.swift" 2 ["A"; "x.swift"])
    + loc (Entry 1 "x.swift" 2 ["A"; "x.swift"]).
Proof.
  apply (consecutive_start_lines same_order two_files [["A"]] None empty_world
           "A" two_files_entries 0).
  - vm_compute. reflexivity.
  - reflexivity.
  - reflexivity.
Defined.

(** C1 as stated, with one more line between consecutive entries, fails:
    in the archive of a directory with the files x.swift (two lines) and
    y.md the entries start on lines 1 and 9, and the first header has 6
    lines. *)
Lemma consecutive_start_lines_plus_one_fails :
  ~ (forall scan_order root subdirs lbl w label entries i e1 e2,
       (combine_swift_files scan_order root subdirs lbl w).2
         = Ok (Some (label, entries)) ->
       entries !! i = Some e1 ->
       entries !! S i = Some e2 ->
       start_line e2 = start_line e1 + header_lines e1 + loc e1 + 1).
Proof.
  intros H.
  specialize (H same_order two_files [["A"]] None empty_world
                "A" two_files_entries 0%nat
                (Entry 1 "x.swift" 2 ["A"; "x.swift"])
                (Entry 9 "y.md" 2 ["A"; "y.md"])).
  assert (Hrun : (combine_swift_files same_order two_files [["A"]] None
                    empty_world).2
                 = Ok (Some ("A", two_files_entries)))
    by (vm_compute; reflexivity).
  specialize (H Hrun eq_refl eq_refl). vm_compute in H. discriminate H.
Qed.

End WriterClaims.

(** ** Read failures *)

Section ReadFailures.
Import Flatten Layout.
Variable scan_order : list (FS.path * FS.node) -> list (FS.path * FS.node).

Lemma read_text_cases n :
  (exists t, FS.read_text n = Ok t) \/ FS.read_text n = Raise OSError.
Proof. destruct n as [[t|]|cs]; simpl; eauto. Qed.

Lemma count_file_unreadable total f :
  unreadable f -> count_file total f = total.
Proof. intros [e He]. unfold count_file. by rewrite He. Qed.

Lemma foldl_count_file_readable files total :
  foldl count_file total (filter (fun f => readable f) files)
  = foldl count_file total files.
Proof.
  revert total. induction files as [|f files IH]; intros total; [done|].
  rewrite filter_cons. cbn [foldl].
  destruct (decide (readable f)) as [Hr|Hr]; [apply IH|].
  rewrite <- IH. f_equal. unfold readable in Hr. unfold count_file.
  destruct (FS.read_text f.2); [by destruct Hr|done|done].
Qed.

Lemma combine_loop_raises files line_counter written acc f :
  f ∈ files -> unreadable f ->
  (combine_loop files line_counter written acc).2 = Raise OSError.
Proof.
  revert line_counter written acc.
  induction files as [|g files IH]; intros lc wr acc Hin Hbad.
  - by apply elem_of_nil in Hin.
  - cbn [combine_loop].
    destruct (read_text_cases g.2) as [[t Ht]|Ht]; rewrite Ht; [|done].
    apply elem_of_cons in Hin as [->|Hin].
    + destruct Hbad as [e He]. congruence.
    + by apply IH.
Qed.

Lemma combine_loop_no_fuel files line_counter written acc :
  (combine_loop files line_counter written acc).2 <> OutOfFuel.
Proof.
  revert line_counter written acc.
  induction files as [|g files IH]; intros lc wr acc; cbn [combine_loop].
  - done.
  - destruct (read_text_cases g.2) as [[t Ht]|Ht]; rewrite Ht; [apply IH|done].
Qed.

Lemma combine_swift_files_no_fuel root subdirs lbl w :
  (combine_swift_files scan_order root subdirs lbl w).2 <> OutOfFuel.
Proof.
  unfold combine_swift_files.
  destruct (concat _) as [|f0 fs]; [done|].
  pose proof (combine_loop_no_fuel (sorted path_lt (f0 :: fs)) 1 "" []) as H.
  destruct (combine_loop _ _ _ _) as [T [ix| |]]; simpl in *; done.
Qed.

(** A group with an unreadable eligible file makes the archive writer
    raise. *)
Lemma combine_swift_files_raises root subdirs lbl w d f :
  d ∈ subdirs -> f ∈ gather_swift_files scan_order root d -> unreadable f ->
  (combine_swift_files scan_order root subdirs lbl w).2 = Raise OSError.
Proof.
  intros Hd Hf Hbad. unfold combine_swift_files.
  assert (Hall : f ∈ concat (map (gather_swift_files scan_order root) subdirs)).
  { apply elem_of_concat. exists (gather_swift_files scan_order root d).
    split; [|done]. apply list_elem_of_fmap. eauto. }
  destruct (concat _) as [|f0 fs] eqn:E; [by apply elem_of_nil in Hall|].
  assert (H : (combine_loop (sorted path_lt (f0 :: fs)) 1 "" []).2
              = Raise OSError).
  { apply combine_loop_raises with f; [by rewrite sorted_perm|done]. }
  destruct (combine_loop _ _ _ _) as [T r]; simpl in *. by rewrite H.
Qed.

Lemma flatten_groups_no_fuel root groups ix mi w :
  (flatten_groups scan_order root groups ix mi w).2 <> OutOfFuel.
Proof.
  revert ix mi w. induction groups as [|group groups IH]; intros ix mi w;
    cbn [flatten_groups]; [done|].
  pose proof (combine_swift_files_no_fuel root (map (fun g => [g]) group) None w).
  destruct (combine_swift_files _ _ _ _ _) as [w' [[[l [|e es]]|]| |]];
    simpl in *; try done; apply IH.
Qed.

(** The flattening loop does not get past a group with an unreadable
    eligible file. *)
Lemma flatten_groups_raises root groups ix mi w group d f :
  group ∈ groups -> d ∈ group ->
  f ∈ gather_swift_files scan_order root [d] -> unreadable f ->
  exists e, (flatten_groups scan_order root groups ix mi w).2 = Raise e.
Proof.
  intros Hg Hd Hf Hbad. revert ix mi w.
  induction groups as [|g0 groups IH]; intros ix mi w.
  - by apply elem_of_nil in Hg.
  - cbn [flatten_groups]. apply elem_of_cons in Hg as [<-|Hg].
    + rewrite (combine_swift_files_raises root _ None w [d] f); eauto.
      apply list_elem_of_fmap. eauto.
    + pose proof (combine_swift_files_no_fuel root (map (fun g => [g]) g0) None w).
      destruct (combine_swift_files _ _ _ _ _) as [w' [[[l [|e es]]|]| |]];
        simpl in *; eauto; done.
Qed.

End ReadFailures.

(** ** The run as a whole *)

Section MainFacts.
Import Flatten Layout.
Variable scan_order : list (FS.path * FS.node) -> list (FS.path * FS.node).

Lemma dict_set_keys {V : Type} k (v : V) d x :
  x ∈ (dict_set k v d).*1 <-> x = k \/ x ∈ d.*1.
Proof.
  induction d as [|[k' v'] d IH]; simpl.
  - rewrite list_elem_of_singleton. split; [auto|]. intros [?|H]; [done|].
    by apply elem_of_nil in H.
  - destruct (String.eqb_spec k' k) as [->|Hne]; simpl.
    + rewrite !elem_of_cons. tauto.
    + rewrite !elem_of_cons, IH. tauto.
Qed.

Lemma counted_keys root subdirs st x :
  x ∈ (foldl (count_dir scan_order root) st subdirs).1.*1
  <-> x ∈ st.1.*1 \/ x ∈ dir_names subdirs.
Proof.
  revert st. induction subdirs as [|d subdirs IH]; intros st; simpl.
  - split; [auto|]. intros [?|H]; [done|]. by apply elem_of_nil in H.
  - rewrite IH. unfold count_dir at 1. cbn [fst].
    rewrite dict_set_keys, elem_of_cons. tauto.
Qed.

Lemma counted_length_pos root subdirs st :
  subdirs <> [] ->
  (0 < length (foldl (count_dir scan_order root) st subdirs).1)%nat.
Proof.
  intros Hne. destruct subdirs as [|d subdirs]; [done|].
  assert (H : FS.name d.1 ∈
            (foldl (count_dir scan_order root) st (d :: subdirs)).1.*1).
  { apply counted_keys. right. left. }
  destruct (foldl _ _ _).1; [by apply elem_of_nil in H|simpl; lia].
Qed.

(** The grouping always succeeds; every directory lands in a group, and
    there is a group as soon as there is a directory. *)
Lemma decide_groups_spec a subdirs dir_locs w :
  (forall d, d ∈ dir_names subdirs -> d ∈ dir_locs.*1) ->
  exists groups,
    (decide_groups a subdirs dir_locs w).2 = Ok groups
    /\ (forall d, d ∈ dir_names subdirs -> exists g, g ∈ groups /\ d ∈ g)
    /\ (subdirs <> [] -> groups <> []).
Proof.
  intros Hkeys. unfold decide_groups.
  assert (Hplain :
    (forall d, d ∈ dir_names subdirs ->
       exists g, g ∈ map (fun d => [FS.name d.1]) subdirs /\ d ∈ g)
    /\ (subdirs <> [] -> map (fun d => [FS.name d.1]) subdirs <> [])).
  { split.
    - intros d Hd. apply list_elem_of_fmap in Hd as (x & -> & Hx).
      exists [FS.name x.1]. split; [|left].
      apply list_elem_of_fmap. eauto.
    - by destruct subdirs. }
  destruct (max_files a) as [m|]; [|by eexists].
  destruct (negb (m =? 0) && _)%bool eqn:Hcond; [|by eexists].
  cbn [snd].
  destruct (merge_smallest_dirs_spec dir_locs (Z.max (m - 1) 1))
    as (groups & -> & Hperm & Hlen); [lia|].
  exists groups. split; [done|]. split.
  - intros d Hd. apply elem_of_concat. rewrite Hperm. by apply Hkeys.
  - intros Hne ->. simpl in Hlen.
    assert (d0 : exists d, d ∈ dir_names subdirs).
    { destruct subdirs as [|x ?]; [done|]. exists (FS.name x.1). left. }
    destruct d0 as [d Hd]. apply Hkeys in Hd.
    destruct dir_locs; [by apply elem_of_nil in Hd|].
    destruct (Z.gtb_spec (Z.of_nat (length (p :: dir_locs))) (Z.max (m - 1) 1));
      simpl in *; lia.
Qed.

(** The sub-directories the run works on. *)
Lemma subdirs_complete cs d n :
  lists_all scan_order ->
  (d, n) ∈ cs -> FS.is_dir n = true ->
  ([d], n) ∈ filter (fun d => FS.is_dir d.2)
               (sorted path_lt (scan_order (map (fun c => ([c.1], c.2)) cs))).
Proof.
  intros Hall Hin Hdir. apply list_elem_of_filter.
  split; [by apply Is_true_true|].
  rewrite sorted_perm, (Hall _).
  apply (list_elem_of_fmap_2 (fun c => ([c.1], c.2))) in Hin. done.
Qed.

(** A run over a tree in which an eligible file of a top-level directory
    cannot be read ends with an exception. *)
Lemma main_raises_on_unreadable cs a w d n f :
  lists_all scan_order ->
  (d, n) ∈ cs -> FS.is_dir n = true ->
  f ∈ gather_swift_files scan_order (FS.Dir cs) [d] -> unreadable f ->
  exists e, (main scan_order (FS.Dir cs) a w).2 = Raise e.
Proof.
  intros Hall Hin Hdir Hf Hbad. unfold main. cbn [iterdir].
  set (subdirs := filter _ _).
  assert (Hsub : ([d], n) ∈ subdirs) by by apply subdirs_complete.
  set (counted := foldl _ _ subdirs).
  destruct (decide_groups_spec a subdirs counted.1 counted.2)
    as (groups & Hg & Hcover & _).
  { intros x Hx. apply counted_keys. by right. }
  rewrite Hg. destruct (Hcover d) as (g & Hgin & Hdg).
  { apply list_elem_of_fmap. by exists ([d], n). }
  destruct (flatten_groups_raises scan_order (FS.Dir cs) groups ∅ ∅
              (decide_groups a subdirs counted.1 counted.2).1 g d f)
    as [e He]; try done.
  rewrite He. by exists e.
Qed.

Lemma decide_groups_nil a w :
  (decide_groups a [] [] w).2 = Ok []
  /\ out_files (decide_groups a [] [] w).1 = out_files w.
Proof.
  unfold decide_groups. destruct (max_files a) as [m|]; [|done].
  destruct (negb _ && _)%bool; [|done]. cbn [fst snd]. split; [|done].
  unfold merge_smallest_dirs. cbn. change (Z.of_nat 0) with 0.
  destruct (Z.gtb_spec 0 (Z.max (m - 1) 1)); [lia|done].
Qed.

(** A run over a directory that only holds files reads none of them and
    writes nothing. *)
Lemma main_on_flat_directory cs a w :
  lists_all scan_order ->
  Forall (fun c => FS.is_file c.2 = true) cs ->
  (main scan_order (FS.Dir cs) a w).2 = Ok tt
  /\ out_files (main scan_order (FS.Dir cs) a w).1 = out_files w.
Proof.
  intros Hall Hfiles. unfold main. cbn [iterdir].
  assert (Hnone : filter (fun d : FS.path * FS.node => FS.is_dir d.2)
            (sorted path_lt (scan_order (map (fun c => ([c.1], c.2)) cs))) = []).
  { destruct (filter _ _) as [|x l] eqn:E; [done|].
    assert (Hx : x ∈ x :: l) by left. rewrite <- E in Hx.
    apply list_elem_of_filter in Hx as [Hd Hx].
    rewrite sorted_perm, (Hall _) in Hx.
    apply list_elem_of_fmap in Hx as (c & -> & Hc).
    rewrite Forall_forall in Hfiles. specialize (Hfiles c Hc). simpl in Hd.
    destruct c.2; simpl in *; done. }
  rewrite Hnone. cbn [foldl fst snd].
  destruct (decide_groups_nil a w) as [Hg Hw].
  destruct (decide_groups a [] [] w) as [w1 r]. cbn [fst snd] in *. subst r.
  cbn [flatten_groups fst snd]. rewrite bool_decide_true by done.
  by cbn [fst snd print out_files].
Qed.

(** A run always ends, normally or with an exception. *)
Lemma main_total root a w : (main scan_order root a w).2 <> OutOfFuel.
Proof.
  unfold main. destruct root as [t|cs]; cbn [iterdir]; [done|].
  set (subdirs := filter _ _). set (counted := foldl _ _ subdirs).
  destruct (decide_groups_spec a subdirs counted.1 counted.2)
    as (groups & Hg & _).
  { intros x Hx. apply counted_keys. by right. }
  rewrite Hg.
  pose proof (flatten_groups_no_fuel scan_order (FS.Dir cs) groups ∅ ∅
                (decide_groups a subdirs counted.1 counted.2).1) as H.
  destruct (flatten_groups _ _ _ _ _ _) as [w' [[ix mi]| |]]; [|done|done].
  cbn [fst snd]. by destruct (bool_decide _).
Qed.

Lemma flatten_groups_nothing_eligible root groups ix mi w :
  (forall d, gather_swift_files scan_order root [d] = []) ->
  groups <> [] ->
  flatten_groups scan_order root groups ix mi w = (w, Raise TypeError).
Proof.
  intros Hnone Hne. destruct groups as [|group groups]; [done|].
  cbn [flatten_groups]. unfold combine_swift_files.
  assert (E : concat (map (gather_swift_files scan_order root)
                        (map (fun g => [g]) group)) = []).
  { induction group as [|g group IH]; simpl; [done|]. by rewrite Hnone, IH. }
  by rewrite E.
Qed.

(** With a top-level directory and no eligible file anywhere the run
    stops with [TypeError] when it unpacks the result of the archive
    writer. *)
Lemma main_nothing_eligible cs a w d n :
  lists_all scan_order ->
  (d, n) ∈ cs -> FS.is_dir n = true ->
  (forall d, gather_swift_files scan_order (FS.Dir cs) [d] = []) ->
  (main scan_order (FS.Dir cs) a w).2 = Raise TypeError.
Proof.
  intros Hall Hin Hdir Hnone. unfold main. cbn [iterdir].
  set (subdirs := filter _ _).
  assert (Hsub : ([d], n) ∈ subdirs) by by apply subdirs_complete.
  set (counted := foldl _ _ subdirs).
  destruct (decide_groups_spec a subdirs counted.1 counted.2)
    as (groups & Hg & _ & Hne).
  { intros x Hx. apply counted_keys. by right. }
  rewrite Hg. rewrite flatten_groups_nothing_eligible; [done|done|].
  apply Hne. intros E. rewrite E in Hsub. by apply elem_of_nil in Hsub.
Qed.

End MainFacts.

(** ** The order of paths and the result of [sorted] *)

Section PathOrder.
Import Flatten Layout.

Lemma string_compare_refl (a : string) : String.compare a a = Eq.
Proof.
  induction a as [|c a IH]; simpl; [done|].
  unfold Ascii.compare. by rewrite N.compare_refl.
Qed.

Lemma string_compare_lt_trans (a b c : string) :
  String.compare a b = Lt -> String.compare b c = Lt -> String.compare a c = Lt.
Proof.
  intros Hab Hbc.
  assert (Hle : String.le a c).
  { trans b; unfold String.le, String.leb; [by rewrite Hab|by rewrite Hbc]. }
  unfold String.le, String.leb in Hle.
  destruct (String.compare a c) eqn:Hac; [|done|done].
  apply String.compare_eq_iff in Hac as ->.
  rewrite String.compare_antisym, Hbc in Hab. done.
Qed.

Lemma path_compare_refl (a : FS.path) : FS.compare a a = Eq.
Proof. induction a as [|x a IH]; simpl; [done|]. by rewrite string_compare_refl. Qed.

Lemma path_compare_eq (a b : FS.path) : FS.compare a b = Eq -> a = b.
Proof.
  revert b. induction a as [|x a IH]; intros [|y b] H; simpl in H; try done.
  destruct (String.compare x y) eqn:Hxy; try done.
  apply String.compare_eq_iff in Hxy as ->. f_equal. by apply IH.
Qed.

Lemma path_compare_antisym (a b : FS.path) :
  FS.compare b a = CompOpp (FS.compare a b).
Proof.
  revert b. induction a as [|x a IH]; intros [|y b]; simpl; try done.
  rewrite (String.compare_antisym y x).
  destruct (String.compare x y); simpl; [apply IH|done|done].
Qed.

Lemma path_compare_lt_trans (a b c : FS.path) :
  FS.compare a b = Lt -> FS.compare b c = Lt -> FS.compare a c = Lt.
Proof.
  revert b c. induction a as [|x a IH]; intros [|y b] [|z c] Hab Hbc;
    simpl in *; try done.
  destruct (String.compare x y) eqn:Hxy; try done.
  - apply String.compare_eq_iff in Hxy as ->.
    destruct (String.compare y z); [by eapply IH|done|done].
  - destruct (String.compare y z) eqn:Hyz; try done.
    + apply String.compare_eq_iff in Hyz as ->. by rewrite Hxy.
    + by rewrite (string_compare_lt_trans x y z).
Qed.

Lemma not_after_iff a b : not_after a b <-> FS.compare a.1 b.1 <> Gt.
Proof.
  unfold not_after, path_lt, FS.ltb. rewrite (path_compare_antisym a.1 b.1).
  destruct (FS.compare a.1 b.1); simpl; split; done.
Qed.

#[local] Instance not_after_trans : Transitive not_after.
Proof.
  intros a b c. rewrite !not_after_iff. intros Hab Hbc Hac.
  destruct (FS.compare a.1 b.1) eqn:E1; [| |done].
  - apply path_compare_eq in E1. rewrite E1 in Hac. done.
  - destruct (FS.compare b.1 c.1) eqn:E2; [| |done].
    + apply path_compare_eq in E2. rewrite <- E2 in Hac. congruence.
    + rewrite (path_compare_lt_trans _ _ _ E1 E2) in Hac. done.
Qed.

Lemma not_after_antisym a b : not_after a b -> not_after b a -> a.1 = b.1.
Proof.
  rewrite !not_after_iff. rewrite (path_compare_antisym a.1 b.1).
  intros H1 H2. apply path_compare_eq.
  destruct (FS.compare a.1 b.1); simpl in *; done.
Qed.

Lemma path_lt_not_after a b : path_lt a b = true -> not_after a b.
Proof.
  unfold not_after, path_lt, FS.ltb. rewrite (path_compare_antisym a.1 b.1).
  destruct (FS.compare a.1 b.1); simpl; done.
Qed.

Lemma insert_sorted_Sorted x l :
  Sorted not_after l -> Sorted not_after (insert_sorted path_lt x l).
Proof.
  induction 1 as [|y l Hl IH Hhd]; simpl.
  - by repeat constructor.
  - destruct (path_lt y x) eqn:E.
    + constructor; [done|].
      destruct l as [|z l]; simpl.
      * constructor. by apply path_lt_not_after.
      * destruct (path_lt z x); constructor;
          [by inversion Hhd|by apply path_lt_not_after].
    + constructor; [by constructor|]. by constructor.
Qed.

Lemma sorted_Sorted l : Sorted not_after (sorted path_lt l).
Proof.
  induction l as [|x l IH]; simpl; [constructor|].
  by apply insert_sorted_Sorted.
Qed.

(** Objects drawn from a table without duplicate paths come out of
    [sorted] in one order, whatever order they went in. *)
Lemma sorted_canonical (X l1 l2 : list (FS.path * FS.node)) :
  NoDup X.*1 -> (forall x, x ∈ l1 -> x ∈ X) -> l1 ≡ₚ l2 ->
  sorted path_lt l1 = sorted path_lt l2.
Proof.
  intros Hnd Hsub Hperm.
  apply (Sorted_unique_strong not_after); try apply sorted_Sorted.
  - intros x1 x2 H1 H2 R12 R21.
    rewrite sorted_perm in H1. rewrite sorted_perm, <- Hperm in H2.
    destruct x1 as [p1 n1], x2 as [p2 n2].
    pose proof (not_after_antisym _ _ R12 R21) as E. simpl in E. subst p2.
    f_equal. eapply NoDup_fst_functional; eauto.
  - by rewrite !sorted_perm.
Qed.

End PathOrder.

(** ** Independence from the enumeration order *)

Section Determinism.
Import Flatten Layout.
Variables scan1 scan2 : list (FS.path * FS.node) -> list (FS.path * FS.node).
Hypothesis scan1_all : lists_all scan1.
Hypothesis scan2_all : lists_all scan2.
Variable root : FS.node.
Hypothesis root_unique : unique_paths root.

Lemma descendants_cons name c cs here :
  FS.descendants (FS.Dir ((name, c) :: cs)) here
  = (here ++ [name], c) :: FS.descendants c (here ++ [name])
      ++ FS.descendants (FS.Dir cs) here.
Proof. reflexivity. Qed.

Lemma child_elem name cs m : FS.child name cs = Some m -> (name, m) ∈ cs.
Proof.
  induction cs as [|[k n] cs IH]; simpl; [done|].
  destruct (String.eqb_spec k name) as [->|_].
  - intros [= ->]. left.
  - intros H. right. by apply IH.
Qed.

Lemma descendants_child cs name m here x :
  (name, m) ∈ cs ->
  x = (here ++ [name], m) \/ x ∈ FS.descendants m (here ++ [name]) ->
  x ∈ FS.descendants (FS.Dir cs) here.
Proof.
  induction cs as [|[k n] cs IH]; intros Hin Hx.
  - by apply elem_of_nil in Hin.
  - rewrite descendants_cons. apply elem_of_cons in Hin as [[= <- <-]|Hin].
    + destruct Hx as [->|Hx]; [left|]. right. apply elem_of_app. by left.
    + right. apply elem_of_app. right. by apply IH.
Qed.

Lemma descendants_get m p n here x :
  FS.get m p = Some n ->
  x ∈ FS.descendants n (here ++ p) -> x ∈ FS.descendants m here.
Proof.
  revert m here. induction p as [|c p IH]; intros m here Hget Hx.
  - injection Hget as ->. by rewrite app_nil_r in Hx.
  - simpl in Hget. destruct m as [|cs]; [done|].
    destruct (FS.child c cs) as [m'|] eqn:Hc; [|done].
    apply child_elem in Hc.
    apply (descendants_child cs c m'); [done|]. right.
    apply (IH m'); [done|]. by rewrite <- app_assoc.
Qed.

Lemma top_level_in_descendants cs x :
  x ∈ map (fun c : string * FS.node => ([c.1], c.2)) cs ->
  x ∈ FS.descendants (FS.Dir cs) [].
Proof.
  intros Hx. apply list_elem_of_fmap in Hx as ([name m] & -> & Hin).
  apply (descendants_child cs name m []); [done|]. by left.
Qed.

Lemma rglob_perm d : rglob scan1 root d ≡ₚ rglob scan2 root d.
Proof.
  unfold rglob. destruct (FS.get root d); [|done].
  by rewrite (scan1_all _), (scan2_all _).
Qed.

Lemma rglob_sub d x : x ∈ rglob scan1 root d -> x ∈ FS.descendants root [].
Proof.
  unfold rglob. destruct (FS.get root d) as [n|] eqn:Hget.
  - rewrite (scan1_all _). intros Hx.
    by apply (descendants_get root d n []).
  - intros H. by apply elem_of_nil in H.
Qed.

Lemma gather_perm d :
  gather_swift_files scan1 root d ≡ₚ gather_swift_files scan2 root d.
Proof. unfold gather_swift_files. by rewrite rglob_perm. Qed.

Lemma gather_sub d x :
  x ∈ gather_swift_files scan1 root d -> x ∈ FS.descendants root [].
Proof.
  unfold gather_swift_files. intros [_ H]%list_elem_of_filter.
  by eapply rglob_sub.
Qed.

Lemma foldl_count_file_sum files total :
  foldl count_file total files
  = total + foldr (fun f acc => lines_counted f + acc) 0 files.
Proof.
  revert total. induction files as [|f files IH]; intros total; simpl; [lia|].
  rewrite IH. unfold count_file, lines_counted.
  destruct (FS.read_text f.2); lia.
Qed.

Lemma foldl_count_file_perm l1 l2 total :
  l1 ≡ₚ l2 -> foldl count_file total l1 = foldl count_file total l2.
Proof.
  intros Hp. rewrite !foldl_count_file_sum. f_equal.
  induction Hp; simpl; [done|lia|lia|congruence].
Qed.

Lemma count_lines_in_dir_order d :
  count_lines_in_dir scan1 root d = count_lines_in_dir scan2 root d.
Proof. unfold count_lines_in_dir. apply foldl_count_file_perm, gather_perm. Qed.

Lemma counting_order subdirs st :
  foldl (count_dir scan1 root) st subdirs
  = foldl (count_dir scan2 root) st subdirs.
Proof.
  revert st. induction subdirs as [|d subdirs IH]; intros st; simpl; [done|].
  rewrite IH. unfold count_dir. by rewrite count_lines_in_dir_order.
Qed.

Lemma all_files_perm subdirs :
  concat (map (gather_swift_files scan1 root) subdirs)
  ≡ₚ concat (map (gather_swift_files scan2 root) subdirs).
Proof.
  induction subdirs as [|d subdirs IH]; simpl; [done|].
  by rewrite gather_perm, IH.
Qed.

Lemma all_files_sub subdirs x :
  x ∈ concat (map (gather_swift_files scan1 root) subdirs) ->
  x ∈ FS.descendants root [].
Proof.
  intros (l & Hl & Hx)%elem_of_concat.
  apply list_elem_of_fmap in Hl as (d & -> & _). by eapply gather_sub.
Qed.

Lemma combine_swift_files_order subdirs lbl w :
  combine_swift_files scan1 root subdirs lbl w
  = combine_swift_files scan2 root subdirs lbl w.
Proof.
  unfold combine_swift_files.
  pose proof (all_files_perm subdirs) as Hp.
  pose proof (all_files_sub subdirs) as Hsub.
  destruct (concat (map (gather_swift_files scan1 root) subdirs))
    as [|f1 l1] eqn:E1;
  destruct (concat (map (gather_swift_files scan2 root) subdirs))
    as [|f2 l2] eqn:E2.
  - done.
  - by apply Permutation_nil_cons in Hp.
  - symmetry in Hp. by apply Permutation_nil_cons in Hp.
  - by rewrite (sorted_canonical (FS.descendants root []) (f1 :: l1) (f2 :: l2)).
Qed.

Lemma flatten_groups_order groups ix mi w :
  flatten_groups scan1 root groups ix mi w
  = flatten_groups scan2 root groups ix mi w.
Proof.
  revert ix mi w. induction groups as [|group groups IH]; intros ix mi w;
    cbn [flatten_groups]; [done|].
  rewrite combine_swift_files_order.
  destruct (combine_swift_files scan2 _ _ _ _) as [w' [[[l [|e es]]|]| |]];
    cbn [fst snd]; auto.
Qed.

Lemma iterdir_order :
  match iterdir scan1 root, iterdir scan2 root with
  | Ok l1, Ok l2 => sorted path_lt l1 = sorted path_lt l2
  | Raise e1, Raise e2 => e1 = e2
  | _, _ => False
  end.
Proof.
  unfold iterdir. destruct root as [t|cs] eqn:E; [done|].
  apply (sorted_canonical (FS.descendants (FS.Dir cs) [])).
  - exact root_unique.
  - intros x Hx. rewrite (scan1_all _) in Hx. by apply top_level_in_descendants.
  - by rewrite (scan1_all _), (scan2_all _).
Qed.

Lemma main_order a w : main scan1 root a w = main scan2 root a w.
Proof.
  unfold main. pose proof iterdir_order as Hit.
  destruct (iterdir scan1 root) as [l1| |], (iterdir scan2 root) as [l2| |];
    try done; [|by subst].
  rewrite Hit, counting_order.
  set (grouped := decide_groups _ _ _ _).
  destruct (grouped.2); [|done|done].
  by rewrite flatten_groups_order.
Qed.

End Determinism.

(** ** The file system under changes *)

Section TreeFacts.
Import Layout.

Lemma get_app root p q :
  FS.get root (p ++ q)
  = match FS.get root p with Some n => FS.get n q | None => None end.
Proof.
  revert root. induction p as [|c p IH]; intros root; simpl; [done|].
  destruct root as [|cs]; [done|]. destruct (FS.child c cs); [apply IH|done].
Qed.

Lemma child_set_child k c m cs :
  FS.child k (FS.set_child c m cs)
  = if String.eqb c k then Some m else FS.child k cs.
Proof.
  induction cs as [|[k0 m0] cs IH]; simpl.
  - done.
  - destruct (String.eqb_spec k0 c) as [->|Hne]; simpl.
    + by destruct (String.eqb_spec c k).
    + rewrite IH. destruct (String.eqb_spec k0 k) as [->|]; [|done].
      by destruct (String.eqb_spec c k) as [->|].
Qed.

Lemma set_child_same c m cs :
  FS.child c cs = Some m -> FS.set_child c m cs = cs.
Proof.
  induction cs as [|[k0 m0] cs IH]; simpl; [done|].
  destruct (String.eqb_spec k0 c) as [->|Hne].
  - by intros [= ->].
  - intros H. by rewrite IH.
Qed.

Lemma set_child_twice c a b cs :
  FS.set_child c a (FS.set_child c b cs) = FS.set_child c a cs.
Proof.
  induction cs as [|[k0 m0] cs IH]; simpl.
  - by rewrite String.eqb_refl.
  - destruct (String.eqb_spec k0 c) as [->|Hne]; simpl.
    + by rewrite String.eqb_refl.
    + destruct (String.eqb_spec k0 c); [done|]. by rewrite IH.
Qed.

Lemma get_put root p n n' q :
  FS.get root p = Some n -> FS.get (put p n' root) (p ++ q) = FS.get n' q.
Proof.
  revert root. induction p as [|c p IH]; intros root Hget; simpl in *; [done|].
  destruct root as [|cs]; [done|].
  destruct (FS.child c cs) as [m|] eqn:Hc; [|done].
  simpl. rewrite child_set_child, String.eqb_refl. by apply IH.
Qed.

Lemma get_put_here root p n n' :
  FS.get root p = Some n -> FS.get (put p n' root) p = Some n'.
Proof.
  intros H. pose proof (get_put root p n n' [] H) as E.
  by rewrite app_nil_r in E.
Qed.

Lemma put_same root p n : FS.get root p = Some n -> put p n root = root.
Proof.
  revert root. induction p as [|c p IH]; intros root Hget; simpl in *.
  - by injection Hget as ->.
  - destruct root as [|cs]; [done|].
    destruct (FS.child c cs) as [m|] eqn:Hc; [|done].
    rewrite (IH m Hget). by rewrite set_child_same.
Qed.

Lemma put_put root p n a b :
  FS.get root p = Some n -> put p a (put p b root) = put p a root.
Proof.
  revert root. induction p as [|c p IH]; intros root Hget; simpl in *; [done|].
  destruct root as [|cs]; [done|].
  destruct (FS.child c cs) as [m|] eqn:Hc; [|done].
  simpl. rewrite child_set_child, String.eqb_refl.
  rewrite set_child_twice. by rewrite IH.
Qed.

Lemma put_snoc root p c cs m x :
  FS.get root p = Some (FS.Dir cs) -> FS.child c cs = Some m ->
  put (p ++ [c]) x root = put p (FS.Dir (FS.set_child c x cs)) root.
Proof.
  revert root. induction p as [|k p IH]; intros root Hget Hc; simpl in *.
  - injection Hget as ->. by rewrite Hc.
  - destruct root as [|cs0]; [done|].
    destruct (FS.child k cs0) as [m0|] eqn:Hk; [|done].
    by rewrite (IH m0).
Qed.

Lemma update_ok p f root n n' :
  FS.get root p = Some n -> f n = Ok n' ->
  FS.update p f root = Ok (put p n' root).
Proof.
  revert root. induction p as [|c p IH]; intros root Hget Hf; simpl in *.
  - by injection Hget as ->.
  - destruct root as [|cs]; [done|].
    destruct (FS.child c cs) as [m|] eqn:Hc; [|done].
    by rewrite (IH m Hget Hf).
Qed.

Lemma parent_snoc (p : FS.path) c : FS.parent (p ++ [c]) = p.
Proof. apply removelast_last. Qed.

Lemma name_snoc (p : FS.path) c : FS.name (p ++ [c]) = c.
Proof. apply last_last. Qed.

Lemma snoc_not_nil (p : FS.path) c : exists x l, p ++ [c] = x :: l.
Proof. destruct p; simpl; eauto. Qed.

Lemma parent_name (p : FS.path) : p <> [] -> FS.parent p ++ [FS.name p] = p.
Proof. intros H. symmetry. by apply app_removelast_last. Qed.

Lemma unlink_ok root p nm cs text :
  FS.get root p = Some (FS.Dir ((nm, FS.File text) :: cs)) ->
  FS.unlink (p ++ [nm]) root = Ok (put p (FS.Dir cs) root).
Proof.
  intros Hget. unfold FS.unlink.
  destruct (snoc_not_nil p nm) as (x & l & E). rewrite E, <- E.
  rewrite parent_snoc, name_snoc.
  apply (update_ok _ _ _ _ _ Hget). simpl. by rewrite String.eqb_refl.
Qed.

Lemma rmdir_ok root p nm cs :
  FS.get root p = Some (FS.Dir ((nm, FS.Dir []) :: cs)) ->
  FS.rmdir (p ++ [nm]) root = Ok (put p (FS.Dir cs) root).
Proof.
  intros Hget. unfold FS.rmdir.
  destruct (snoc_not_nil p nm) as (x & l & E). rewrite E, <- E.
  rewrite parent_snoc, name_snoc.
  apply (update_ok _ _ _ _ _ Hget). simpl. by rewrite String.eqb_refl.
Qed.

Lemma mkdir_p_existing root p cs :
  FS.get root p = Some (FS.Dir cs) -> FS.mkdir_p p root = Ok root.
Proof.
  revert root. induction p as [|c p IH]; intros root Hget; simpl in *.
  - by injection Hget as ->.
  - destruct root as [|cs0]; [done|].
    destruct (FS.child c cs0) as [m|] eqn:Hc; [|done]. simpl.
    rewrite (IH m Hget). simpl. by rewrite set_child_same.
Qed.

(** A directory made on the way is empty. *)
Lemma mkdir_p_result root p root' :
  FS.mkdir_p p root = Ok root' ->
  exists cs, FS.get root' p = Some (FS.Dir cs)
    /\ (FS.get root p = Some (FS.Dir cs) \/ (FS.get root p = None /\ cs = [])).
Proof.
  revert root root'. induction p as [|c p IH]; intros root root' Hmk.
  - destruct root as [|cs]; [done|]. injection Hmk as <-. eauto.
  - destruct root as [|cs0]; [done|]. simpl in Hmk.
    destruct (FS.mkdir_p p (default (FS.Dir []) (FS.child c cs0)))
      as [m'| |] eqn:Hm; [|done|done].
    injection Hmk as <-. simpl. rewrite child_set_child, String.eqb_refl.
    destruct (IH _ _ Hm) as (cs & Hget & Hcase). exists cs. split; [done|].
    destruct (FS.child c cs0) as [m|]; simpl in *; [done|].
    destruct Hcase as [H|[H ->]]; [|by right].
    destruct p; simpl in H; [by injection H as <-; right|done].
Qed.

Lemma height_child c cs m :
  FS.child c cs = Some m -> (FS.height m < FS.height (FS.Dir cs))%nat.
Proof.
  induction cs as [|[k n] cs IH]; simpl; [done|].
  destruct (String.eqb k c).
  - intros [= ->]. lia.
  - intros H. specialize (IH H). simpl in IH. lia.
Qed.

Lemma height_get root p n :
  FS.get root p = Some n -> (FS.height n <= FS.height root)%nat.
Proof.
  revert root. induction p as [|c p IH]; intros root Hget; simpl in *.
  - by injection Hget as ->.
  - destruct root as [|cs]; [done|].
    destruct (FS.child c cs) as [m|] eqn:Hc; [|done].
    specialize (IH m Hget). apply height_child in Hc. lia.
Qed.

End TreeFacts.

(** ** Clearing a directory *)

Section Clearing.
Import Layout ExportTemplates.

(** The loop over the children removes them one by one, given that the
    recursive call clears every sub-directory. *)
Lemma clean_children_spec (clean : FS.path -> M unit) path cs fs :
  (forall nm sub fs0,
     (nm, FS.Dir sub) ∈ cs ->
     FS.get fs0 (path ++ [nm]) = Some (FS.Dir sub) ->
     clean (path ++ [nm]) fs0 = (put (path ++ [nm]) (FS.Dir []) fs0, Ok tt)) ->
  FS.get fs path = Some (FS.Dir cs) ->
  clean_children clean path cs.*1 fs = (put path (FS.Dir []) fs, Ok tt).
Proof.
  revert fs. induction cs as [|[nm m] cs IH]; intros fs Hclean Hget.
  - simpl. unfold ret. by rewrite (put_same _ _ _ Hget).
  - assert (Hchild : FS.get fs (path ++ [nm]) = Some m).
    { rewrite get_app, Hget. simpl. by rewrite String.eqb_refl. }
    assert (Hrest : forall fs1,
              FS.get fs1 path = Some (FS.Dir cs) ->
              clean_children clean path cs.*1 fs1
              = (put path (FS.Dir []) fs1, Ok tt)).
    { intros fs1 H1. apply IH; [|done].
      intros nm' sub fs0 Hin. apply Hclean. by right. }
    rewrite fmap_cons. cbn [clean_children fst]. unfold bindM at 1.
    unfold bindM at 1. unfold ask at 1. unfold FS.is_file_at at 1.
    rewrite Hchild. destruct m as [t|sub].
    + unfold lift. rewrite (unlink_ok fs path nm cs t Hget).
      rewrite Hrest by by eapply get_put_here.
      by rewrite (put_put _ _ _ _ _ Hget).
    + unfold bindM at 1. unfold ask at 1. unfold FS.is_dir_at at 1.
      rewrite Hchild. unfold bindM at 1.
      rewrite (Hclean nm sub fs); [|left|done].
      assert (E : put (path ++ [nm]) (FS.Dir []) fs
                  = put path (FS.Dir ((nm, FS.Dir []) :: cs)) fs).
      { rewrite (put_snoc fs path nm _ (FS.Dir sub) _ Hget).
        - simpl. by rewrite String.eqb_refl.
        - simpl. by rewrite String.eqb_refl. }
      rewrite E. unfold lift.
      rewrite (rmdir_ok _ path nm cs) by by eapply get_put_here.
      rewrite (put_put _ _ _ _ _ Hget).
      rewrite Hrest by by eapply get_put_here.
      by rewrite (put_put _ _ _ _ _ Hget).
Qed.

(** Clearing an existing directory succeeds with enough fuel and leaves
    it empty, the rest of the tree as it was. *)
Lemma ensure_clean_directory_spec fuel path fs cs :
  FS.get fs path = Some (FS.Dir cs) ->
  (FS.height (FS.Dir cs) <= fuel)%nat ->
  ensure_clean_directory fuel path fs = (put path (FS.Dir []) fs, Ok tt).
Proof.
  revert path fs cs. induction fuel as [|fuel IH]; intros path fs cs Hget Hfuel.
  - simpl in Hfuel. lia.
  - cbn [ensure_clean_directory]. unfold bindM at 1. unfold bindM at 1.
    unfold ask at 1. unfold FS.exists_at.
    rewrite bool_decide_true by (rewrite Hget; by eexists).
    unfold bindM at 1. unfold try_ask at 1. unfold FS.listdir. rewrite Hget.
    rewrite (clean_children_spec _ path cs fs); [| |done].
    + unfold lift. erewrite mkdir_p_existing; [done|].
      by eapply get_put_here.
    + intros nm sub fs0 Hin Hsub. apply (IH _ _ sub Hsub).
      assert (Hh : (FS.height (FS.Dir sub) < FS.height (FS.Dir cs))%nat).
      { clear -Hin. induction cs as [|[k n] cs IHcs];
          [by apply elem_of_nil in Hin|].
        apply elem_of_cons in Hin as [[= <- <-]|Hin].
        - simpl. lia.
        - specialize (IHcs Hin). simpl in *. lia. }
      lia.
Qed.

End Clearing.

(** ** What an export adds *)

Section Exporting.
Import Layout ExportTemplates.
Variable json_pretty : string -> option string.
Variable catalog_text : Z -> string -> list template -> string.

Lemma get_set_child c m cs k q :
  FS.get (FS.Dir (FS.set_child c m cs)) (k :: q)
  = if String.eqb c k then FS.get m q else FS.get (FS.Dir cs) (k :: q).
Proof. simpl. rewrite child_set_child. by destruct (String.eqb c k). Qed.

(** What exists after an update existed before or lies below the updated
    object, where the function applied put it. *)
Lemma update_new (S : FS.path -> Prop) p f n n' :
  (forall m m', f m = Ok m' ->
     forall q, is_Some (FS.get m' q) -> S q \/ is_Some (FS.get m q)) ->
  FS.update p f n = Ok n' ->
  forall q, is_Some (FS.get n' q) ->
    (exists q', q = p ++ q' /\ S q') \/ is_Some (FS.get n q).
Proof.
  intros Hf. revert n n'. induction p as [|c p IH]; intros n n' Hup q Hq.
  - simpl in Hup. destruct (Hf _ _ Hup q Hq); [left; by exists q|by right].
  - simpl in Hup. destruct n as [|cs]; [done|].
    destruct (FS.child c cs) as [m|] eqn:Hc; [|done].
    destruct (FS.update p f m) as [m'| |] eqn:Hm; [|done|done].
    injection Hup as <-. destruct q as [|k q]; [right; by eexists|].
    rewrite get_set_child in Hq.
    destruct (String.eqb_spec c k) as [<-|Hne].
    + destruct (IH _ _ Hm q Hq) as [(q' & -> & HS)|Hold].
      * left. by exists q'.
      * right. simpl. by rewrite Hc.
    + by right.
Qed.

Lemma write_text_new p data fs fs' :
  FS.write_text p data fs = Ok fs' ->
  forall q, is_Some (FS.get fs' q) -> q = p \/ is_Some (FS.get fs q).
Proof.
  unfold FS.write_text. destruct p as [|x l] eqn:E; [done|]. rewrite <- E.
  assert (Hp : p <> []) by (by rewrite E). clear E.
  intros Hup q Hq.
  assert (Hf : forall m m', FS.write_in (FS.name p) data m = Ok m' ->
            forall q0, is_Some (FS.get m' q0) ->
              q0 = [FS.name p] \/ is_Some (FS.get m q0)).
  { intros m m' Hw q0 Hq0. unfold FS.write_in in Hw.
    destruct m as [|cs]; [done|].
    assert (m' = FS.Dir (FS.set_child (FS.name p) (FS.File (Some data)) cs))
      as -> by (destruct (FS.child (FS.name p) cs) as [[|]|]; congruence).
    destruct q0 as [|k q0]; [right; by eexists|].
    rewrite get_set_child in Hq0.
    destruct (String.eqb_spec (FS.name p) k) as [<-|Hne]; [|by right].
    left. destruct q0; [done|]. simpl in Hq0. by destruct Hq0. }
  destruct (update_new (fun q' => q' = [FS.name p]) _ _ _ _ Hf Hup q Hq)
    as [(q' & -> & ->)|Hold].
  - left. by apply parent_name.
  - by right.
Qed.

Lemma mkdir_p_new p fs fs' :
  FS.mkdir_p p fs = Ok fs' ->
  forall q, is_Some (FS.get fs' q) ->
    is_Some (FS.get fs q) \/ (q <> [] /\ exists r, p = q ++ r).
Proof.
  revert fs fs'. induction p as [|c p IH]; intros fs fs' Hmk q Hq.
  - destruct fs as [|cs]; [done|]. injection Hmk as <-. by left.
  - destruct fs as [|cs]; [done|]. simpl in Hmk.
    destruct (FS.mkdir_p p (default (FS.Dir []) (FS.child c cs)))
      as [m'| |] eqn:Hm; [|done|done].
    injection Hmk as <-. destruct q as [|k q]; [left; by eexists|].
    rewrite get_set_child in Hq.
    destruct (String.eqb_spec c k) as [<-|Hne]; [|by left].
    destruct (IH _ _ Hm q Hq) as [Hold|[Hne (r & ->)]].
    + destruct (FS.child c cs) as [m|] eqn:Hc; simpl in Hold.
      * left. simpl. by rewrite Hc.
      * right. split; [done|].
        destruct q; [by exists p|]. simpl in Hold. by destruct Hold.
    + right. split; [done|]. by exists r.
Qed.

Lemma lift_ok op fs fs' :
  lift op fs = (fs', Ok tt) -> op fs = Ok fs'.
Proof. unfold lift. destruct (op fs); by intros [= <-]. Qed.

Lemma bindM_ok {A B : Type} (c : M A) (k : A -> M B) fs fs' b :
  bindM c k fs = (fs', Ok b) ->
  exists fs1 a, c fs = (fs1, Ok a) /\ k a fs1 = (fs', Ok b).
Proof.
  unfold bindM. destruct (c fs) as [fs1 [a| |]]; [eauto|done|done].
Qed.

(** Rendering a blob reads nothing and changes nothing. *)
Lemma render_state blob fs : (render json_pretty blob fs).1 = fs.
Proof.
  unfold render. destruct blob as [[|c b]|]; try done.
Qed.

Lemma render_ok blob fs fs' t :
  render json_pretty blob fs = (fs', Ok t) -> fs = fs'.
Proof. intros H. pose proof (render_state blob fs) as E. by rewrite H in E. Qed.

Lemma render_no_fuel blob fs : (render json_pretty blob fs).2 <> OutOfFuel.
Proof.
  unfold render. destruct blob as [[|c b]|]; try done.
  unfold try_ask. simpl. by destruct (json_pretty (String c b)).
Qed.

Lemma holds_only_write out fs fs' (P : FS.path -> Prop) q0 data :
  FS.write_text (out ++ q0) data fs = Ok fs' ->
  holds_only out fs P -> holds_only out fs' (fun q => P q \/ q = q0).
Proof.
  intros Hw Hinv q Hq Hex.
  destruct (write_text_new _ _ _ _ Hw _ Hex) as [E|Hold].
  - right. by apply app_inv_head in E.
  - left. by apply Hinv.
Qed.

Lemma holds_only_mkdir out fs fs' (P : FS.path -> Prop) c :
  FS.mkdir_p (out ++ [c]) fs = Ok fs' ->
  holds_only out fs P -> holds_only out fs' (fun q => P q \/ q = [c]).
Proof.
  intros Hm Hinv q Hq Hex.
  destruct (mkdir_p_new _ _ _ Hm _ Hex) as [Hold|[_ (r & E)]].
  - left. by apply Hinv.
  - right. rewrite <- app_assoc in E. apply app_inv_head in E.
    destruct q as [|x q]; [done|]. destruct q; [|done].
    by injection E as ->.
Qed.

Lemma holds_only_weaken out fs (P Q : FS.path -> Prop) :
  (forall q, P q -> Q q) -> holds_only out fs P -> holds_only out fs Q.
Proof. intros HPQ H q Hq Hex. by apply HPQ, H. Qed.

Lemma export_row_only st out row fs fs' (P : FS.path -> Prop) :
  export_row json_pretty st out row fs = (fs', Ok tt) ->
  holds_only out fs P ->
  holds_only out fs' (fun q => P q \/ q ∈ template_paths row).
Proof.
  unfold export_row. intros Hrun Hinv.
  apply bindM_ok in Hrun as (fs1 & [] & H1%lift_ok & Hrun).
  apply bindM_ok in Hrun as (fs2 & [] & H2%lift_ok & Hrun).
  apply bindM_ok in Hrun as (fs3 & [] & H3%lift_ok & Hrun).
  apply bindM_ok in Hrun as (fs4 & [] & H4 & Hrun).
  apply bindM_ok in H4 as (fs3' & mt & <-%render_ok & H4%lift_ok).
  apply bindM_ok in Hrun as (fs4' & sd & <-%render_ok & H5%lift_ok).
  rewrite <- !app_assoc in *. simpl in *.
  pose proof (holds_only_mkdir _ _ _ _ _ H1 Hinv) as I1.
  pose proof (holds_only_write _ _ _ _ _ _ H2 I1) as I2.
  pose proof (holds_only_write _ _ _ _ _ _ H3 I2) as I3.
  pose proof (holds_only_write _ _ _ _ _ _ H4 I3) as I4.
  pose proof (holds_only_write _ _ _ _ _ _ H5 I4) as I5.
  eapply holds_only_weaken; [|exact I5].
  unfold template_paths. intros q. rewrite !elem_of_cons. tauto.
Qed.

Lemma export_rows_only st out rows fs fs' (P : FS.path -> Prop) :
  export_rows json_pretty st out rows fs = (fs', Ok tt) ->
  holds_only out fs P ->
  holds_only out fs'
    (fun q => P q \/ q ∈ concat (map template_paths rows)).
Proof.
  revert fs P. induction rows as [|row rows IH]; intros fs P Hrun Hinv.
  - injection Hrun as <-. eapply holds_only_weaken; [|exact Hinv]. auto.
  - cbn [export_rows] in Hrun.
    apply bindM_ok in Hrun as (fs1 & [] & H1 & Hrun).
    pose proof (export_row_only _ _ _ _ _ _ H1 Hinv) as I1.
    pose proof (IH _ _ Hrun I1) as I2.
    eapply holds_only_weaken; [|exact I2].
    intros q. cbn [map concat]. rewrite elem_of_app. tauto.
Qed.

Lemma export_templates_only st out ver now fs fs' :
  export_templates json_pretty catalog_text st out ver now fs = (fs', Ok tt) ->
  holds_only out fs (fun _ => False) ->
  holds_only out fs' (fun q => q ∈ exported_paths st).
Proof.
  unfold export_templates. intros Hrun Hinv.
  apply bindM_ok in Hrun as (fs1 & [] & H1 & H2%lift_ok).
  pose proof (export_rows_only _ _ _ _ _ _ H1 Hinv) as I1.
  pose proof (holds_only_write _ _ _ _ _ _ H2 I1) as I2.
  eapply holds_only_weaken; [|exact I2].
  intros q. unfold exported_paths. rewrite elem_of_app, list_elem_of_singleton.
  tauto.
Qed.

Lemma update_no_fuel p f n :
  (forall m, f m <> OutOfFuel) -> FS.update p f n <> OutOfFuel.
Proof.
  intros Hf. revert n. induction p as [|c p IH]; intros n; simpl; [done|].
  destruct n as [|cs]; [done|]. destruct (FS.child c cs) as [m|]; [|done].
  specialize (IH m). by destruct (FS.update p f m).
Qed.

Lemma write_text_no_fuel p data fs : FS.write_text p data fs <> OutOfFuel.
Proof.
  unfold FS.write_text. destruct p; [done|]. apply update_no_fuel.
  intros [|cs]; simpl; [done|]. by destruct (FS.child _ cs) as [[|]|].
Qed.

Lemma mkdir_p_no_fuel p fs : FS.mkdir_p p fs <> OutOfFuel.
Proof.
  revert fs. induction p as [|c p IH]; intros [|cs]; simpl; try done.
  specialize (IH (default (FS.Dir []) (FS.child c cs))).
  by destruct (FS.mkdir_p p _).
Qed.

Lemma lift_no_fuel op fs :
  op fs <> OutOfFuel -> (lift op fs).2 <> OutOfFuel.
Proof. unfold lift. by destruct (op fs). Qed.

Lemma bindM_no_fuel {A B : Type} (c : M A) (k : A -> M B) fs :
  (c fs).2 <> OutOfFuel -> (forall a fs1, (k a fs1).2 <> OutOfFuel) ->
  (bindM c k fs).2 <> OutOfFuel.
Proof.
  unfold bindM. intros Hc Hk. destruct (c fs) as [fs1 [a| |]]; simpl in *;
    [apply Hk|done|done].
Qed.

Lemma export_templates_no_fuel st out ver now fs :
  (export_templates json_pretty catalog_text st out ver now fs).2
  <> OutOfFuel.
Proof.
  unfold export_templates. apply bindM_no_fuel.
  - generalize (templates st). intros rows. revert fs.
    induction rows as [|row rows IH]; intros fs; cbn [export_rows]; [done|].
    apply bindM_no_fuel; [|intros; apply IH].
    unfold export_row.
    repeat (apply bindM_no_fuel; [|intros]);
      (apply render_no_fuel
       || (apply lift_no_fuel;
           (apply mkdir_p_no_fuel || apply write_text_no_fuel))).
  - intros. apply lift_no_fuel, write_text_no_fuel.
Qed.

(** The bound given to the clearing in [main] is never reached. *)
Lemma ensure_clean_directory_no_fuel out fs :
  (ensure_clean_directory (S (FS.height fs)) out fs).2 <> OutOfFuel.
Proof.
  destruct (FS.get fs out) as [[t|cs]|] eqn:Hget.
  - cbn [ensure_clean_directory]. unfold bindM at 1. unfold bindM at 1.
    unfold ask at 1. unfold FS.exists_at.
    rewrite bool_decide_true by (rewrite Hget; by eexists).
    unfold bindM at 1. unfold try_ask at 1. unfold FS.listdir.
    by rewrite Hget.
  - rewrite (ensure_clean_directory_spec _ _ _ cs Hget); [done|].
    pose proof (height_get _ _ _ Hget). lia.
  - cbn [ensure_clean_directory]. unfold bindM at 1. unfold bindM at 1.
    unfold ask at 1. unfold FS.exists_at.
    rewrite bool_decide_false by (rewrite Hget; by intros []).
    unfold ret. apply lift_no_fuel, mkdir_p_no_fuel.
Qed.

(** A run of the export always ends, normally or with an exception. *)
Lemma export_main_total st out ver now fs :
  (main json_pretty catalog_text st out ver now fs).2 <> OutOfFuel.
Proof.
  unfold main. destruct st as [st|]; [|done].
  apply bindM_no_fuel; [apply ensure_clean_directory_no_fuel|].
  intros. apply export_templates_no_fuel.
Qed.

Lemma ensure_clean_directory_result out fs fs1 :
  ensure_clean_directory (S (FS.height fs)) out fs = (fs1, Ok tt) ->
  FS.get fs1 out = Some (FS.Dir []).
Proof.
  destruct (FS.get fs out) as [[t|cs]|] eqn:Hget.
  - cbn [ensure_clean_directory]. unfold bindM at 1. unfold bindM at 1.
    unfold ask at 1. unfold FS.exists_at.
    rewrite bool_decide_true by (rewrite Hget; by eexists).
    unfold bindM at 1. unfold try_ask at 1. unfold FS.listdir.
    by rewrite Hget.
  - rewrite (ensure_clean_directory_spec _ _ _ cs Hget).
    + intros [= <-]. by eapply get_put_here.
    + pose proof (height_get _ _ _ Hget). lia.
  - cbn [ensure_clean_directory]. unfold bindM at 1. unfold bindM at 1.
    unfold ask at 1. unfold FS.exists_at.
    rewrite bool_decide_false by (rewrite Hget; by intros []).
    unfold ret. intros Hmk%lift_ok.
    destruct (mkdir_p_result _ _ _ Hmk) as (cs & H1 & [H2|[_ ->]]);
      [congruence|done].
Qed.

End Exporting.

(** ** Claims about runs *)

Section RunClaims.
Import Flatten Layout Examples.

Lemma same_order_lists_all : lists_all same_order.
Proof. intros l. reflexivity. Qed.

(** C2.  On a tree whose only top-level directory holds no eligible file
    the run does not end with its report: after the counting line it raises
    [TypeError], where the result [None] of the archive writer is unpacked
    into a label and entries.  No file is written. *)
Theorem main_no_eligible_files_raises :
  main same_order no_eligible_files default_args empty_world
  = (World ∅ ["Directory A: 0 LOC"], Raise TypeError).
Proof. vm_compute. reflexivity. Qed.

(** C7.  An eligible file that cannot be read leaves the count of its
    directory as if it were not there: the counter returns the total of the
    readable files.  The archive writer raises on the group of that
    directory, and the run ends with an exception. *)
Theorem unreadable_file_counted_zero_but_aborts_writing
    scan_order cs a w d n f total :
  lists_all scan_order ->
  (d, n) ∈ cs -> FS.is_dir n = true ->
  f ∈ gather_swift_files scan_order (FS.Dir cs) [d] -> unreadable f ->
  count_file total f = total
  /\ count_lines_in_dir scan_order (FS.Dir cs) [d]
     = foldl count_file 0
         (filter (fun f => readable f)
            (gather_swift_files scan_order (FS.Dir cs) [d]))
  /\ (combine_swift_files scan_order (FS.Dir cs) [[d]] None w).2
     = Raise OSError
  /\ exists e, (main scan_order (FS.Dir cs) a w).2 = Raise e.
Proof.
  intros Hall Hin Hdir Hf Hbad.
  split; [by apply count_file_unreadable|].
  split; [unfold count_lines_in_dir; by rewrite foldl_count_file_readable|].
  split.
  - apply (combine_swift_files_raises scan_order _ _ _ _ [d] f);
      [left|done|done].
  - by eapply main_raises_on_unreadable.
Qed.

Lemma unreadable_file_counted_zero_but_aborts_writing_witness :
  count_file 5 (["A"; "x.swift"], FS.File None) = 5
  /\ count_lines_in_dir same_order vanished ["A"] = 1
  /\ exists e, (main same_order vanished default_args empty_world).2 = Raise e.
Proof.
  destruct (unreadable_file_counted_zero_but_aborts_writing
              same_order
              [("A", FS.Dir [("x.swift", FS.File None);
                             ("y.md", FS.File (Some ("c" +:+ nl)))])]
              default_args empty_world "A"
              (FS.Dir [("x.swift", FS.File None);
                       ("y.md", FS.File (Some ("c" +:+ nl)))])
              (["A"; "x.swift"], FS.File None) 5)
    as (H1 & H2 & _ & H4).
  - intros l. reflexivity.
  - left.
  - reflexivity.
  - vm_compute. left.
  - exists OSError. reflexivity.
  - split; [exact H1|]. split; [|exact H4]. vm_compute. reflexivity.
Defined.

End RunClaims.

(** ** Claims about the redaction of lines *)

Section RedactClaims.
Import Redact.



End RedactClaims.

(** ** Claims about the export of templates *)

Section ExportClaims.
Import Layout ExportTemplates Examples.

(** C10.  Clearing an existing output directory always succeeds and
    leaves it empty, whatever files and directories were below it, and
    changes nothing else; and when a run ends normally, every file and
    directory then found below the output directory is one this run
    exported: a directory of a template, one of its four files, or the
    catalog. *)
Theorem export_clears_output_directory
    json_pretty catalog_text st out ver now fs :
  (forall cs, FS.get fs out = Some (FS.Dir cs) ->
     ensure_clean_directory (S (FS.height fs)) out fs
       = (put out (FS.Dir []) fs, Ok tt)
     /\ FS.get (put out (FS.Dir []) fs) out = Some (FS.Dir []))
  /\ (forall fs',
        main json_pretty catalog_text (Some st) out ver now fs = (fs', Ok tt) ->
        forall q, q <> [] -> is_Some (FS.get fs' (out ++ q)) ->
          q ∈ exported_paths st).
Proof.
  split.
  - intros cs Hget. split; [|by eapply get_put_here].
    apply (ensure_clean_directory_spec _ _ _ cs Hget).
    pose proof (height_get _ _ _ Hget). lia.
  - intros fs' Hrun. unfold main in Hrun.
    apply bindM_ok in Hrun as (fs1 & [] & Hclean & Hexport).
    apply ensure_clean_directory_result in Hclean.
    apply (export_templates_only _ _ _ _ _ _ _ _ Hexport).
    intros q Hq Hex. rewrite get_app, Hclean in Hex.
    destruct q; [done|]. simpl in Hex. by destruct Hex.
Qed.

Lemma export_clears_output_directory_witness :
  FS.get (put export_dir (FS.Dir []) stale_tree) export_dir = Some (FS.Dir [])
  /\ (forall q, q <> [] ->
        is_Some (FS.get
                   (main as_is catalog_stub (Some one_template) export_dir 1
                      "now" stale_tree).1 (export_dir ++ q)) ->
        q ∈ exported_paths one_template).
Proof.
  destruct (export_clears_output_directory as_is catalog_stub one_template
              export_dir 1 "now" stale_tree) as [Hclear Honly].
  split.
  - eapply Hclear. vm_compute. reflexivity.
  - apply Honly. vm_compute. reflexivity.
Defined.

End ExportClaims.


(** * Further properties of the scripts *)

(** ** The stable sort *)

Section SortFacts.
Context {A : Type}.

Lemma insert_sorted_Sorted_gen (lt : A -> A -> bool) (R : relation A) x l :
  (forall a b, lt a b = true -> R a b) ->
  (forall a b, lt a b = false -> R b a) ->
  Sorted R l -> Sorted R (insert_sorted lt x l).
Proof.
  intros Hlt Hge. induction 1 as [|y l Hl IH Hhd]; simpl.
  - by repeat constructor.
  - destruct (lt y x) eqn:E.
    + constructor; [done|].
      destruct l as [|z l]; simpl.
      * constructor. by apply Hlt.
      * destruct (lt z x); constructor; [by inversion Hhd|by apply Hlt].
    + constructor; [by constructor|]. constructor. by apply Hge.
Qed.

Lemma sorted_Sorted_gen (lt : A -> A -> bool) (R : relation A) l :
  (forall a b, lt a b = true -> R a b) ->
  (forall a b, lt a b = false -> R b a) ->
  Sorted R (sorted lt l).
Proof.
  intros Hlt Hge. induction l as [|x l IH]; simpl; [constructor|].
  by apply insert_sorted_Sorted_gen.
Qed.

(** Sorting by key is stable: the elements with one key keep their
    order. *)
Lemma insert_sorted_key_filter (k : Z) (x : Z * A) l :
  filter (fun y : Z * A => y.1 = k) (insert_sorted key_lt x l)
  = filter (fun y : Z * A => y.1 = k) (x :: l).
Proof.
  induction l as [|y l IH]; simpl; [done|].
  unfold key_lt at 1. destruct (Z.ltb_spec y.1 x.1) as [Hlt|Hge]; [|done].
  rewrite (filter_cons _ y), IH, !filter_cons.
  destruct (decide (y.1 = k)) as [Hy|Hy]; [|done].
  destruct (decide (x.1 = k)) as [Hx|Hx]; [lia|done].
Qed.

Lemma sorted_key_filter (k : Z) (l : list (Z * A)) :
  filter (fun y : Z * A => y.1 = k) (sorted key_lt l)
  = filter (fun y : Z * A => y.1 = k) l.
Proof.
  induction l as [|x l IH]; simpl; [done|].
  by rewrite insert_sorted_key_filter, !filter_cons, IH.
Qed.

Lemma filter_two_positions (P : A -> Prop) `{!forall x, Decision (P x)}
    (l : list A) a b r :
  filter P l = a :: b :: r ->
  exists i j, (i < j)%nat /\ l !! i = Some a /\ l !! j = Some b.
Proof.
  induction l as [|x l IH]; [done|]. rewrite filter_cons.
  destruct (decide (P x)) as [Hx|Hx].
  - intros [= -> Hrest].
    assert (Hb : b ∈ filter P l) by (rewrite Hrest; left).
    apply list_elem_of_filter in Hb as [_ Hb].
    apply list_elem_of_lookup in Hb as [j Hj].
    exists 0%nat, (S j). split; [lia|]. by split.
  - intros Hf. destruct (IH Hf) as (i & j & Hij & Hi & Hj).
    exists (S i), (S j). split; [lia|]. by split.
Qed.

(** The first element a filter lets through is the first of the list
    that passes it. *)
Lemma filter_first (P : A -> Prop) `{!forall x, Decision (P x)}
    (l : list A) a rest :
  filter P l = a :: rest ->
  exists i,
    l !! i = Some a
    /\ (forall k x, l !! k = Some x -> P x -> (i <= k)%nat)
    /\ filter P (drop (S i) l) = rest.
Proof.
  induction l as [|x l IH]; [done|]. rewrite filter_cons.
  destruct (decide (P x)) as [Hx|Hx].
  - intros [= -> Hrest]. exists 0%nat. split; [done|]. split; [|done].
    intros k y _ _. lia.
  - intros Hf. destruct (IH Hf) as (i & Hi & Hfirst & Hdrop).
    exists (S i). split; [done|]. split; [|done].
    intros [|k] y Hk Hy.
    + injection Hk as ->. done.
    + specialize (Hfirst k y Hk Hy). lia.
Qed.

Lemma delete_delete_lt (l : list A) i j :
  (i < j)%nat -> delete (j - 1)%nat (delete i l) = delete i (delete j l).
Proof.
  revert i j. induction l as [|x l IH]; intros i j Hij; [done|].
  destruct j as [|j]; [lia|]. destruct i as [|i]; simpl.
  - by rewrite Nat.sub_0_r.
  - destruct j as [|j]; [lia|]. simpl. f_equal.
    rewrite <- (IH i (S j)) by lia. simpl. by rewrite Nat.sub_0_r.
Qed.

Lemma with_keys_inv (key : A -> result Z) l kl :
  Py.with_keys key l = Ok kl ->
  kl.*2 = l /\ Forall (fun p => key p.2 = Ok p.1) kl.
Proof.
  revert kl. induction l as [|x l IH]; intros kl; simpl.
  - intros [= <-]. by split.
  - destruct (key x) as [k| |] eqn:Hk; [|done|done]. simpl.
    destruct (Py.with_keys key l) as [r| |]; [|done|done]. simpl.
    intros [= <-]. destruct (IH r eq_refl) as [E HF].
    split; [by rewrite fmap_cons, E|by constructor].
Qed.

Lemma list_remove_inv `{EqDecision A} (x : A) l l' :
  Py.list_remove x l = Ok l' ->
  exists l1 l2, l = l1 ++ x :: l2 /\ l' = l1 ++ l2 /\ x ∉ l1.
Proof.
  revert l'. induction l as [|y l IH]; intros l'; simpl; [done|].
  destruct (decide (y = x)) as [->|Hne].
  - intros [= <-]. exists [], l. split; [done|]. split; [done|].
    apply not_elem_of_nil.
  - destruct (Py.list_remove x l) as [r| |]; [|done|done]. simpl.
    intros [= <-]. destruct (IH r eq_refl) as (l1 & l2 & -> & -> & Hnot).
    exists (y :: l1), l2. split; [done|]. split; [done|].
    rewrite not_elem_of_cons. by split.
Qed.

End SortFacts.

(** ** More on the group balancer *)

Section BalancerMore.
Import Flatten Examples.

Lemma sum_locs_shift (locs : gmap string Z) g acc t :
  sum_locs locs g acc = Ok t ->
  forall acc', sum_locs locs g acc' = Ok (t + (acc' - acc)).
Proof.
  revert acc t. induction g as [|d g IH]; intros acc t; simpl.
  - intros [= <-] acc'. f_equal. lia.
  - destruct (locs !! d) as [v|]; [|done]. intros H acc'.
    rewrite (IH _ _ H (acc' + v)). f_equal. lia.
Qed.

Lemma sum_locs_app (locs : gmap string Z) g1 g2 t1 t2 :
  sum_locs locs g1 0 = Ok t1 -> sum_locs locs g2 0 = Ok t2 ->
  sum_locs locs (g1 ++ g2) 0 = Ok (t1 + t2).
Proof.
  generalize 0 at 1 3 as acc. revert t1.
  induction g1 as [|d g1 IH]; intros t1 acc; simpl.
  - intros [= <-] H2. rewrite (sum_locs_shift _ _ _ _ H2 acc). f_equal. lia.
  - destruct (locs !! d) as [v|]; [|done]. apply IH.
Qed.

Lemma sum_locs_present_eq (locs : gmap string Z) g acc t :
  sum_locs locs g acc = Ok t -> sum_locs_present locs g acc = t.
Proof.
  revert acc. induction g as [|d g IH]; intros acc; simpl.
  - by intros [= <-].
  - destruct (locs !! d) as [v|]; [apply IH|done].
Qed.

(** The shape of one pass: the first two groups of the sorted list leave
    their places and their concatenation is appended. *)
Lemma merge_step_shape (locs : gmap string Z) groups locs' groups' :
  merge_step locs groups = Ok (locs', groups') ->
  exists kl k1 g1 k2 g2 srest rest,
    with_keys (fun g => sum_locs locs g 0) groups = Ok kl
    /\ sorted key_lt kl = (k1, g1) :: (k2, g2) :: srest
    /\ groups ≡ₚ g1 :: g2 :: rest
    /\ rest `sublist_of` groups
    /\ groups' = rest ++ [g1 ++ g2]
    /\ locs' = <[join "+" (g1 ++ g2)
                 := sum_locs_present locs (g1 ++ g2) 0]> locs.
Proof.
  unfold merge_step, sorted_key.
  destruct (with_keys _ groups) as [kl| |] eqn:Hkl; [|done|done].
  cbn [bind]. destruct (sorted key_lt kl) as [|[k1 g1] [|[k2 g2] srest]] eqn:Hs;
    [done|done|].
  cbn [bind index fmap list_fmap lookup list_lookup fst snd].
  destruct (list_remove g1 groups) as [groups1| |] eqn:H1; [|done|done].
  cbn [bind].
  destruct (list_remove g2 groups1) as [groups2| |] eqn:H2; [|done|done].
  cbn [bind]. intros [= <- <-].
  apply list_remove_inv in H1 as (a1 & a2 & -> & -> & _).
  apply list_remove_inv in H2 as (b1 & b2 & E & -> & _).
  exists kl, k1, g1, k2, g2, srest, (b1 ++ b2).
  split; [done|]. split; [done|]. split; [|split; [|done]].
  - rewrite <- Permutation_middle. f_equiv. rewrite E.
    by rewrite <- Permutation_middle.
  - trans (a1 ++ a2).
    + rewrite E. apply sublist_app; [done|]. by apply sublist_cons.
    + apply sublist_app; [done|]. by apply sublist_cons.
Qed.

(** The same pass, with the places the two groups are removed from. *)
Lemma merge_step_removals (locs : gmap string Z) groups locs' groups' :
  merge_step locs groups = Ok (locs', groups') ->
  exists kl k1 g1 k2 g2 srest a1 a2 b1 b2,
    with_keys (fun g => sum_locs locs g 0) groups = Ok kl
    /\ sorted key_lt kl = (k1, g1) :: (k2, g2) :: srest
    /\ groups = a1 ++ g1 :: a2 /\ (g1 ∉ a1)
    /\ a1 ++ a2 = b1 ++ g2 :: b2 /\ (g2 ∉ b1)
    /\ groups' = (b1 ++ b2) ++ [g1 ++ g2].
Proof.
  unfold merge_step, sorted_key.
  destruct (with_keys _ groups) as [kl| |] eqn:Hkl; [|done|done].
  cbn [bind]. destruct (sorted key_lt kl) as [|[k1 g1] [|[k2 g2] srest]] eqn:Hs;
    [done|done|].
  cbn [bind index fmap list_fmap lookup list_lookup fst snd].
  destruct (list_remove g1 groups) as [groups1| |] eqn:H1; [|done|done].
  cbn [bind].
  destruct (list_remove g2 groups1) as [groups2| |] eqn:H2; [|done|done].
  cbn [bind]. intros [= <- <-].
  apply list_remove_inv in H1 as (a1 & a2 & -> & -> & Hn1).
  apply list_remove_inv in H2 as (b1 & b2 & E & -> & Hn2).
  by exists kl, k1, g1, k2, g2, srest, a1, a2, b1, b2.
Qed.

(** The first two of a list sorted by key, in the list as it was: the
    first stands where its key first occurs, the second where its key
    first occurs at another place. *)
Lemma sorted_first_two {A : Type} (kl : list (Z * A)) x1 x2 srest :
  sorted key_lt kl = x1 :: x2 :: srest ->
  exists i j,
    i <> j /\ kl !! i = Some x1 /\ kl !! j = Some x2
    /\ (forall k x, kl !! k = Some x -> fst x = fst x1 -> (i <= k)%nat)
    /\ (forall k x, k <> i -> kl !! k = Some x -> fst x = fst x2 ->
          (j <= k)%nat).
Proof.
  intros Hs.
  pose proof (sorted_key_filter x1.1 kl) as Hst1. rewrite Hs in Hst1.
  rewrite filter_cons in Hst1. rewrite decide_True in Hst1 by done.
  symmetry in Hst1.
  apply filter_first in Hst1 as (i & Hi & Hfi & Hdrop).
  destruct (decide (x2.1 = x1.1)) as [Heq|Hne].
  - rewrite filter_cons in Hdrop. rewrite decide_True in Hdrop by done.
    apply filter_first in Hdrop as (j' & Hj' & Hfj' & _).
    rewrite lookup_drop in Hj'.
    exists i, (S i + j')%nat. split; [lia|]. split; [done|]. split; [done|].
    split; [done|]. intros k x Hki Hk Hx. rewrite Heq in Hx.
    pose proof (Hfi k x Hk Hx).
    assert (Hk' : drop (S i) kl !! (k - S i)%nat = Some x).
    { rewrite lookup_drop. by replace (S i + (k - S i))%nat with k by lia. }
    pose proof (Hfj' _ _ Hk' Hx). lia.
  - pose proof (sorted_key_filter x2.1 kl) as Hst2. rewrite Hs in Hst2.
    rewrite filter_cons in Hst2.
    rewrite decide_False in Hst2 by (intros E; by rewrite E in Hne).
    rewrite filter_cons in Hst2. rewrite decide_True in Hst2 by done.
    symmetry in Hst2.
    apply filter_first in Hst2 as (j & Hj & Hfj & _).
    exists i, j. split; [|split; [done|split; [done|split; [done|]]]].
    + intros ->. rewrite Hi in Hj. injection Hj as ->. done.
    + intros k x _ Hk Hx. by apply (Hfj k x).
Qed.

Lemma merge_step_nonempty (locs : gmap string Z) groups locs' groups' :
  merge_step locs groups = Ok (locs', groups') ->
  Forall (fun g => g <> []) groups -> Forall (fun g => g <> []) groups'.
Proof.
  intros (kl & k1 & g1 & k2 & g2 & srest & rest & _ & _ & Hp & Hsub & -> & _)
    %merge_step_shape Hne.
  rewrite Forall_forall in Hne. apply Forall_app. split.
  - apply Forall_forall. intros g Hg. apply Hne.
    by eapply elem_of_sublist.
  - constructor; [|constructor].
    assert (Hg1 : g1 ∈ groups) by (rewrite Hp; left).
    specialize (Hne _ Hg1). by destruct g1.
Qed.

Lemma merge_loop_nonempty fuel (locs : gmap string Z) groups max_files r :
  merge_loop fuel locs groups max_files = Ok r ->
  Forall (fun g => g <> []) groups -> Forall (fun g => g <> []) r.
Proof.
  revert locs groups. induction fuel as [|fuel IH]; intros locs groups;
    cbn [merge_loop]; destruct (Z.gtb _ _); try done;
    try (by intros [= <-]).
  destruct (merge_step locs groups) as [[locs' groups']| |] eqn:Hs;
    [|done|done].
  cbn [bind fst snd]. intros Hr Hne. apply (IH _ _ Hr).
  by eapply merge_step_nonempty.
Qed.

End BalancerMore.

Section BalancerExtras.
Import Flatten Examples.

Lemma merge_loop_low_target fuel (locs : gmap string Z) groups max_files :
  (forall d, d ∈ concat groups -> is_Some (locs !! d)) ->
  (length groups < fuel)%nat ->
  max_files <= 0 -> max_files < Z.of_nat (length groups) ->
  merge_loop fuel locs groups max_files = Raise IndexError.
Proof.
  revert locs groups.
  induction fuel as [|fuel IH]; intros locs groups Hcov Hfuel Hmax Hlt;
    cbn [merge_loop]; [lia|].
  destruct (Z.gtb_spec (Z.of_nat (length groups)) max_files); [|lia].
  destruct (decide (2 <= length groups)%nat) as [Hlen|Hlen].
  - destruct (merge_step_spec locs groups Hcov Hlen)
      as (locs' & groups' & -> & Hp & Hl & Hmono).
    cbn [bind fst snd]. apply IH; [|lia|done|lia].
    intros d Hd. apply Hmono, Hcov. by rewrite <- Hp.
  - unfold merge_step.
    destruct (sorted_key_ok (fun g => sum_locs locs g 0) groups)
      as (sl & -> & Hsl).
    { intros g Hg. apply sum_locs_ok. intros d Hd. apply Hcov.
      apply elem_of_concat. eauto. }
    assert (Hl : length sl = length groups) by by rewrite Hsl.
    destruct sl as [|g1 [|g2 rest]]; simpl in Hl; [done|done|lia].
Qed.

(** X1.  One pass of the balancer takes the two groups with the least
    totals out of the list and appends their concatenation, the group with
    the lesser total first; the other groups keep their order.  Ties go to
    the group that comes first: the first group taken stands where its
    total first occurs in the list, the second where its total first occurs
    at another place, and the groups left are those at the other places.
    The count recorded for the new group is the sum of the two totals. *)
Theorem merge_step_takes_two_smallest
    (locs : gmap string Z) groups locs' groups' :
  merge_step locs groups = Ok (locs', groups') ->
  exists g1 g2 t1 t2 rest,
    groups ≡ₚ g1 :: g2 :: rest
    /\ rest `sublist_of` groups
    /\ groups' = rest ++ [g1 ++ g2]
    /\ sum_locs locs g1 0 = Ok t1
    /\ sum_locs locs g2 0 = Ok t2
    /\ t1 <= t2
    /\ (forall g t, g ∈ rest -> sum_locs locs g 0 = Ok t -> t2 <= t)
    /\ (t1 = t2 ->
        exists i j, (i < j)%nat
          /\ groups !! i = Some g1 /\ groups !! j = Some g2)
    /\ locs' = <[join "+" (g1 ++ g2) := t1 + t2]> locs
    /\ (exists i j,
          i <> j /\ groups !! i = Some g1 /\ groups !! j = Some g2
          /\ (forall k g, groups !! k = Some g ->
                sum_locs locs g 0 = Ok t1 -> (i <= k)%nat)
          /\ (forall k g, k <> i -> groups !! k = Some g ->
                sum_locs locs g 0 = Ok t2 -> (j <= k)%nat)
          /\ rest = delete (Nat.min i j) (delete (Nat.max i j) groups)).
Proof.
  intros Hstep.
  pose proof Hstep as (kl & k1 & g1 & k2 & g2 & srest & rest
          & Hkl & Hs & Hp & Hsub & -> & ->)%merge_step_shape.
  apply with_keys_inv in Hkl as [Hsnd Hkeys].
  assert (Hsorted : StronglySorted (fun a b : Z * list string => a.1 <= b.1)
                      ((k1, g1) :: (k2, g2) :: srest)).
  { rewrite <- Hs. apply Sorted_StronglySorted.
    - intros a b c. lia.
    - apply sorted_Sorted_gen; intros a b; unfold key_lt;
        destruct (Z.ltb_spec a.1 b.1); intros; simpl; lia || done. }
  assert (Hperm : (k1, g1) :: (k2, g2) :: srest ≡ₚ kl)
    by (rewrite <- Hs; apply sorted_perm).
  rewrite Forall_forall in Hkeys.
  assert (H1 : sum_locs locs g1 0 = Ok k1).
  { apply (Hkeys (k1, g1)). rewrite <- Hperm. left. }
  assert (H2 : sum_locs locs g2 0 = Ok k2).
  { apply (Hkeys (k2, g2)). rewrite <- Hperm. right. left. }
  exists g1, g2, k1, k2, rest.
  split; [done|]. split; [done|]. split; [done|].
  split; [done|]. split; [done|].
  apply StronglySorted_inv in Hsorted as [Hsorted Hhd1].
  apply StronglySorted_inv in Hsorted as [_ Hhd2].
  split. { apply Forall_cons in Hhd1 as [Hle _]. simpl in Hle. lia. }
  split.
  { intros g t Hg Ht.
    assert (Hrest : srest.*2 ≡ₚ rest).
    { apply (Permutation_cons_inv (a := g2)).
      apply (Permutation_cons_inv (a := g1)).
      rewrite <- Hp, <- Hsnd, <- Hperm. done. }
    rewrite <- Hrest in Hg.
    apply list_elem_of_fmap in Hg as ([k g'] & -> & Hin). simpl in Ht.
    rewrite Forall_forall in Hhd2. specialize (Hhd2 _ Hin). simpl in Hhd2.
    assert (Hk : sum_locs locs g' 0 = Ok k).
    { apply (Hkeys (k, g')). rewrite <- Hperm. right. by right. }
    congruence. }
  split.
  { intros ->.
    pose proof (sorted_key_filter k2 kl) as Hst. rewrite Hs in Hst.
    rewrite !filter_cons in Hst. simpl in Hst.
    rewrite !decide_True in Hst by done. symmetry in Hst.
    apply filter_two_positions in Hst as (i & j & Hij & Hi & Hj).
    exists i, j. split; [done|]. rewrite <- Hsnd, !list_lookup_fmap.
    by rewrite Hi, Hj. }
  split. { f_equal. apply sum_locs_present_eq. by apply sum_locs_app. }
  (* the places *)
  destruct (sorted_first_two kl (k1, g1) (k2, g2) srest Hs)
    as (i & j & Hij & Hi & Hj & Hfi & Hfj).
  assert (Hlook : forall k g, groups !! k = Some g ->
            exists t, kl !! k = Some (t, g) /\ sum_locs locs g 0 = Ok t).
  { intros k g Hk. rewrite <- Hsnd, list_lookup_fmap in Hk.
    destruct (kl !! k) as [[t g']|] eqn:E; [|done]. injection Hk as ->.
    exists t. split; [done|]. apply (Hkeys (t, g)).
    by eapply list_elem_of_lookup_2. }
  assert (Hgi : groups !! i = Some g1)
    by (by rewrite <- Hsnd, list_lookup_fmap, Hi).
  assert (Hgj : groups !! j = Some g2)
    by (by rewrite <- Hsnd, list_lookup_fmap, Hj).
  assert (Hfirst1 : forall k g, groups !! k = Some g ->
            sum_locs locs g 0 = Ok k1 -> (i <= k)%nat).
  { intros k g Hk Hg. destruct (Hlook k g Hk) as (t & Hkl & Ht).
    apply (Hfi k (t, g) Hkl). simpl. congruence. }
  assert (Hfirst2 : forall k g, k <> i -> groups !! k = Some g ->
            sum_locs locs g 0 = Ok k2 -> (j <= k)%nat).
  { intros k g Hki Hk Hg. destruct (Hlook k g Hk) as (t & Hkl & Ht).
    apply (Hfj k (t, g) Hki Hkl). simpl. congruence. }
  exists i, j. split; [done|]. split; [done|]. split; [done|].
  split; [done|]. split; [done|].
  clear Hp Hsub.
  apply merge_step_removals in Hstep
    as (kl' & k1' & g1' & k2' & g2' & srest' & a1 & a2 & b1 & b2
        & Hkl' & Hs' & Ea & Hn1 & Eb & Hn2 & Eg).
  assert (kl' = kl) as ->.
  { assert (Hkl2 : with_keys (fun g => sum_locs locs g 0) groups = Ok kl').
    { done. }
    clear -Hkl2 Hsnd Hkeys.
    revert kl Hsnd Hkeys. revert kl' Hkl2.
    induction groups as [|g groups IH]; intros kl' Hkl2 kl Hsnd Hkeys.
    - simpl in Hkl2. injection Hkl2 as <-. by destruct kl.
    - destruct kl as [|[t g0] kl]; [done|].
      rewrite fmap_cons in Hsnd. injection Hsnd as -> Hsnd.
      simpl in Hkl2.
      assert (Ht : sum_locs locs g 0 = Ok t) by (apply (Hkeys (t, g)); left).
      rewrite Ht in Hkl2. simpl in Hkl2.
      destruct (with_keys _ groups) as [r| |] eqn:Er; [|done|done].
      simpl in Hkl2. injection Hkl2 as <-. f_equal.
      apply (IH r eq_refl kl Hsnd). intros x Hx. apply Hkeys. by right. }
  rewrite Hs in Hs'. injection Hs' as <- <- <- <- <-.
  apply app_inj_tail in Eg as [-> _].
  assert (Ei : length a1 = i).
  { assert (Hmid : groups !! length a1 = Some g1)
      by (rewrite Ea; apply list_lookup_middle; done).
    pose proof (Hfirst1 _ _ Hmid H1).
    destruct (decide (i < length a1)%nat) as [Hlt|]; [|lia].
    destruct Hn1. rewrite Ea, lookup_app_l in Hgi by done.
    by eapply list_elem_of_lookup_2. }
  assert (Ed : a1 ++ a2 = delete i groups)
    by (by rewrite Ea, <- Ei, delete_middle).
  set (j' := if decide (j < i)%nat then j else (j - 1)%nat).
  assert (Hj' : (a1 ++ a2) !! j' = Some g2).
  { rewrite Ed, list_lookup_delete. unfold j'.
    destruct (decide (j < i)%nat).
    - by rewrite decide_True by done.
    - rewrite decide_False by lia.
      by replace (S (j - 1)) with j by lia. }
  assert (Ep : length b1 = j').
  { assert (Hmid : (a1 ++ a2) !! length b1 = Some g2)
      by (rewrite Eb; apply list_lookup_middle; done).
    assert (Hle : (length b1 <= j')%nat).
    { destruct (decide (j' < length b1)%nat) as [Hlt|]; [|lia].
      destruct Hn2. rewrite Eb, lookup_app_l in Hj' by done.
      by eapply list_elem_of_lookup_2. }
    rewrite Ed, list_lookup_delete in Hmid.
    destruct (decide (length b1 < i)%nat) as [Hlt|Hge].
    - assert (Hk : length b1 <> i) by lia.
      pose proof (Hfirst2 (length b1) g2 Hk Hmid H2). unfold j' in *.
      destruct (decide (j < i)%nat); lia.
    - assert (Hk : S (length b1) <> i) by lia.
      pose proof (Hfirst2 (S (length b1)) g2 Hk Hmid H2). unfold j' in *.
      destruct (decide (j < i)%nat); lia. }
  assert (Er : b1 ++ b2 = delete j' (delete i groups))
    by (by rewrite <- Ed, Eb, <- Ep, delete_middle).
  rewrite Er. unfold j'. destruct (decide (j < i)%nat) as [Hlt|Hge].
  - by rewrite Nat.min_r, Nat.max_l by lia.
  - rewrite Nat.min_l, Nat.max_r by lia. apply delete_delete_lt. lia.
Qed.

Lemma merge_step_takes_two_smallest_witness :
  exists g1 g2 t1 t2 rest,
    [["A"]; ["B"]; ["C"]; ["D"]] ≡ₚ g1 :: g2 :: rest
    /\ rest `sublist_of` [["A"]; ["B"]; ["C"]; ["D"]]
    /\ [["A"]; ["B"]; ["D"; "C"]] = rest ++ [g1 ++ g2]
    /\ sum_locs (list_to_map example_counts) g1 0 = Ok t1
    /\ sum_locs (list_to_map example_counts) g2 0 = Ok t2
    /\ t1 <= t2
    /\ (forall g t, g ∈ rest ->
          sum_locs (list_to_map example_counts) g 0 = Ok t -> t2 <= t)
    /\ (t1 = t2 ->
        exists i j, (i < j)%nat
          /\ [["A"]; ["B"]; ["C"]; ["D"]] !! i = Some g1
          /\ [["A"]; ["B"]; ["C"]; ["D"]] !! j = Some g2)
    /\ <["D+C" := 6]> (list_to_map example_counts)
       = <[join "+" (g1 ++ g2) := t1 + t2]>
           (list_to_map example_counts : gmap string Z)
    /\ (exists i j,
          i <> j
          /\ [["A"]; ["B"]; ["C"]; ["D"]] !! i = Some g1
          /\ [["A"]; ["B"]; ["C"]; ["D"]] !! j = Some g2
          /\ (forall k g, [["A"]; ["B"]; ["C"]; ["D"]] !! k = Some g ->
                sum_locs (list_to_map example_counts) g 0 = Ok t1 ->
                (i <= k)%nat)
          /\ (forall k g, k <> i ->
                [["A"]; ["B"]; ["C"]; ["D"]] !! k = Some g ->
                sum_locs (list_to_map example_counts) g 0 = Ok t2 ->
                (j <= k)%nat)
          /\ rest = delete (Nat.min i j)
                      (delete (Nat.max i j) [["A"]; ["B"]; ["C"]; ["D"]])).
Proof.
  apply (merge_step_takes_two_smallest (list_to_map example_counts)
           [["A"]; ["B"]; ["C"]; ["D"]]
           (<["D+C" := 6]> (list_to_map example_counts))
           [["A"]; ["B"]; ["D"; "C"]]).
  vm_compute. reflexivity.
Defined.

(** X2.  The balancer at its bounds: with no more keys than the target it
    returns one group per key, in the order of the keys; with a target of
    zero or less that is below the number of keys it ends in [IndexError],
    once fewer than two groups are left to merge. *)
Theorem merge_smallest_dirs_bounds (dir_locs : list (string * Z)) max_files :
  (Z.of_nat (length dir_locs) <= max_files ->
   merge_smallest_dirs dir_locs max_files
   = Ok (map (fun d => [d]) dir_locs.*1))
  /\ (max_files <= 0 -> max_files < Z.of_nat (length dir_locs) ->
      merge_smallest_dirs dir_locs max_files = Raise IndexError).
Proof.
  split.
  - intros Hle. unfold merge_smallest_dirs. cbn [merge_loop].
    rewrite length_map, length_fmap.
    by destruct (Z.gtb_spec (Z.of_nat (length dir_locs)) max_files); [lia|].
  - intros Hmax Hlt. unfold merge_smallest_dirs.
    apply merge_loop_low_target; [|lia|done|by rewrite length_map, length_fmap].
    intros d Hd. rewrite concat_singletons in Hd.
    destruct (list_to_map dir_locs !! d) as [v|] eqn:E; [by eexists|].
    by apply not_elem_of_list_to_map in E.
Qed.

Lemma merge_smallest_dirs_bounds_witness :
  merge_smallest_dirs example_counts 4
    = Ok (map (fun d => [d]) example_counts.*1)
  /\ merge_smallest_dirs example_counts 0 = Raise IndexError.
Proof.
  split.
  - apply (proj1 (merge_smallest_dirs_bounds example_counts 4)).
    simpl. lia.
  - apply (proj2 (merge_smallest_dirs_bounds example_counts 0));
      simpl; lia.
Defined.

End BalancerExtras.

(** ** More on the archive writer *)

Section WriterMore.
Import Flatten Layout.

#[local] Arguments header_of : simpl never.
#[local] Arguments count_nl : simpl never.

Lemma StronglySorted_lookup {A : Type} (R : relation A) l i j x y :
  StronglySorted R l -> (i < j)%nat ->
  l !! i = Some x -> l !! j = Some y -> R x y.
Proof.
  intros Hs. revert i j. induction Hs as [|a l Hs IH Hall]; intros i j Hij Hi Hj.
  - by rewrite lookup_nil in Hi.
  - destruct j as [|j]; [lia|]. simpl in Hj. destruct i as [|i]; simpl in Hi.
    + injection Hi as ->. rewrite Forall_forall in Hall. apply Hall.
      by eapply list_elem_of_lookup_2.
    + apply (IH i j); [lia|done|done].
Qed.

(** The entries follow the sorted files one by one. *)
Lemma combine_swift_files_entries scan_order root subdirs lbl w label entries :
  (combine_swift_files scan_order root subdirs lbl w).2
    = Ok (Some (label, entries)) ->
  label = label_or lbl (out_name subdirs)
  /\ Forall2 (fun f e => rel_path e = f.1 /\ filename e = FS.name f.1)
       (sorted path_lt
          (concat (map (gather_swift_files scan_order root) subdirs)))
       entries.
Proof.
  unfold combine_swift_files.
  destruct (concat (map (gather_swift_files scan_order root) subdirs))
    as [|f0 fs] eqn:Hall; [done|].
  destruct (combine_loop (sorted path_lt (f0 :: fs)) 1 "" []) as [T r] eqn:Hrun.
  cbn [fst snd]. destruct r as [ix| |]; [|done|done].
  intros [= <- <-]. split; [done|].
  apply combine_loop_spec in Hrun
    as (new & texts & -> & _ & _ & Hnm & _). by rewrite app_nil_l.
Qed.

Lemma header_of_lines (rel : FS.path) :
  count_nl (header_of rel) = 6 + count_nl (FS.to_str rel).
Proof.
  unfold header_of. rewrite !count_nl_app.
  change (count_nl DIVIDER) with 2. change (count_nl "// FILE: ") with 0.
  rewrite count_nl_nl. lia.
Qed.

Lemma count_nl_blocks entries texts :
  length texts = length entries ->
  (forall i e t, entries !! i = Some e -> texts !! i = Some t ->
     loc e = count_nl t + 1) ->
  count_nl (concat_str (archive_blocks entries texts)) = block_lines entries.
Proof.
  revert texts. induction entries as [|e entries IH]; intros [|t texts] Hlen Hloc;
    simpl in Hlen; try lia; [done|].
  change (archive_blocks (e :: entries) (t :: texts))
    with (block e t :: archive_blocks entries texts).
  cbn [concat_str foldr block_lines].
  rewrite count_nl_app, count_nl_block.
  fold (concat_str (archive_blocks entries texts)). fold (block_lines entries).
  rewrite IH; [|lia|].
  - rewrite (Hloc 0%nat e t eq_refl eq_refl). lia.
  - intros i e' t' He Ht. by apply (Hloc (S i)).
Qed.

Lemma iter_lines_open (s : string) (pending : bool) :
  iter_lines s pending
  = count_nl s + (if open_after s pending then 1 else 0).
Proof.
  revert pending. induction s as [|c s IH]; intros pending.
  - simpl. change (count_nl "") with 0. by destruct pending.
  - cbn [iter_lines open_after].
    change (count_nl (String c s))
      with ((if Ascii.eqb c nl_char then 1 else 0) + count_nl s).
    destruct (Ascii.eqb c nl_char); rewrite IH; simpl; lia.
Qed.

(** The loop up to a file that cannot be read: the blocks of the files
    before it and its header are written, then the read raises. *)
Lemma combine_loop_stops pre texts f post line_counter written acc :
  Forall2 (fun p t => FS.read_text p.2 = Ok t) pre texts ->
  unreadable f ->
  combine_loop (pre ++ f :: post) line_counter written acc
  = (written +:+ concat_str (zip_with text_block pre texts)
       +:+ header_of f.1,
     Raise OSError).
Proof.
  intros Hpre Hbad. revert line_counter written acc.
  induction Hpre as [|p t pre texts Hp Hpre IH]; intros lc wr acc.
  - cbn [app combine_loop zip_with concat_str foldr].
    destruct (read_text_cases f.2) as [[t Ht]|Ht].
    + destruct Hbad as [e He]. congruence.
    + rewrite Ht. done.
  - cbn [app combine_loop]. rewrite Hp. rewrite IH.
    f_equal. cbn [zip_with concat_str foldr]. unfold text_block at 2.
    by rewrite !append_assoc.
Qed.

End WriterMore.

Section WriterExtras.
Import Flatten Layout Examples.

#[local] Arguments header_of : simpl never.
#[local] Arguments count_nl : simpl never.

(** X3.  The entries the archive writer returns are those of the eligible
    files of the group, one for each, in ascending order of their paths;
    the file name of an entry is the last component of its path, and the
    label returned is the name of the archive without its extension. *)
Theorem entries_are_eligible_files_in_path_order
    scan_order root subdirs lbl w label entries :
  (combine_swift_files scan_order root subdirs lbl w).2
    = Ok (Some (label, entries)) ->
  label = label_or lbl (out_name subdirs)
  /\ map rel_path entries
     ≡ₚ (concat (map (gather_swift_files scan_order root) subdirs)).*1
  /\ (forall e, e ∈ entries -> filename e = FS.name (rel_path e))
  /\ (forall i j ei ej, (i < j)%nat ->
        entries !! i = Some ei -> entries !! j = Some ej ->
        FS.ltb (rel_path ej) (rel_path ei) = false).
Proof.
  intros Hrun.
  destruct (combine_swift_files_entries _ _ _ _ _ _ _ Hrun) as [Hlabel Hfe].
  set (files := sorted path_lt
                  (concat (map (gather_swift_files scan_order root) subdirs)))
    in *.
  assert (Hpaths : map rel_path entries = files.*1).
  { clear -Hfe. induction Hfe as [|f e fs es [H1 _] _ IH]; simpl; [done|].
    by rewrite H1, IH. }
  split; [done|]. split; [|split].
  - rewrite Hpaths. unfold files. by rewrite sorted_perm.
  - intros e He. apply list_elem_of_lookup in He as [i Hi].
    destruct (Forall2_lookup_r _ _ _ _ _ Hfe Hi) as (f & _ & H1 & H2).
    by rewrite H1.
  - intros i j ei ej Hij Hi Hj.
    destruct (Forall2_lookup_r _ _ _ _ _ Hfe Hi) as (fi & Hfi & H1 & _).
    destruct (Forall2_lookup_r _ _ _ _ _ Hfe Hj) as (fj & Hfj & H2 & _).
    rewrite H1, H2.
    assert (Hss : StronglySorted not_after files).
    { apply (@Sorted_StronglySorted _ _ not_after_trans), sorted_Sorted. }
    exact (StronglySorted_lookup _ _ _ _ _ _ Hss Hij Hfi Hfj).
Qed.

Lemma entries_are_eligible_files_in_path_order_witness :
  "A" = label_or None (out_name [["A"]])
  /\ map rel_path two_files_entries
     ≡ₚ (concat (map (gather_swift_files same_order two_files) [["A"]])).*1
  /\ (forall e, e ∈ two_files_entries -> filename e = FS.name (rel_path e))
  /\ (forall i j ei ej, (i < j)%nat ->
        two_files_entries !! i = Some ei -> two_files_entries !! j = Some ej ->
        FS.ltb (rel_path ej) (rel_path ei) = false).
Proof.
  apply (entries_are_eligible_files_in_path_order
           same_order two_files [["A"]] None empty_world "A" two_files_entries).
  vm_compute. reflexivity.
Defined.

(** X4.  The number of newlines of a written archive is the sum, over its
    entries, of the lines of the header block and the recorded line count;
    a header block has six lines, plus the newlines that the path of the
    file may itself contain. *)
Theorem archive_lines_add_up scan_order root subdirs lbl w label entries :
  (combine_swift_files scan_order root subdirs lbl w).2
    = Ok (Some (label, entries)) ->
  (exists T,
     out_files (combine_swift_files scan_order root subdirs lbl w).1
       !! (out_name subdirs +:+ ".txt") = Some T
     /\ count_nl T = block_lines entries)
  /\ (forall e, header_lines e = 6 + count_nl (FS.to_str (rel_path e))).
Proof.
  intros Hrun. split; [|intros e; apply header_of_lines].
  destruct (combine_swift_files_spec _ _ _ _ _ _ _ Hrun)
    as (texts & Hlen & Hfile & _ & Hloc).
  eexists. split; [exact Hfile|]. by apply count_nl_blocks.
Qed.

Lemma archive_lines_add_up_witness :
  (exists T,
     out_files (combine_swift_files same_order two_files [["A"]] None
                  empty_world).1 !! (out_name [["A"]] +:+ ".txt") = Some T
     /\ count_nl T = block_lines two_files_entries)
  /\ (forall e, header_lines e = 6 + count_nl (FS.to_str (rel_path e))).
Proof.
  apply (archive_lines_add_up same_order two_files [["A"]] None empty_world
           "A" two_files_entries).
  vm_compute. reflexivity.
Defined.

(** X5.  For a file that can be read the archive writer records one line
    more than it has newlines, while the line counter counts the lines a
    reader iterates over: the two agree when the text ends with a line
    without newline, and the recorded count is one more otherwise (also for
    an empty file, recorded with one line and counted with none). *)
Theorem recorded_count_vs_balancing_count f t total line_counter written acc :
  FS.read_text f.2 = Ok t ->
  (combine_loop [f] line_counter written acc).2
    = Ok (acc ++ [Entry line_counter (FS.name f.1) (count_nl t + 1) f.1])
  /\ count_file total f
     = total + (count_nl t + 1) - (if unterminated t then 0 else 1).
Proof.
  intros Hr. split.
  - cbn [combine_loop]. by rewrite Hr.
  - unfold count_file. rewrite Hr, iter_lines_open. unfold unterminated.
    destruct (open_after t false); lia.
Qed.

Lemma recorded_count_vs_balancing_count_witness :
  (combine_loop [(["A"; "y.md"], FS.File (Some ("c" +:+ nl)))] 1 "" []).2
    = Ok ([] ++ [Entry 1 (FS.name ["A"; "y.md"])
                   (count_nl ("c" +:+ nl) + 1) ["A"; "y.md"]])
  /\ count_file 0 (["A"; "y.md"], FS.File (Some ("c" +:+ nl)))
     = 0 + (count_nl ("c" +:+ nl) + 1)
       - (if unterminated ("c" +:+ nl) then 0 else 1).
Proof.
  apply (recorded_count_vs_balancing_count
           (["A"; "y.md"], FS.File (Some ("c" +:+ nl))) ("c" +:+ nl) 0 1 "" []).
  reflexivity.
Defined.

(** X6.  When a file of a group cannot be read, the archive writer raises
    [OSError] and leaves a truncated archive behind: the blocks of the
    files that come before it in path order, then the header of the file
    that failed. *)
Theorem failed_read_leaves_truncated_archive
    scan_order root subdirs lbl w pre texts f post :
  sorted path_lt (concat (map (gather_swift_files scan_order root) subdirs))
    = pre ++ f :: post ->
  Forall2 (fun p t => FS.read_text p.2 = Ok t) pre texts ->
  unreadable f ->
  combine_swift_files scan_order root subdirs lbl w
  = (write_file (out_name subdirs +:+ ".txt")
       (concat_str (zip_with text_block pre texts) +:+ header_of f.1) w,
     Raise OSError).
Proof.
  intros Hsorted Hpre Hbad. unfold combine_swift_files.
  destruct (concat (map (gather_swift_files scan_order root) subdirs))
    as [|f0 fs] eqn:Hall.
  { simpl in Hsorted. by destruct pre. }
  rewrite Hsorted, (combine_loop_stops pre texts f post 1 "" [] Hpre Hbad).
  by rewrite append_nil_l.
Qed.

Lemma failed_read_leaves_truncated_archive_witness :
  combine_swift_files same_order vanished_second [["A"]] None empty_world
  = (write_file (out_name [["A"]] +:+ ".txt")
       (concat_str
          (zip_with text_block
             [(["A"; "a.swift"], FS.File (Some ("x" +:+ nl)))] ["x" +:+ nl])
        +:+ header_of (["A"; "b.swift"], FS.File None).1) empty_world,
     Raise OSError).
Proof.
  apply (failed_read_leaves_truncated_archive same_order vanished_second
           [["A"]] None empty_world
           [(["A"; "a.swift"], FS.File (Some ("x" +:+ nl)))] ["x" +:+ nl]
           (["A"; "b.swift"], FS.File None)
           [(["A"; "c.swift"], FS.File (Some "y"))]).
  - vm_compute. reflexivity.
  - repeat constructor.
  - exists OSError. reflexivity.
Defined.

End WriterExtras.

(** ** More on the discovery of files *)

Section DiscoveryMore.
Import Flatten Layout Examples.

Lemma descendants_below_bounded k n here x :
  (FS.height n <= k)%nat ->
  x ∈ FS.descendants n here -> exists q, q <> [] /\ x.1 = here ++ q.
Proof.
  revert n here. induction k as [|k IH]; intros n here Hk Hx.
  - destruct n as [t|cs]; [by apply elem_of_nil in Hx|simpl in Hk; lia].
  - destruct n as [t|cs]; [by apply elem_of_nil in Hx|].
    induction cs as [|[name c] cs IHcs]; [by apply elem_of_nil in Hx|].
    rewrite descendants_cons in Hx. simpl in Hk.
    apply elem_of_cons in Hx as [->|Hx].
    + by exists [name].
    + apply elem_of_app in Hx as [Hx|Hx].
      * assert (Hc : (FS.height c <= k)%nat) by lia.
        destruct (IH c (here ++ [name]) Hc Hx) as (q & _ & Hq).
        exists (name :: q). split; [done|]. by rewrite Hq, <- app_assoc.
      * apply IHcs; [simpl; lia|done].
Qed.

Lemma descendants_below n here x :
  x ∈ FS.descendants n here -> exists q, q <> [] /\ x.1 = here ++ q.
Proof. by apply (descendants_below_bounded (FS.height n)). Qed.

Lemma get_in_descendants m q n here :
  q <> [] -> FS.get m q = Some n -> (here ++ q, n) ∈ FS.descendants m here.
Proof.
  revert m here. induction q as [|c q IH]; intros m here Hq Hget; [done|].
  simpl in Hget. destruct m as [|cs]; [done|].
  destruct (FS.child c cs) as [m'|] eqn:Hc; [|done].
  apply child_elem in Hc. apply (descendants_child cs c m'); [done|].
  destruct q as [|c' q].
  - left. by injection Hget as ->.
  - right. replace (here ++ c :: c' :: q) with ((here ++ [c]) ++ c' :: q)
      by by rewrite <- app_assoc.
    by apply IH.
Qed.

(** X7.  The discoverer returns nothing but regular files that lie
    strictly below the directory, have one of the three suffixes and a name
    that does not start with the merge marker; and it returns every such
    file that a path below the directory leads to. *)
Theorem gather_swift_files_exact scan_order root d :
  lists_all scan_order ->
  (forall f, f ∈ gather_swift_files scan_order root d ->
     (exists q, q <> [] /\ f.1 = d ++ q)
     /\ FS.is_file f.2 = true
     /\ FS.suffix f.1 ∈ allowed_suffixes
     /\ startswith (FS.name f.1) "Merged_" = false)
  /\ (forall q n, q <> [] ->
        FS.get root (d ++ q) = Some n -> eligible (d ++ q, n) = true ->
        (d ++ q, n) ∈ gather_swift_files scan_order root d).
Proof.
  intros Hall. split.
  - intros f Hf. unfold gather_swift_files in Hf.
    apply list_elem_of_filter in Hf as [Hel Hf].
    unfold rglob in Hf. destruct (FS.get root d) as [n|];
      [|by apply elem_of_nil in Hf].
    rewrite (Hall _) in Hf. split; [by eapply descendants_below|].
    apply Is_true_true in Hel. unfold eligible, eligible_name in Hel.
    apply andb_true_iff in Hel as [Hel Hfile].
    apply andb_true_iff in Hel as [Hsuf Hpre].
    split; [done|]. split; [by apply bool_decide_eq_true in Hsuf|].
    by apply negb_true_iff in Hpre.
  - intros q n Hq Hget Hel. unfold gather_swift_files.
    apply list_elem_of_filter. split; [by apply Is_true_true|].
    unfold rglob. rewrite get_app in Hget.
    destruct (FS.get root d) as [nd|]; [|done].
    rewrite (Hall _). by apply get_in_descendants.
Qed.

Lemma gather_swift_files_exact_witness :
  (["A"] ++ ["x.swift"], FS.File (Some ("a" +:+ nl +:+ "b")))
    ∈ gather_swift_files same_order two_files ["A"].
Proof.
  apply (proj2 (gather_swift_files_exact same_order two_files ["A"]
                  (fun l => reflexivity l))
           ["x.swift"] (FS.File (Some ("a" +:+ nl +:+ "b")))).
  - discriminate.
  - reflexivity.
  - reflexivity.
Defined.

End DiscoveryMore.

(** ** More on the run as a whole *)

Section MainMore.
Import Flatten Layout.
Variable scan_order : list (FS.path * FS.node) -> list (FS.path * FS.node).
Hypothesis scan_all : lists_all scan_order.

Lemma filter_top_level_length cs :
  length (filter (fun d : FS.path * FS.node => FS.is_dir d.2)
            (map (fun c : string * FS.node => ([c.1], c.2)) cs))
  = length (filter (fun c : string * FS.node => FS.is_dir c.2) cs).
Proof.
  induction cs as [|c cs IH]; [done|].
  cbn [map]. rewrite !filter_cons. cbn [snd].
  destruct (decide (FS.is_dir c.2)); cbn [length]; by rewrite <- IH.
Qed.

Lemma subdirs_length cs :
  length (filter (fun d : FS.path * FS.node => FS.is_dir d.2)
            (sorted path_lt
               (scan_order (map (fun c : string * FS.node => ([c.1], c.2)) cs))))
  = top_level_dirs (FS.Dir cs).
Proof.
  rewrite sorted_perm, (scan_all _). apply filter_top_level_length.
Qed.

Lemma subdirs_sound cs x :
  x ∈ filter (fun d : FS.path * FS.node => FS.is_dir d.2)
        (sorted path_lt
           (scan_order (map (fun c : string * FS.node => ([c.1], c.2)) cs))) ->
  exists d n, x = ([d], n) /\ (d, n) ∈ cs /\ FS.is_dir n = true.
Proof.
  intros [Hdir Hx]%list_elem_of_filter.
  rewrite sorted_perm, (scan_all _) in Hx.
  apply list_elem_of_fmap in Hx as ([d n] & -> & Hin).
  exists d, n. split; [done|]. split; [done|]. by apply Is_true_true.
Qed.

Lemma dict_set_length {V : Type} k (v : V) d :
  (length (dict_set k v d) <= S (length d))%nat.
Proof.
  induction d as [|[k' v'] d IH]; simpl; [lia|].
  destruct (String.eqb k' k); simpl; lia.
Qed.

Lemma counted_length root subdirs st :
  (length (foldl (count_dir scan_order root) st subdirs).1
   <= length st.1 + length subdirs)%nat.
Proof.
  revert st. induction subdirs as [|d subdirs IH]; intros st; simpl; [lia|].
  etrans; [apply IH|]. unfold count_dir at 1. cbn [fst].
  pose proof (dict_set_length (FS.name d.1)
                (count_lines_in_dir scan_order root d.1) st.1). lia.
Qed.

Lemma counted_out_files root subdirs st :
  out_files (foldl (count_dir scan_order root) st subdirs).2 = out_files st.2.
Proof.
  revert st. induction subdirs as [|d subdirs IH]; intros st; simpl; [done|].
  by rewrite IH.
Qed.

Lemma decide_groups_out_files a subdirs dir_locs w :
  out_files (decide_groups a subdirs dir_locs w).1 = out_files w.
Proof.
  unfold decide_groups. destruct (max_files a) as [m|]; [|done].
  by destruct (negb _ && _)%bool.
Qed.

Lemma decide_groups_length a subdirs dir_locs w groups :
  (length dir_locs <= length subdirs)%nat ->
  (decide_groups a subdirs dir_locs w).2 = Ok groups ->
  (length groups <= archive_bound a (length subdirs))%nat.
Proof.
  intros Hkeys. unfold decide_groups, archive_bound.
  destruct (max_files a) as [m|];
    [|intros [= <-]; by rewrite length_map].
  destruct (negb _ && _)%bool; [|intros [= <-]; by rewrite length_map].
  cbn [snd]. intros Hrun.
  destruct (merge_smallest_dirs_spec dir_locs (Z.max (m - 1) 1))
    as (groups0 & Hrun0 & _ & Hlen); [lia|].
  rewrite Hrun in Hrun0. injection Hrun0 as <-.
  destruct (Z.gtb_spec (Z.of_nat (length dir_locs)) (Z.max (m - 1) 1)); lia.
Qed.

Lemma decide_groups_members a subdirs dir_locs w groups :
  (forall d, d ∈ dir_locs.*1 -> d ∈ dir_names subdirs) ->
  (decide_groups a subdirs dir_locs w).2 = Ok groups ->
  Forall (fun g => g <> [] /\ forall d, d ∈ g -> d ∈ dir_names subdirs) groups.
Proof.
  intros Hkeys. unfold decide_groups.
  assert (Hplain : Forall (fun g => g <> [] /\
                      forall d, d ∈ g -> d ∈ dir_names subdirs)
                     (map (fun d => [FS.name d.1]) subdirs)).
  { apply Forall_forall. intros g Hg.
    apply list_elem_of_fmap in Hg as (x & -> & Hx). split; [done|].
    intros d ->%list_elem_of_singleton.
    apply list_elem_of_fmap. eauto. }
  destruct (max_files a) as [m|]; [|by intros [= <-]].
  destruct (negb _ && _)%bool; [|by intros [= <-]].
  cbn [snd]. intros Hrun.
  destruct (merge_smallest_dirs_spec dir_locs (Z.max (m - 1) 1))
    as (groups0 & Hrun0 & Hperm & _); [lia|].
  rewrite Hrun in Hrun0. injection Hrun0 as <-.
  assert (Hne : Forall (fun g : list string => g <> []) groups).
  { unfold merge_smallest_dirs in Hrun.
    apply (merge_loop_nonempty _ _ _ _ _ Hrun).
    apply Forall_forall. intros g Hg.
    by apply list_elem_of_fmap in Hg as (x & -> & _). }
  rewrite Forall_forall in Hne. apply Forall_forall. intros g Hg.
  split; [by apply Hne|]. intros d Hd. apply Hkeys. rewrite <- Hperm.
  apply elem_of_concat. eauto.
Qed.

Lemma write_file_size name text w :
  (size (out_files (write_file name text w)) <= S (size (out_files w)))%nat.
Proof.
  cbn [write_file out_files]. rewrite map_size_insert.
  destruct (out_files w !! name); unfold id; lia.
Qed.

Lemma combine_swift_files_size root subdirs lbl w :
  (size (out_files (combine_swift_files scan_order root subdirs lbl w).1)
   <= S (size (out_files w)))%nat.
Proof.
  unfold combine_swift_files. destruct (concat _) as [|f0 fs]; [simpl; lia|].
  destruct (combine_loop _ _ _ _) as [T [ix| |]]; cbn [fst snd];
    apply write_file_size.
Qed.

Lemma flatten_groups_size root groups ix mi w :
  (size (out_files (flatten_groups scan_order root groups ix mi w).1)
   <= size (out_files w) + length groups)%nat.
Proof.
  revert ix mi w. induction groups as [|group groups IH]; intros ix mi w;
    cbn [flatten_groups]; [simpl; lia|].
  pose proof (combine_swift_files_size root (map (fun g => [g]) group) None w)
    as Hc.
  destruct (combine_swift_files _ _ _ _ _) as [w' [[[l [|e es]]|]| |]];
    cbn [fst snd length] in *; try lia.
  - etrans; [apply IH|]. lia.
  - etrans; [apply IH|]. lia.
Qed.

(** A group with an eligible file, all of whose eligible files can be
    read, gets its archive and entries. *)
Lemma combine_swift_files_success root subdirs lbl w :
  concat (map (gather_swift_files scan_order root) subdirs) <> [] ->
  Forall (fun f => exists t, FS.read_text f.2 = Ok t)
    (concat (map (gather_swift_files scan_order root) subdirs)) ->
  exists T e entries,
    combine_swift_files scan_order root subdirs lbl w
    = (write_file (out_name subdirs +:+ ".txt") T w,
       Ok (Some (label_or lbl (out_name subdirs), e :: entries))).
Proof.
  intros Hne Hall. unfold combine_swift_files.
  destruct (concat _) as [|f0 fs] eqn:E; [done|].
  destruct (combine_loop_returns (sorted path_lt (f0 :: fs)) 1 "" [])
    as [entries Hrun].
  { by rewrite sorted_perm. }
  destruct (combine_loop _ _ _ _) as [T r] eqn:Hloop. simpl in Hrun. subst r.
  apply combine_loop_length in Hloop. rewrite sorted_perm in Hloop.
  destruct entries as [|e entries]; [simpl in Hloop; lia|].
  cbn [fst snd]. by exists T, e, entries.
Qed.

Lemma flatten_groups_success root groups ix mi w :
  Forall (fun g => g <> [] /\
            forall d, d ∈ g ->
              gather_swift_files scan_order root [d] <> []
              /\ Forall (fun f => exists t, FS.read_text f.2 = Ok t)
                   (gather_swift_files scan_order root [d])) groups ->
  exists ix' mi',
    (flatten_groups scan_order root groups ix mi w).2 = Ok (ix', mi')
    /\ (forall g, g ∈ groups ->
          is_Some (out_files (flatten_groups scan_order root groups ix mi w).1
                     !! archive_of g)
          /\ ix' <> ∅)
    /\ (forall k, is_Some (out_files w !! k) ->
          is_Some (out_files (flatten_groups scan_order root groups ix mi w).1
                     !! k))
    /\ (ix <> ∅ -> ix' <> ∅).
Proof.
  revert ix mi w. induction groups as [|group groups IH]; intros ix mi w Hall.
  - exists ix, mi. cbn [flatten_groups fst snd]. split; [done|].
    split; [|done]. intros g Hg. by apply elem_of_nil in Hg.
  - apply Forall_cons in Hall as [[Hne Hgroup] Hall].
    cbn [flatten_groups].
    destruct (combine_swift_files_success root (map (fun g => [g]) group)
                None w) as (T & e & entries & ->).
    { destruct group as [|d group]; [done|]. cbn [map concat].
      destruct (Hgroup d) as [Hd _]; [left|].
      destruct (gather_swift_files scan_order root [d]); [done|]. done. }
    { apply Forall_forall. intros f (l & Hl & Hf)%elem_of_concat.
      apply list_elem_of_fmap in Hl as (p & -> & Hp).
      apply list_elem_of_fmap in Hp as (d & -> & Hd).
      destruct (Hgroup d Hd) as [_ Hr]. rewrite Forall_forall in Hr. auto. }
    cbn [fst snd label_or].
    set (w1 := write_file _ T w). set (ix1 := <[_ := _]> ix).
    set (mi1 := if Nat.ltb _ _ then _ else _).
    destruct (IH ix1 mi1 w1 Hall) as (ix' & mi' & Hrun & Hg & Hkeep & Hix).
    exists ix', mi'. split; [done|].
    assert (Hix1 : ix1 <> ∅) by apply insert_non_empty.
    split; [|split; [|auto]].
    + intros g [->|Hin]%elem_of_cons; [|by apply Hg].
      split; [|auto]. apply Hkeep. unfold w1, archive_of.
      cbn [write_file out_files]. rewrite lookup_insert_eq. by eexists.
    + intros k Hk. apply Hkeep. unfold w1. cbn [write_file out_files].
      destruct (decide (out_name (map (fun g => [g]) group) +:+ ".txt" = k))
        as [->|Hneq].
      * rewrite lookup_insert_eq. by eexists.
      * by rewrite lookup_insert_ne.
Qed.

End MainMore.

Section MainExtras.
Import Flatten Layout Examples.



End MainExtras.

(** ** The index *)

Section IndexExtras.
Import Flatten Layout.

Lemma render_entries_cons e e' rest :
  render_entries (e :: e' :: rest)
  = render_entry false e +:+ render_entries (e' :: rest).
Proof. reflexivity. Qed.

Lemma string_ltb_leb a b : String.ltb b a = false <-> String.leb a b = true.
Proof.
  unfold String.ltb, String.leb. rewrite (String.compare_antisym b a).
  destruct (String.compare a b); simpl; split; done.
Qed.

Lemma string_leb_ne_ltb a b :
  String.leb a b = true -> a <> b -> String.ltb a b = true.
Proof.
  unfold String.ltb, String.leb. intros Hle Hne.
  destruct (String.compare a b) eqn:E; [|done|done].
  by apply String.compare_eq_iff in E.
Qed.

Lemma foldr_render (merge_info : gmap string (list string)) items :
  foldr (fun item acc => render_archive merge_info item +:+ acc) "" items
  = concat_str (map (render_archive merge_info) items).
Proof. induction items as [|x items IH]; simpl; [done|]. by rewrite IH. Qed.

(** X10.  The index starts with its fixed key and then lists every archive
    of the index data once, in strictly ascending order of the labels; in
    the list of an archive all entries but the last get the branch that
    continues, and the last one the branch that closes. *)
Theorem index_lists_archives_in_label_order
    (index_data : gmap string (list entry))
    (merge_info : gmap string (list string)) :
  (exists items,
     index_text index_data merge_info
     = index_key +:+ concat_str (map (render_archive merge_info) items)
     /\ (forall label entries,
           index_data !! label = Some entries <-> (label, entries) ∈ items)
     /\ length items = size index_data
     /\ (forall i j a b, (i < j)%nat ->
           items !! i = Some a -> items !! j = Some b ->
           String.ltb a.1 b.1 = true))
  /\ (forall entries e,
        render_entries (entries ++ [e])
        = concat_str (map (render_entry false) entries)
          +:+ render_entry true e).
Proof.
  split.
  - exists (sorted item_lt (map_to_list index_data)).
    set (items := sorted item_lt (map_to_list index_data)).
    assert (Hperm : items ≡ₚ map_to_list index_data) by apply sorted_perm.
    split; [|split; [|split]].
    + unfold index_text. fold items. f_equal. apply foldr_render.
    + intros label entries. rewrite Hperm. symmetry.
      apply elem_of_map_to_list.
    + by rewrite Hperm, length_map_to_list.
    + intros i j a b Hij Hi Hj.
      assert (Hss : StronglySorted
                      (fun x y : string * list entry => String.le x.1 y.1)
                      items).
      { apply Sorted_StronglySorted.
        - intros x y z. apply transitivity.
        - apply sorted_Sorted_gen; intros x y; unfold item_lt, String.le.
          + intros Hlt. apply Is_true_true. unfold String.ltb in Hlt.
            unfold String.leb. by destruct (String.compare x.1 y.1).
          + intros Hge. apply Is_true_true. by apply string_ltb_leb. }
      pose proof (StronglySorted_lookup _ _ _ _ _ _ Hss Hij Hi Hj) as Hle.
      apply string_leb_ne_ltb; [by apply Is_true_true|].
      assert (Hnd : NoDup items.*1).
      { rewrite Hperm. apply NoDup_fst_map_to_list. }
      intros E.
      assert (i = j); [|lia].
      apply (NoDup_lookup _ _ _ a.1 Hnd); rewrite list_lookup_fmap.
      * by rewrite Hi.
      * by rewrite Hj, E.
  - intros entries e. induction entries as [|e0 entries IH].
    + reflexivity.
    + destruct entries as [|e1 entries].
      * cbn [app map concat_str foldr render_entries].
        by rewrite append_nil_r.
      * cbn [app]. rewrite render_entries_cons.
        cbn [app] in IH. rewrite IH.
        change (concat_str (map (render_entry false) (e0 :: e1 :: entries)))
          with (render_entry false e0
                +:+ concat_str (map (render_entry false) (e1 :: entries))).
        by rewrite append_assoc.
Qed.

End IndexExtras.


(** ** More on trees *)

Section TreeMore.
Import Layout.

Lemma get_file_below t (q : FS.path) :
  q <> [] -> FS.get (FS.File t) q = None.
Proof. by destruct q. Qed.

Lemma get_empty_below (q : FS.path) :
  q <> [] -> FS.get (FS.Dir []) q = None.
Proof. by destruct q. Qed.

(** A file has nothing below it. *)
Lemma file_is_leaf root (q r : FS.path) t :
  FS.get root q = Some (FS.File t) -> is_Some (FS.get root (q ++ r)) -> r = [].
Proof.
  intros Hq Hr. rewrite get_app, Hq in Hr.
  destruct r; [done|]. simpl in Hr. by destruct Hr.
Qed.

Lemma apart_cons c (p q : FS.path) : apart (c :: p) (c :: q) -> apart p q.
Proof.
  intros [H1 H2]. split; intros [k ->]; [apply H1|apply H2]; by exists k.
Qed.

(** An update changes nothing apart from the place it is made at. *)
Lemma update_frame p f n n' :
  FS.update p f n = Ok n' ->
  forall q, apart p q -> FS.get n' q = FS.get n q.
Proof.
  revert n n'. induction p as [|c p IH]; intros n n' Hup q Hq.
  - destruct Hq as [_ []]. by exists q.
  - simpl in Hup. destruct n as [|cs]; [done|].
    destruct (FS.child c cs) as [m|] eqn:Hc; [|done].
    destruct (FS.update p f m) as [m'| |] eqn:Hm; [|done|done].
    injection Hup as <-. destruct q as [|k q].
    + destruct Hq as [[] _]. by exists (c :: p).
    + rewrite get_set_child. destruct (String.eqb_spec c k) as [<-|Hne]; [|done].
      rewrite (IH _ _ Hm q (apart_cons _ _ _ Hq)). simpl. by rewrite Hc.
Qed.

Lemma get_put_apart root p n q :
  apart p q -> FS.get (put p n root) q = FS.get root q.
Proof.
  revert root q. induction p as [|c p IH]; intros root q Hq.
  - destruct Hq as [_ []]. by exists q.
  - simpl. destruct root as [|cs]; [done|].
    destruct (FS.child c cs) as [m|] eqn:Hc; [|done].
    destruct q as [|k q].
    + destruct Hq as [[] _]. by exists (c :: p).
    + rewrite get_set_child. destruct (String.eqb_spec c k) as [<-|Hne]; [|done].
      rewrite (IH _ _ (apart_cons _ _ _ Hq)). simpl. by rewrite Hc.
Qed.

(** Writing a file puts the text there and changes nothing but what is on
    the way to it. *)
Lemma write_text_get p data fs fs' :
  FS.write_text p data fs = Ok fs' ->
  FS.get fs' p = Some (FS.File (Some data))
  /\ (forall q, ~ q `prefix_of` p -> FS.get fs' q = FS.get fs q).
Proof.
  revert fs fs'. induction p as [|c p IH]; intros fs fs' Hw; [done|].
  destruct p as [|c2 p].
  - unfold FS.write_text in Hw. simpl in Hw.
    destruct fs as [|cs]; [done|].
    change (FS.name [c]) with c in Hw. cbn [FS.write_in] in Hw.
    assert (fs' = FS.Dir (FS.set_child c (FS.File (Some data)) cs)
            /\ forall sub, FS.child c cs <> Some (FS.Dir sub)) as [-> Hnd].
    { destruct (FS.child c cs) as [[|]|]; split; congruence. }
    split; [simpl; by rewrite child_set_child, String.eqb_refl|].
    intros [|k q] Hq; [destruct Hq; by exists [c]|].
    rewrite get_set_child. destruct (String.eqb_spec c k) as [<-|Hne]; [|done].
    assert (q <> []) by (intros ->; by apply Hq).
    rewrite get_file_below by done. simpl.
    destruct (FS.child c cs) as [[|sub]|]; [|by destruct (Hnd sub)|done].
    by rewrite get_file_below.
  - unfold FS.write_text in Hw.
    change (FS.parent (c :: c2 :: p)) with (c :: FS.parent (c2 :: p)) in Hw.
    change (FS.name (c :: c2 :: p)) with (FS.name (c2 :: p)) in Hw.
    cbn [FS.update] in Hw. destruct fs as [|cs]; [done|].
    destruct (FS.child c cs) as [m|] eqn:Hc; [|done].
    destruct (FS.update _ _ m) as [m'| |] eqn:Hm; [|done|done].
    injection Hw as <-.
    destruct (IH m m') as [Hhere Hframe]; [exact Hm|].
    split.
    + change (FS.get (FS.Dir (FS.set_child c m' cs)) (c :: c2 :: p))
        with (match FS.child c (FS.set_child c m' cs) with
              | Some n => FS.get n (c2 :: p) | None => None end).
      by rewrite child_set_child, String.eqb_refl.
    + intros [|k q] Hq; [destruct Hq; by eexists|].
      rewrite get_set_child. destruct (String.eqb_spec c k) as [<-|Hne]; [|done].
      rewrite Hframe.
      * simpl. by rewrite Hc.
      * intros [r E]. apply Hq. exists r. by rewrite E.
Qed.

(** Making directories changes nothing but what is on the way. *)
Lemma mkdir_p_frame p fs fs' :
  FS.mkdir_p p fs = Ok fs' ->
  forall q, ~ q `prefix_of` p -> FS.get fs' q = FS.get fs q.
Proof.
  revert fs fs'. induction p as [|c p IH]; intros fs fs' Hmk q Hq.
  - destruct fs as [|cs]; [done|]. by injection Hmk as <-.
  - destruct fs as [|cs]; [done|]. simpl in Hmk.
    destruct (FS.mkdir_p p (default (FS.Dir []) (FS.child c cs)))
      as [m'| |] eqn:Hm; [|done|done].
    injection Hmk as <-. destruct q as [|k q]; [destruct Hq; by eexists|].
    rewrite get_set_child. destruct (String.eqb_spec c k) as [<-|Hne]; [|done].
    assert (Hq' : ~ q `prefix_of` p).
    { intros [r E]. apply Hq. exists r. by rewrite E. }
    rewrite (IH _ _ Hm q Hq'). simpl.
    destruct (FS.child c cs) as [m|]; simpl; [done|].
    apply get_empty_below. intros ->. apply Hq'. by exists p.
Qed.

Lemma way_clear_empty p : way_clear p (FS.Dir []) = true.
Proof. by destruct p. Qed.

(** The directories can be made exactly when no file is in the way. *)
Lemma mkdir_p_way_clear p fs :
  is_ok (FS.mkdir_p p fs) = way_clear p fs.
Proof.
  revert fs. induction p as [|c p IH]; intros [t|cs]; simpl; try done.
  specialize (IH (default (FS.Dir []) (FS.child c cs))).
  destruct (FS.child c cs) as [m|]; simpl in *.
  - rewrite <- IH. by destruct (FS.mkdir_p p m).
  - rewrite way_clear_empty in IH. by destruct (FS.mkdir_p p (FS.Dir [])).
Qed.

Lemma mkdir_p_not_through_file p fs fs' q t :
  FS.mkdir_p p fs = Ok fs' -> q `prefix_of` p ->
  FS.get fs q <> Some (FS.File t).
Proof.
  revert p fs fs'. induction q as [|k q IH]; intros p fs fs' Hmk [r ->] Hq.
  - simpl in Hq. injection Hq as ->. by destruct r.
  - simpl in Hq, Hmk. destruct fs as [|cs]; [done|].
    destruct (FS.child k cs) as [m|] eqn:Hc; [|done]. simpl in Hmk.
    destruct (FS.mkdir_p (q ++ r) m) as [m'| |] eqn:Hm; [|done|done].
    apply (IH _ _ _ Hm); [by exists r|done].
Qed.

(** Making directories leaves every file where and as it was. *)
Lemma mkdir_p_keeps_files p fs fs' q t :
  FS.mkdir_p p fs = Ok fs' ->
  FS.get fs q = Some (FS.File t) -> FS.get fs' q = Some (FS.File t).
Proof.
  intros Hmk Hq. destruct (decide (q `prefix_of` p)) as [Hpre|Hpre].
  - by destruct (mkdir_p_not_through_file _ _ _ _ t Hmk Hpre).
  - by rewrite (mkdir_p_frame _ _ _ Hmk q Hpre).
Qed.

Lemma prefix_parent (q p : FS.path) :
  q `prefix_of` p -> q <> p -> q `prefix_of` FS.parent p.
Proof.
  intros [r ->] Hne. destruct (decide (r = [])) as [->|Hr].
  - by rewrite app_nil_r in Hne.
  - rewrite <- (parent_name r Hr), app_assoc, parent_snoc.
    by exists (FS.parent r).
Qed.

End TreeMore.

(** ** The redaction script *)

Section RedactMore.
Import Layout Redact.

Lemma writelines_cons l lines : writelines (l :: lines) = l +:+ writelines lines.
Proof. reflexivity. Qed.

Lemma file_lines_cons c s :
  file_lines (String c s)
  = if Ascii.eqb c nl_char then nl :: file_lines s
    else match file_lines s with
         | [] => [String c EmptyString]
         | line :: rest => String c line :: rest
         end.
Proof. reflexivity. Qed.

Lemma count_nl_cons c s :
  count_nl (String c s) = (if Ascii.eqb c nl_char then 1 else 0) + count_nl s.
Proof. reflexivity. Qed.

(** Putting the lines of a text one after the other gives the text. *)
Lemma writelines_file_lines text : writelines (file_lines text) = text.
Proof.
  induction text as [|c s IH]; [done|].
  rewrite file_lines_cons. destruct (Ascii.eqb_spec c nl_char) as [->|Hne].
  - rewrite writelines_cons, IH. reflexivity.
  - destruct (file_lines s) as [|line rest].
    + rewrite writelines_cons. cbn in IH. subst s. reflexivity.
    + rewrite writelines_cons, append_cons. rewrite writelines_cons in IH.
      by rewrite IH.
Qed.

Lemma redact_lines_id lines limit :
  (forall line, line ∈ lines -> len line <= limit) ->
  redact_lines lines limit = lines.
Proof.
  induction lines as [|l lines IH]; intros H; [done|].
  cbn [redact_lines]. rewrite IH by (intros; apply H; by right).
  destruct (Z.leb_spec (len l) limit) as [|Hlt]; [done|].
  pose proof (H l ltac:(by left)). lia.
Qed.

Lemma redact_lines_length lines limit :
  length (redact_lines lines limit) = length lines.
Proof. induction lines as [|l lines IH]; simpl; [done|by rewrite IH]. Qed.

(** A full line is read back as one line, an open line as the last. *)
Lemma file_lines_full body rest :
  count_nl body = 0 ->
  file_lines (body +:+ nl +:+ rest) = (body +:+ nl) :: file_lines rest.
Proof.
  induction body as [|c body IH]; intros Hc.
  - rewrite !append_nil_l. unfold nl at 1. rewrite append_cons, append_nil_l.
    rewrite file_lines_cons. by rewrite Ascii.eqb_refl.
  - rewrite count_nl_cons in Hc. pose proof (count_nl_nonneg body).
    destruct (Ascii.eqb_spec c nl_char) as [|Hne]; [lia|].
    rewrite !append_cons, file_lines_cons.
    destruct (Ascii.eqb_spec c nl_char) as [|_]; [done|].
    rewrite IH by lia. reflexivity.
Qed.

Lemma file_lines_open s :
  s <> "" -> count_nl s = 0 -> file_lines s = [s].
Proof.
  induction s as [|c s IH]; intros Hne Hc; [done|].
  rewrite count_nl_cons in Hc. pose proof (count_nl_nonneg s).
  destruct (Ascii.eqb_spec c nl_char) as [|Hc']; [lia|].
  rewrite file_lines_cons.
  destruct (Ascii.eqb_spec c nl_char) as [|_]; [done|].
  destruct s as [|c2 s]; [done|]. rewrite IH; [done|done|lia].
Qed.

Lemma full_line_not_empty s : full_line s -> s <> "".
Proof. intros (body & -> & _). by destruct body. Qed.

(** The lines of a text are full lines, except possibly the last. *)
Lemma file_lines_well_cut text : well_cut (file_lines text).
Proof.
  induction text as [|c s IH]; [done|].
  rewrite file_lines_cons. destruct (Ascii.eqb_spec c nl_char) as [->|Hne].
  - assert (Hnl : full_line nl) by (by exists "").
    cbn [well_cut]. destruct (file_lines s); [by left|done].
  - destruct (file_lines s) as [|line rest] eqn:E.
    + right. split; [done|]. rewrite count_nl_cons.
      destruct (Ascii.eqb_spec c nl_char); [done|done].
    + assert (Hc : forall l, count_nl (String c l) = count_nl l).
      { intros l. rewrite count_nl_cons.
        destruct (Ascii.eqb_spec c nl_char); [done|lia]. }
      assert (Hf : full_line line -> full_line (String c line)).
      { intros (body & -> & Hb). exists (String c body). by rewrite Hc. }
      cbn [well_cut] in *. destruct rest as [|l2 rest].
      * destruct IH as [H|[H1 H2]]; [left; auto|right].
        split; [done|by rewrite Hc].
      * destruct IH as [H1 H2]. auto.
Qed.

(** Lines cut well are the lines of the text they make. *)
Lemma file_lines_writelines lines :
  well_cut lines -> file_lines (writelines lines) = lines.
Proof.
  induction lines as [|l lines IH]; intros Hw; [done|].
  rewrite writelines_cons. cbn [well_cut] in Hw. destruct lines as [|l2 lines].
  - change (writelines []) with "". rewrite append_nil_r.
    destruct Hw as [(body & -> & Hb)|[H1 H2]].
    + rewrite <- (append_nil_r (body +:+ nl)), append_assoc.
      by rewrite file_lines_full.
    + by apply file_lines_open.
  - destruct Hw as [(body & -> & Hb) Hrest].
    rewrite append_assoc, file_lines_full by done. by rewrite IH.
Qed.

Lemma count_nl_string_of_uint d : count_nl (NilEmpty.string_of_uint d) = 0.
Proof. induction d; cbn [NilEmpty.string_of_uint]; rewrite ?count_nl_cons; done. Qed.

Lemma count_nl_str_of_int n : count_nl (str_of_int n) = 0.
Proof.
  unfold str_of_int, NilZero.string_of_int, NilZero.string_of_uint.
  destruct (Z.to_int n) as [d|d]; destruct d;
    rewrite ?count_nl_cons, ?count_nl_string_of_uint; done.
Qed.

Lemma placeholder_full_line n : full_line (PLACEHOLDER n +:+ nl).
Proof.
  exists (PLACEHOLDER n). split; [done|]. unfold PLACEHOLDER.
  rewrite !count_nl_app, count_nl_str_of_int. reflexivity.
Qed.

Lemma redact_lines_well_cut lines limit :
  well_cut lines -> well_cut (redact_lines lines limit).
Proof.
  induction lines as [|l lines IH]; intros Hw; [done|].
  cbn [redact_lines well_cut] in *.
  pose proof (placeholder_full_line (len l)) as Hp.
  destruct lines as [|l2 lines].
  - cbn [redact_lines]. destruct (Z.leb (len l) limit); [done|by left].
  - destruct Hw as [H1 H2]. specialize (IH H2). cbn [redact_lines] in *.
    destruct (Z.leb (len l) limit); done.
Qed.

Lemma string_length_app (a b : string) :
  String.length (a +:+ b) = (String.length a + String.length b)%nat.
Proof.
  induction a as [|c a IH]; [done|]. rewrite append_cons. simpl. by rewrite IH.
Qed.

Lemma str_of_int_not_empty n : (1 <= String.length (str_of_int n))%nat.
Proof.
  unfold str_of_int, NilZero.string_of_int, NilZero.string_of_uint.
  destruct (Z.to_int n) as [d|d]; destruct d; simpl; lia.
Qed.

(** What a run does, step by step, when its input can be read. *)
Lemma main_run input output limit text fs :
  text_at input fs = Some text ->
  main input output limit fs
  = match FS.mkdir_p (FS.parent output) fs with
    | Ok fs1 =>
        match FS.write_text output
                (writelines (redact_lines (file_lines text) limit)) fs1 with
        | Ok fs2 => (fs2, Ok tt)
        | Raise e => (fs1, Raise e)
        | OutOfFuel => (fs1, OutOfFuel)
        end
    | Raise e => (fs, Raise e)
    | OutOfFuel => (fs, OutOfFuel)
    end.
Proof.
  unfold text_at, main. destruct (FS.get fs input) as [[[t|]|]|]; try done.
  by intros [= ->].
Qed.

(** A run whose input can be read and whose output is in nobody's way
    writes the output. *)
Lemma main_succeeds input output limit text fs :
  text_at input fs = Some text ->
  output <> [] ->
  way_clear (FS.parent output) fs = true ->
  FS.is_dir_at output fs = false ->
  exists fs1 fs2,
    FS.mkdir_p (FS.parent output) fs = Ok fs1
    /\ FS.write_text output
         (writelines (redact_lines (file_lines text) limit)) fs1 = Ok fs2
    /\ main input output limit fs = (fs2, Ok tt).
Proof.
  intros Hin Hne Hway Hnd. rewrite (main_run _ _ _ _ _ Hin).
  rewrite <- mkdir_p_way_clear in Hway.
  destruct (FS.mkdir_p (FS.parent output) fs) as [fs1| |] eqn:Hmk; try done.
  destruct (mkdir_p_result _ _ _ Hmk) as (cs & Hpar & _).
  assert (Hout : FS.get fs1 output = FS.get fs output).
  { apply (mkdir_p_frame _ _ _ Hmk). intros [r E].
    apply (f_equal (@length string)) in E.
    pose proof (f_equal (@length string) (parent_name output Hne)) as L.
    rewrite !length_app in *. simpl in L. lia. }
  assert (Hw : exists fs2, FS.write_text output
             (writelines (redact_lines (file_lines text) limit)) fs1 = Ok fs2).
  { unfold FS.write_text. destruct output as [|x l] eqn:E; [done|].
    rewrite <- E in *.
    exists (put (FS.parent output)
              (FS.Dir (FS.set_child (FS.name output)
                 (FS.File (Some (writelines
                    (redact_lines (file_lines text) limit)))) cs)) fs1).
    apply (update_ok _ _ _ _ _ Hpar).
    unfold FS.is_dir_at in Hnd. rewrite <- Hout in Hnd.
    rewrite <- (parent_name output Hne), get_app, Hpar in Hnd. simpl in Hnd.
    simpl. destruct (FS.child (FS.name output) cs) as [[|]|]; done. }
  destruct Hw as [fs2 Hw]. rewrite Hw. by exists fs1, fs2.
Qed.

End RedactMore.

Section RedactExtras.
Import Layout Redact Examples.

Lemma redact_lines_lookup lines limit i line :
  lines !! i = Some line ->
  redact_lines lines limit !! i
  = Some (if Z.leb (len line) limit then line
          else PLACEHOLDER (len line) +:+ nl).
Proof.
  revert i. induction lines as [|l lines IH]; intros [|i] H; try done.
  - by injection H as ->.
  - by apply IH.
Qed.

(** X11.  When the input is a readable file, no file stands on the way to
    the directory of the output and the output is not a directory, the run
    ends normally; the output then holds the redacted lines of the input
    one after the other, and whatever is not on the way to the output is as
    it was.  The output may be the input. *)
Theorem redact_main_writes_redacted_text input output limit text fs :
  text_at input fs = Some text ->
  output <> [] ->
  way_clear (FS.parent output) fs = true ->
  FS.is_dir_at output fs = false ->
  exists fs',
    main input output limit fs = (fs', Ok tt)
    /\ text_at output fs'
       = Some (writelines (redact_lines (file_lines text) limit))
    /\ (forall q, ~ q `prefix_of` output -> FS.get fs' q = FS.get fs q).
Proof.
  intros Hin Hne Hway Hnd.
  destruct (main_succeeds _ _ limit _ _ Hin Hne Hway Hnd)
    as (fs1 & fs2 & Hmk & Hw & Hrun).
  destruct (write_text_get _ _ _ _ Hw) as [Hhere Hframe].
  exists fs2. split; [done|]. split.
  - unfold text_at. by rewrite Hhere.
  - intros q Hq. rewrite (Hframe q Hq). apply (mkdir_p_frame _ _ _ Hmk).
    intros [r E]. apply Hq. exists (r ++ [FS.name output]).
    by rewrite app_assoc, <- E, parent_name.
Qed.

Lemma redact_main_writes_redacted_text_witness :
  exists fs',
    main ["logs"; "app.log"] ["out"; "clean"; "app.log"] 10 log_tree
    = (fs', Ok tt)
    /\ text_at ["out"; "clean"; "app.log"] fs'
       = Some (writelines (redact_lines (file_lines log_text) 10))
    /\ (forall q, ~ q `prefix_of` ["out"; "clean"; "app.log"] ->
          FS.get fs' q = FS.get log_tree q).
Proof.
  apply (redact_main_writes_redacted_text ["logs"; "app.log"]
           ["out"; "clean"; "app.log"] 10 log_text log_tree).
  - reflexivity.
  - discriminate.
  - reflexivity.
  - reflexivity.
Defined.

(** X12.  Whatever the outcome of a run, every file other than the output
    is afterwards where and as it was; and when the run does not end
    normally, so is the output, if it was a file. *)
Theorem redact_main_keeps_other_files input output limit fs q t :
  FS.get fs q = Some (FS.File t) ->
  q <> output \/ (main input output limit fs).2 <> Ok tt ->
  FS.get (main input output limit fs).1 q = Some (FS.File t).
Proof.
  intros Hq Hcase. unfold main in *.
  destruct (FS.get fs input) as [src|]; [|done].
  destruct (FS.read_text src) as [text| |]; [|done|done].
  cbv zeta in *.
  destruct (FS.mkdir_p (FS.parent output) fs) as [fs1| |] eqn:Hmk;
    [|done|done].
  pose proof (mkdir_p_keeps_files _ _ _ _ _ Hmk Hq) as Hq1.
  destruct (FS.write_text output _ fs1) as [fs2| |] eqn:Hw; [|done|done].
  simpl in *. destruct Hcase as [Hne|]; [|done].
  destruct (write_text_get _ _ _ _ Hw) as [_ Hframe].
  rewrite Hframe; [done|]. intros Hpre.
  by apply (mkdir_p_not_through_file _ _ _ _ t Hmk (prefix_parent _ _ Hpre Hne)).
Qed.

Lemma redact_main_keeps_other_files_witness :
  FS.get (main ["logs"; "app.log"] ["notes.txt"; "x"] 10 log_tree).1
    ["logs"; "app.log"]
  = Some (FS.File (Some log_text)).
Proof.
  apply (redact_main_keeps_other_files ["logs"; "app.log"] ["notes.txt"; "x"]
           10 log_tree ["logs"; "app.log"] (Some log_text)).
  - reflexivity.
  - left. discriminate.
Defined.

(** X13.  When no line of the input is longer than the limit, what the
    run writes is the text read from the input, character for character. *)
Theorem short_lines_are_copied text limit :
  (forall line, line ∈ file_lines text -> len line <= limit) ->
  writelines (redact_lines (file_lines text) limit) = text.
Proof.
  intros H. rewrite redact_lines_id by done. apply writelines_file_lines.
Qed.

Lemma short_lines_are_copied_witness :
  writelines (redact_lines (file_lines log_text) 100) = log_text.
Proof.
  apply (short_lines_are_copied log_text 100).
  intros line H. vm_compute in H.
  repeat (apply elem_of_cons in H as [->|H]; [vm_compute; discriminate|]).
  by apply elem_of_nil in H.
Defined.

(** X14.  Reading the written text line by line gives back exactly the
    redacted lines: the output has as many lines as the input, and each
    placeholder is a line of its own. *)
Theorem redacted_text_keeps_lines text limit :
  file_lines (writelines (redact_lines (file_lines text) limit))
  = redact_lines (file_lines text) limit
  /\ length (file_lines (writelines (redact_lines (file_lines text) limit)))
     = length (file_lines text).
Proof.
  assert (E : file_lines (writelines (redact_lines (file_lines text) limit))
              = redact_lines (file_lines text) limit).
  { apply file_lines_writelines, redact_lines_well_cut, file_lines_well_cut. }
  split; [done|]. by rewrite E, redact_lines_length.
Qed.

(** X15.  The line that replaces a line longer than the limit is 48
    characters and the digits of the length long, at least 49: with a limit
    below 49 it is itself longer than the limit, and it is longer than the
    line it replaces when that line has fewer than 49 characters. *)
Theorem placeholder_line_length lines limit i line :
  lines !! i = Some line -> limit < len line ->
  exists out,
    redact_lines lines limit !! i = Some out
    /\ len out = 48 + len (str_of_int (len line))
    /\ 49 <= len out
    /\ (limit < 49 -> limit < len out)
    /\ (len line < 49 -> len line < len out).
Proof.
  intros Hi Hlt. eexists. split.
  - rewrite (redact_lines_lookup _ _ _ _ Hi).
    destruct (Z.leb_spec (len line) limit); [lia|done].
  - assert (E : len (PLACEHOLDER (len line) +:+ nl)
                = 48 + len (str_of_int (len line))).
    { unfold len, PLACEHOLDER. rewrite !string_length_app.
      change (String.length "[redacted for brevity; original length: ")
        with 40%nat.
      change (String.length " chars]") with 7%nat.
      change (String.length nl) with 1%nat. lia. }
    pose proof (str_of_int_not_empty (len line)). unfold len in *. lia.
Qed.

Lemma placeholder_line_length_witness :
  exists out,
    redact_lines ["abcde" +:+ nl] 4 !! 0%nat = Some out
    /\ len out = 48 + len (str_of_int (len ("abcde" +:+ nl)))
    /\ 49 <= len out
    /\ (4 < 49 -> 4 < len out)
    /\ (len ("abcde" +:+ nl) < 49 -> len ("abcde" +:+ nl) < len out).
Proof.
  apply (placeholder_line_length ["abcde" +:+ nl] 4 0%nat ("abcde" +:+ nl)).
  - reflexivity.
  - vm_compute. reflexivity.
Defined.

End RedactExtras.


(** ** The export stays inside its directory *)

Section ExportFrame.
Import Layout ExportTemplates.
Variable json_pretty : string -> option string.
Variable catalog_text : Z -> string -> list template -> string.

Lemma apart_below (out r q : FS.path) :
  apart out q -> ~ q `prefix_of` out ++ r.
Proof.
  intros [H1 H2] Hq.
  destruct (prefix_weak_total q out (out ++ r) Hq) as [H|H]; [|done|done].
  by exists r.
Qed.

Lemma apart_app (out r q : FS.path) : apart out q -> apart (out ++ r) q.
Proof.
  intros Hq. split; [by apply apart_below|].
  intros [k ->]. destruct Hq as [_ []]. exists (r ++ k). by rewrite app_assoc.
Qed.

Lemma keeps_ret {A : Type} out (a : A) : keeps_outside out (ret a).
Proof. by intros fs q _. Qed.

Lemma keeps_ask {A : Type} out (f : FS.node -> A) : keeps_outside out (ask f).
Proof. by intros fs q _. Qed.

Lemma keeps_try_ask {A : Type} out (f : FS.node -> result A) :
  keeps_outside out (try_ask f).
Proof. by intros fs q _. Qed.

Lemma keeps_bind {A B : Type} out (c : M A) (k : A -> M B) :
  keeps_outside out c -> (forall a, keeps_outside out (k a)) ->
  keeps_outside out (bindM c k).
Proof.
  intros Hc Hk fs q Hq. unfold bindM. specialize (Hc fs q Hq).
  destruct (c fs) as [fs1 [a| |]]; simpl in *; [|done|done].
  by rewrite (Hk a fs1 q Hq).
Qed.

Lemma keeps_lift out (op : FS.node -> result FS.node) :
  (forall fs fs', op fs = Ok fs' ->
     forall q, apart out q -> FS.get fs' q = FS.get fs q) ->
  keeps_outside out (lift op).
Proof.
  intros Hop fs q Hq. unfold lift.
  destruct (op fs) as [fs'| |] eqn:E; simpl; [|done|done].
  by apply (Hop _ _ E).
Qed.

Lemma keeps_mkdir_p out r : keeps_outside out (lift (FS.mkdir_p (out ++ r))).
Proof.
  apply keeps_lift. intros fs fs' Hmk q Hq.
  apply (mkdir_p_frame _ _ _ Hmk). by apply apart_below.
Qed.

Lemma keeps_write_text out r data :
  keeps_outside out (lift (FS.write_text (out ++ r) data)).
Proof.
  apply keeps_lift. intros fs fs' Hw q Hq.
  apply (write_text_get _ _ _ _ Hw). by apply apart_below.
Qed.

Lemma keeps_in_parent out r nm (f : FS.node -> result FS.node) :
  keeps_outside out (lift (FS.update (FS.parent ((out ++ r) ++ [nm])) f)).
Proof.
  apply keeps_lift. intros fs fs' Hup q Hq. rewrite parent_snoc in Hup.
  apply (update_frame _ _ _ _ Hup). by apply apart_app.
Qed.

Lemma keeps_unlink out r nm :
  keeps_outside out (lift (FS.unlink ((out ++ r) ++ [nm]))).
Proof.
  unfold FS.unlink. destruct (snoc_not_nil (out ++ r) nm) as (x & l & E).
  rewrite E, <- E. apply keeps_in_parent.
Qed.

Lemma keeps_rmdir out r nm :
  keeps_outside out (lift (FS.rmdir ((out ++ r) ++ [nm]))).
Proof.
  unfold FS.rmdir. destruct (snoc_not_nil (out ++ r) nm) as (x & l & E).
  rewrite E, <- E. apply keeps_in_parent.
Qed.

Lemma keeps_clean_children out (clean : FS.path -> M unit) r names :
  (forall r', keeps_outside out (clean (out ++ r'))) ->
  keeps_outside out (clean_children clean (out ++ r) names).
Proof.
  intros Hclean. induction names as [|nm names IH]; cbn [clean_children].
  - apply keeps_ret.
  - apply keeps_bind; [|intros; apply IH].
    apply keeps_bind; [apply keeps_ask|]. intros [|].
    + apply keeps_unlink.
    + apply keeps_bind; [apply keeps_ask|]. intros [|]; [|apply keeps_ret].
      apply keeps_bind; [|intros; apply keeps_rmdir].
      rewrite <- app_assoc. apply Hclean.
Qed.

Lemma keeps_ensure_clean_directory out fuel r :
  keeps_outside out (ensure_clean_directory fuel (out ++ r)).
Proof.
  revert r. induction fuel as [|fuel IH]; intros r; cbn [ensure_clean_directory].
  - by intros fs q _.
  - apply keeps_bind; [|intros; apply keeps_mkdir_p].
    apply keeps_bind; [apply keeps_ask|]. intros [|]; [|apply keeps_ret].
    apply keeps_bind; [apply keeps_try_ask|]. intros names.
    by apply keeps_clean_children.
Qed.

Lemma keeps_render out blob : keeps_outside out (render json_pretty blob).
Proof. intros fs q _. by rewrite render_state. Qed.

Lemma keeps_export_row out st row :
  keeps_outside out (export_row json_pretty st out row).
Proof.
  unfold export_row. rewrite <- !app_assoc.
  repeat (apply keeps_bind; [|intros]);
    (apply keeps_mkdir_p || apply keeps_write_text || apply keeps_render).
Qed.

Lemma keeps_export_templates out st ver now :
  keeps_outside out (export_templates json_pretty catalog_text st out ver now).
Proof.
  unfold export_templates. apply keeps_bind; [|intros; apply keeps_write_text].
  induction (templates st) as [|row rows IH]; cbn [export_rows].
  - apply keeps_ret.
  - apply keeps_bind; [apply keeps_export_row|intros; apply IH].
Qed.

(** X16.  Whatever its outcome, a run of the export (on a store whose
    slugs are plain names) leaves everything that is neither below the
    output directory nor on the way to it as it was. *)
Theorem export_main_stays_inside st out ver now fs q :
  (forall s, st = Some s -> plain_store s) ->
  apart out q ->
  FS.get (main json_pretty catalog_text st out ver now fs).1 q = FS.get fs q.
Proof.
  intros _ Hq. unfold main. destruct st as [st|]; [|done].
  apply (keeps_bind out); [| |done].
  - pose proof (keeps_ensure_clean_directory out (S (FS.height fs)) []) as H.
    by rewrite app_nil_r in H.
  - intros. apply keeps_export_templates.
Qed.

End ExportFrame.

Lemma export_main_stays_inside_witness :
  FS.get (ExportTemplates.main Examples.as_is Examples.catalog_stub
            (Some Examples.two_templates) Examples.export_dir 1 "now"
            Examples.stale_tree).1 ["keep.txt"]
  = FS.get Examples.stale_tree ["keep.txt"].
Proof.
  apply (export_main_stays_inside Examples.as_is Examples.catalog_stub
           (Some Examples.two_templates) Examples.export_dir 1 "now"
           Examples.stale_tree ["keep.txt"]).
  - intros s [= <-]. repeat constructor; cbn; discriminate.
  - split; intros [k E]; discriminate E.
Defined.

(** ** What the export writes *)

Section ExportRun.
Import Layout ExportTemplates.
Variable json_pretty : string -> option string.
Variable catalog_text : Z -> string -> list template -> string.

Lemma append_inj_l (s a b : string) : s +:+ a = s +:+ b -> a = b.
Proof.
  induction s as [|c s IH]; [done|]. rewrite !append_cons.
  intros [= H]. by apply IH.
Qed.

Lemma eqb_append_false (s a b : string) :
  a <> b -> String.eqb (s +:+ a) (s +:+ b) = false.
Proof.
  intros Hne. destruct (String.eqb_spec (s +:+ a) (s +:+ b)) as [E|]; [|done].
  by apply append_inj_l in E.
Qed.

Lemma files_only_nil : files_only [].
Proof. by intros f m. Qed.

Lemma files_only_set f data ds :
  files_only ds -> files_only (FS.set_child f (FS.File data) ds).
Proof.
  intros H k m. rewrite child_set_child.
  destruct (String.eqb f k); [by intros [= <-]|apply H].
Qed.

Lemma tidy_nil : tidy [].
Proof. by intros k n. Qed.

Lemma tidy_set s ds cs :
  files_only ds -> tidy cs -> tidy (FS.set_child s (FS.Dir ds) cs).
Proof.
  intros Hds Hcs k n. rewrite child_set_child.
  destruct (String.eqb s k); [intros [= <-]; eauto|apply Hcs].
Qed.

(** Making a directory below an existing one. *)
Lemma mkdir_p_at out q fs n n' :
  FS.get fs out = Some n -> FS.mkdir_p q n = Ok n' ->
  FS.mkdir_p (out ++ q) fs = Ok (put out n' fs).
Proof.
  revert fs. induction out as [|c out IH]; intros fs Hget Hmk; simpl in *.
  - by injection Hget as ->.
  - destruct fs as [|cs]; [done|].
    destruct (FS.child c cs) as [m|] eqn:Hc; [|done]. simpl.
    by rewrite (IH m Hget Hmk).
Qed.

(** The directory of a template is made, or is there already. *)
Lemma mkdir_template out fs cs s :
  FS.get fs out = Some (FS.Dir cs) -> tidy cs ->
  exists ds, files_only ds
    /\ default (FS.Dir []) (FS.child s cs) = FS.Dir ds
    /\ FS.mkdir_p (out ++ [s]) fs
       = Ok (put out (FS.Dir (FS.set_child s (FS.Dir ds) cs)) fs).
Proof.
  intros Hget Htidy.
  assert (exists ds, files_only ds
            /\ default (FS.Dir []) (FS.child s cs) = FS.Dir ds)
    as (ds & Hds & E).
  { destruct (FS.child s cs) as [n|] eqn:Hc; simpl.
    - destruct (Htidy s n Hc) as (ds & -> & Hds). eauto.
    - exists []. split; [apply files_only_nil|done]. }
  exists ds. split; [done|]. split; [done|].
  apply (mkdir_p_at _ _ _ _ _ Hget). simpl. by rewrite E.
Qed.

(** Writing a file into the directory of a template. *)
Lemma write_in_template out fs0 cs0 cs s ds f data :
  FS.get fs0 out = Some (FS.Dir cs0) -> files_only ds ->
  FS.write_text ((out ++ [s]) ++ [f]) data
    (put out (FS.Dir (FS.set_child s (FS.Dir ds) cs)) fs0)
  = Ok (put out
          (FS.Dir (FS.set_child s
             (FS.Dir (FS.set_child f (FS.File (Some data)) ds)) cs)) fs0).
Proof.
  intros Hget Hds. unfold FS.write_text.
  destruct (snoc_not_nil (out ++ [s]) f) as (x & l & E). rewrite E, <- E.
  rewrite parent_snoc, name_snoc.
  pose proof (get_put_here _ _ _ (FS.Dir (FS.set_child s (FS.Dir ds) cs)) Hget)
    as Hout.
  assert (Hdir : FS.get (put out (FS.Dir (FS.set_child s (FS.Dir ds) cs)) fs0)
                   (out ++ [s]) = Some (FS.Dir ds)).
  { rewrite get_app, Hout. simpl. by rewrite child_set_child, String.eqb_refl. }
  rewrite (update_ok _ _ _ _
             (FS.Dir (FS.set_child f (FS.File (Some data)) ds)) Hdir).
  - f_equal.
    rewrite (put_snoc _ out s _ (FS.Dir ds) _ Hout)
      by (by rewrite child_set_child, String.eqb_refl).
    rewrite set_child_twice. by rewrite (put_put _ _ _ _ _ Hget).
  - simpl. destruct (FS.child f ds) as [[|sub]|] eqn:Hc; [done| |done].
    by pose proof (Hds _ _ Hc).
Qed.

(** Rendering a blob that can be decoded gives its text. *)
Lemma render_rendered blob t fs :
  rendered json_pretty blob = Some t ->
  render json_pretty blob fs = (fs, Ok t).
Proof.
  unfold rendered, render, try_ask, ret.
  destruct blob as [[|c b]|]; try by intros [= <-].
  by intros ->.
Qed.

Lemma render_raises blob fs :
  rendered json_pretty blob = None ->
  render json_pretty blob fs = (fs, Raise ValueError).
Proof.
  unfold rendered, render, try_ask.
  destruct blob as [[|c b]|]; try done. by intros ->.
Qed.

(** One row: its directory then holds its four files. *)
Lemma export_row_run st out row fs cs mt sd :
  FS.get fs out = Some (FS.Dir cs) -> tidy cs ->
  rendered json_pretty (manifest row) = Some mt ->
  rendered json_pretty (seed st (slug row)) = Some sd ->
  exists ds,
    export_row json_pretty st out row fs
    = (put out (FS.Dir (FS.set_child (slug row) (FS.Dir ds) cs)) fs, Ok tt)
    /\ files_only ds
    /\ FS.child (slug row +:+ ".html") ds
       = Some (FS.File (Some (default "" (html row))))
    /\ FS.child (slug row +:+ ".txt") ds
       = Some (FS.File (Some (default "" (text row))))
    /\ FS.child (slug row +:+ ".manifest.json") ds = Some (FS.File (Some mt))
    /\ FS.child (slug row +:+ ".seed.json") ds = Some (FS.File (Some sd)).
Proof.
  intros Hget Htidy Hmt Hsd.
  destruct (mkdir_template out fs cs (slug row) Hget Htidy)
    as (ds0 & Hds0 & _ & Hmk).
  eexists. split; [|split].
  - unfold export_row. cbv zeta.
    unfold bindM at 1. unfold lift at 1. rewrite Hmk.
    unfold bindM at 1. unfold lift at 1.
    rewrite (write_in_template _ _ _ _ _ _ _ _ Hget Hds0).
    unfold bindM at 1. unfold lift at 1.
    rewrite (write_in_template _ _ _ _ _ _ _ _ Hget)
      by by apply files_only_set.
    unfold bindM at 1. unfold bindM at 1.
    rewrite (render_rendered _ _ _ Hmt). unfold lift at 1.
    rewrite (write_in_template _ _ _ _ _ _ _ _ Hget)
      by by do 2 apply files_only_set.
    unfold bindM at 1. rewrite (render_rendered _ _ _ Hsd). unfold lift at 1.
    rewrite (write_in_template _ _ _ _ _ _ _ _ Hget)
      by by do 3 apply files_only_set.
    reflexivity.
  - by do 4 apply files_only_set.
  - rewrite !child_set_child, !String.eqb_refl.
    rewrite !eqb_append_false by discriminate. done.
Qed.

(** A row whose manifest cannot be decoded: its directory, its HTML and
    its text are written, then the run stops. *)
Lemma export_row_manifest_raises st out row fs cs :
  FS.get fs out = Some (FS.Dir cs) -> tidy cs ->
  rendered json_pretty (manifest row) = None ->
  exists ds,
    export_row json_pretty st out row fs
    = (put out (FS.Dir (FS.set_child (slug row) (FS.Dir ds) cs)) fs,
       Raise ValueError)
    /\ FS.child (slug row +:+ ".html") ds
       = Some (FS.File (Some (default "" (html row))))
    /\ FS.child (slug row +:+ ".txt") ds
       = Some (FS.File (Some (default "" (text row))))
    /\ FS.child (slug row +:+ ".manifest.json") ds
       = FS.child (slug row +:+ ".manifest.json")
           (match FS.child (slug row) cs with
            | Some (FS.Dir ds0) => ds0
            | _ => []
            end).
Proof.
  intros Hget Htidy Hmt.
  destruct (mkdir_template out fs cs (slug row) Hget Htidy)
    as (ds0 & Hds0 & Hdef & Hmk).
  eexists. split; [|split; [|split]].
  - unfold export_row. cbv zeta.
    unfold bindM at 1. unfold lift at 1. rewrite Hmk.
    unfold bindM at 1. unfold lift at 1.
    rewrite (write_in_template _ _ _ _ _ _ _ _ Hget Hds0).
    unfold bindM at 1. unfold lift at 1.
    rewrite (write_in_template _ _ _ _ _ _ _ _ Hget)
      by by apply files_only_set.
    unfold bindM at 1. unfold bindM at 1.
    rewrite (render_raises _ _ Hmt). reflexivity.
  - rewrite !child_set_child, !String.eqb_refl.
    by rewrite !eqb_append_false by discriminate.
  - by rewrite !child_set_child, !String.eqb_refl.
  - rewrite !child_set_child. rewrite !eqb_append_false by discriminate.
    destruct (FS.child (slug row) cs) as [[t|ds1]|]; simpl in Hdef;
      by try injection Hdef as <-.
Qed.

(** All rows, from a tidy directory: every row is written, the directory
    stays tidy, and what a row wrote is still there at the end unless a
    later row has its slug. *)
Lemma export_rows_run st out rows fs cs :
  FS.get fs out = Some (FS.Dir cs) -> tidy cs ->
  (forall row, row ∈ rows ->
     is_Some (rendered json_pretty (manifest row))
     /\ is_Some (rendered json_pretty (seed st (slug row)))) ->
  exists cs',
    export_rows json_pretty st out rows fs = (put out (FS.Dir cs') fs, Ok tt)
    /\ tidy cs'
    /\ (forall k, k ∉ map slug rows -> FS.child k cs' = FS.child k cs)
    /\ (forall before row after,
          rows = before ++ row :: after -> slug row ∉ map slug after ->
          exists ds mt sd,
            FS.child (slug row) cs' = Some (FS.Dir ds)
            /\ rendered json_pretty (manifest row) = Some mt
            /\ rendered json_pretty (seed st (slug row)) = Some sd
            /\ FS.child (slug row +:+ ".html") ds
               = Some (FS.File (Some (default "" (html row))))
            /\ FS.child (slug row +:+ ".txt") ds
               = Some (FS.File (Some (default "" (text row))))
            /\ FS.child (slug row +:+ ".manifest.json") ds
               = Some (FS.File (Some mt))
            /\ FS.child (slug row +:+ ".seed.json") ds
               = Some (FS.File (Some sd))).
Proof.
  revert fs cs. induction rows as [|r rows IH]; intros fs cs Hget Htidy Hdec.
  - exists cs. cbn [export_rows]. unfold ret.
    rewrite (put_same _ _ _ Hget). split; [done|]. split; [done|].
    split; [done|]. intros [|? ?] ? ? E; discriminate E.
  - destruct (Hdec r ltac:(by left)) as [[mt Hmt] [sd Hsd]].
    destruct (export_row_run st out r fs cs mt sd Hget Htidy Hmt Hsd)
      as (ds & Hrow & Hds & Hfiles).
    pose proof (get_put_here _ _ _
                  (FS.Dir (FS.set_child (slug r) (FS.Dir ds) cs)) Hget) as Hget1.
    destruct (IH _ _ Hget1 (tidy_set _ _ _ Hds Htidy))
      as (cs' & Hrows & Htidy' & Hkeep & Hcont).
    { intros row Hrow'. apply Hdec. by right. }
    exists cs'. split; [|split; [done|split]].
    + cbn [export_rows]. unfold bindM. rewrite Hrow, Hrows.
      by rewrite (put_put _ _ _ _ _ Hget).
    + intros k Hk. cbn [map] in Hk. apply not_elem_of_cons in Hk as [Hne Hk].
      rewrite (Hkeep k Hk), child_set_child.
      by destruct (String.eqb_spec (slug r) k).
    + intros [|r0 before] row after E Hnot.
      * injection E as -> ->. exists ds, mt, sd. split; [|done].
        rewrite (Hkeep _ Hnot), child_set_child. by rewrite String.eqb_refl.
      * injection E as -> ->. by apply (Hcont before row after).
Qed.

Lemma export_rows_app st out rows1 rows2 fs :
  export_rows json_pretty st out (rows1 ++ rows2) fs
  = bindM (export_rows json_pretty st out rows1)
      (fun _ => export_rows json_pretty st out rows2) fs.
Proof.
  revert fs. induction rows1 as [|r rows1 IH]; intros fs; [done|].
  cbn [app export_rows]. unfold bindM.
  destruct (export_row json_pretty st out r fs) as [fs1 [[]| |]]; [|done|done].
  rewrite IH. reflexivity.
Qed.

Lemma last_occurrence (rows : list template) k :
  k ∈ map slug rows ->
  exists before row after,
    rows = before ++ row :: after /\ slug row = k
    /\ slug row ∉ map slug after.
Proof.
  intros Hk. induction rows as [|r rows IH]; [by apply elem_of_nil in Hk|].
  destruct (decide (k ∈ map slug rows)) as [Hin|Hnin].
  - destruct (IH Hin) as (b & row & a & -> & <- & Hnot).
    by exists (r :: b), row, a.
  - cbn [map] in Hk. apply elem_of_cons in Hk as [->|Hk]; [|done].
    by exists [], r, rows.
Qed.

Lemma way_clear_get p fs :
  way_clear p fs = true ->
  FS.get fs p = None \/ exists cs, FS.get fs p = Some (FS.Dir cs).
Proof.
  revert fs. induction p as [|c p IH]; intros [t|cs] H; simpl in *; try done.
  - right. eauto.
  - destruct (FS.child c cs) as [m|]; [by apply IH|by left].
Qed.

Lemma get_way_clear p fs cs :
  FS.get fs p = Some (FS.Dir cs) -> way_clear p fs = true.
Proof.
  revert fs. induction p as [|c p IH]; intros [t|cs0] H; simpl in *; try done.
  destruct (FS.child c cs0) as [m|]; [by apply IH|done].
Qed.

Lemma mkdir_p_raises p fs :
  way_clear p fs = false -> FS.mkdir_p p fs = Raise OSError.
Proof.
  revert fs. induction p as [|c p IH]; intros [t|cs] H; simpl in *; try done.
  destruct (FS.child c cs) as [m|]; simpl; [|done].
  by rewrite (IH m H).
Qed.

(** Clearing succeeds when no file is in the way, and leaves an empty
    directory. *)
Lemma ensure_clean_directory_succeeds out fs :
  way_clear out fs = true ->
  exists fs1,
    ensure_clean_directory (S (FS.height fs)) out fs = (fs1, Ok tt)
    /\ FS.get fs1 out = Some (FS.Dir []).
Proof.
  intros Hway.
  assert (exists fs1,
            ensure_clean_directory (S (FS.height fs)) out fs = (fs1, Ok tt))
    as [fs1 H].
  { destruct (way_clear_get _ _ Hway) as [Hget|[cs Hget]].
    - cbn [ensure_clean_directory]. unfold bindM at 1. unfold bindM at 1.
      unfold ask at 1. unfold FS.exists_at.
      rewrite bool_decide_false by (rewrite Hget; by intros []).
      unfold ret, lift. rewrite <- mkdir_p_way_clear in Hway.
      destruct (FS.mkdir_p out fs); [eauto|done|done].
    - rewrite (ensure_clean_directory_spec _ _ _ cs Hget); [eauto|].
      pose proof (height_get _ _ _ Hget). lia. }
  exists fs1. split; [done|]. by apply (ensure_clean_directory_result _ _ _ H).
Qed.

(** When a file is in the way, clearing raises and changes nothing. *)
Lemma ensure_clean_directory_blocked out fs :
  way_clear out fs = false ->
  ensure_clean_directory (S (FS.height fs)) out fs = (fs, Raise OSError).
Proof.
  intros Hway. cbn [ensure_clean_directory].
  unfold bindM at 1. unfold bindM at 1. unfold ask at 1. unfold FS.exists_at.
  destruct (FS.get fs out) as [[t|cs]|] eqn:Hget.
  - rewrite bool_decide_true by by eexists.
    unfold bindM at 1. unfold try_ask at 1. unfold FS.listdir.
    by rewrite Hget.
  - by rewrite (get_way_clear _ _ _ Hget) in Hway.
  - rewrite bool_decide_false by by intros [].
    unfold ret, lift. by rewrite (mkdir_p_raises _ _ Hway).
Qed.

Lemma write_catalog out fs cs data :
  FS.get fs out = Some (FS.Dir cs) ->
  FS.write_text (out ++ ["catalog.json"]) data fs
  = match FS.child "catalog.json" cs with
    | Some (FS.Dir _) => Raise OSError
    | _ => Ok (put out (FS.Dir (FS.set_child "catalog.json"
                                  (FS.File (Some data)) cs)) fs)
    end.
Proof.
  intros Hget. unfold FS.write_text.
  destruct (snoc_not_nil out "catalog.json") as (x & l & E). rewrite E, <- E.
  rewrite parent_snoc, name_snoc.
  destruct (FS.child "catalog.json" cs) as [[t|sub]|] eqn:Hc.
  - apply (update_ok _ _ _ _ _ Hget). simpl. by rewrite Hc.
  - clear E. revert fs Hget. induction out as [|c out IH]; intros fs Hget.
    + simpl in *. injection Hget as ->. simpl. by rewrite Hc.
    + simpl in *. destruct fs as [|cs0]; [done|].
      destruct (FS.child c cs0) as [m|]; [|done]. by rewrite (IH m Hget).
  - apply (update_ok _ _ _ _ _ Hget). simpl. by rewrite Hc.
Qed.

End ExportRun.


Section ExportExtras.
Import Layout ExportTemplates Examples.

(** X17.  When no file stands at the output directory or on the way to it,
    every manifest and seed can be decoded and no template has the slug
    "catalog.json" (the slugs being plain names), the run ends normally;
    the catalog file then holds the catalog of all templates, and for every
    template whose slug no later template has, its four files hold its
    HTML, its text, its manifest and its seed, an absent column giving an
    empty file or an empty JSON object. *)
Theorem export_main_writes_every_template
    json_pretty catalog_text st out ver now fs :
  plain_store st ->
  decodable json_pretty st ->
  way_clear out fs = true ->
  "catalog.json" ∉ map slug (templates st) ->
  exists fs',
    main json_pretty catalog_text (Some st) out ver now fs = (fs', Ok tt)
    /\ text_at (out ++ ["catalog.json"]) fs'
       = Some (catalog_text ver now (templates st))
    /\ (forall before row after,
          templates st = before ++ row :: after ->
          slug row ∉ map slug after ->
          text_at (out ++ [slug row; slug row +:+ ".html"]) fs'
            = Some (default "" (html row))
          /\ text_at (out ++ [slug row; slug row +:+ ".txt"]) fs'
            = Some (default "" (text row))
          /\ text_at (out ++ [slug row; slug row +:+ ".manifest.json"]) fs'
            = rendered json_pretty (manifest row)
          /\ text_at (out ++ [slug row; slug row +:+ ".seed.json"]) fs'
            = rendered json_pretty (seed st (slug row))).
Proof.
  intros _ Hdec Hway Hcat.
  destruct (ensure_clean_directory_succeeds out fs Hway)
    as (fs1 & Hclean & Hget1).
  destruct (export_rows_run json_pretty st out (templates st) fs1 [] Hget1
              tidy_nil Hdec) as (cs' & Hrows & _ & Hkeep & Hcont).
  pose proof (get_put_here _ _ _ (FS.Dir cs') Hget1) as Hget2.
  pose proof (Hkeep _ Hcat) as Hc. simpl in Hc.
  eexists. split; [|split].
  - unfold main, bindM. rewrite Hclean. unfold export_templates, bindM.
    rewrite Hrows. unfold lift. rewrite (write_catalog _ _ _ _ Hget2), Hc.
    rewrite (put_put _ _ _ _ _ Hget1). reflexivity.
  - unfold text_at. rewrite (get_put _ _ _ _ _ Hget1). simpl.
    by rewrite child_set_child, String.eqb_refl.
  - intros before row after E Hnot.
    destruct (Hcont before row after E Hnot)
      as (ds & mt & sd & Hd & Hmt & Hsd & H1 & H2 & H3 & H4).
    assert (Hne : String.eqb "catalog.json" (slug row) = false).
    { destruct (String.eqb_spec "catalog.json" (slug row)) as [Heq|]; [|done].
      destruct Hcat. rewrite E, Heq, map_app. cbn [map].
      apply elem_of_app. right. by left. }
    unfold text_at. rewrite !(get_put _ _ _ _ _ Hget1). simpl.
    rewrite child_set_child, Hne, Hd, H1, H2, H3, H4, Hmt, Hsd. done.
Qed.

Lemma export_main_writes_every_template_witness :
  exists fs',
    main ascii_only catalog_stub (Some two_templates) export_dir 1 "now"
      stale_tree
    = (fs', Ok tt)
    /\ text_at (export_dir ++ ["catalog.json"]) fs'
       = Some (catalog_stub 1 "now" (templates two_templates))
    /\ (forall before row after,
          templates two_templates = before ++ row :: after ->
          slug row ∉ map slug after ->
          text_at (export_dir ++ [slug row; slug row +:+ ".html"]) fs'
            = Some (default "" (html row))
          /\ text_at (export_dir ++ [slug row; slug row +:+ ".txt"]) fs'
            = Some (default "" (text row))
          /\ text_at (export_dir ++ [slug row; slug row +:+ ".manifest.json"])
               fs'
            = rendered ascii_only (manifest row)
          /\ text_at (export_dir ++ [slug row; slug row +:+ ".seed.json"]) fs'
            = rendered ascii_only (seed two_templates (slug row))).
Proof.
  apply (export_main_writes_every_template ascii_only catalog_stub
           two_templates export_dir 1 "now" stale_tree).
  - repeat constructor.
  - intros row H. cbn in H.
    repeat (apply elem_of_cons in H as [->|H];
            [split; vm_compute; by eexists|]).
    by apply elem_of_nil in H.
  - reflexivity.
  - intros H. cbn in H.
    repeat (apply elem_of_cons in H as [H|H]; [discriminate H|]).
    by apply elem_of_nil in H.
Defined.

(** X18.  When a template has the slug "catalog.json" (the slugs being
    plain names, every manifest and seed decodable and no file in the way
    of the output directory), the run writes the templates and then fails
    with an [OSError] on the catalog: a directory of that name is in its
    place, and no catalog is written. *)
Theorem export_fails_on_catalog_slug
    json_pretty catalog_text st out ver now fs :
  plain_store st ->
  decodable json_pretty st ->
  way_clear out fs = true ->
  "catalog.json" ∈ map slug (templates st) ->
  exists fs',
    main json_pretty catalog_text (Some st) out ver now fs
    = (fs', Raise OSError)
    /\ FS.is_dir_at (out ++ ["catalog.json"]) fs' = true.
Proof.
  intros _ Hdec Hway Hcat.
  destruct (ensure_clean_directory_succeeds out fs Hway)
    as (fs1 & Hclean & Hget1).
  destruct (export_rows_run json_pretty st out (templates st) fs1 [] Hget1
              tidy_nil Hdec) as (cs' & Hrows & _ & _ & Hcont).
  pose proof (get_put_here _ _ _ (FS.Dir cs') Hget1) as Hget2.
  destruct (last_occurrence _ _ Hcat) as (b & row & a & E & Hslug & Hnot).
  destruct (Hcont b row a E Hnot) as (ds & mt & sd & Hd & _).
  rewrite Hslug in Hd.
  eexists. split.
  - unfold main, bindM. rewrite Hclean. unfold export_templates, bindM.
    rewrite Hrows. unfold lift. rewrite (write_catalog _ _ _ _ Hget2), Hd.
    reflexivity.
  - unfold FS.is_dir_at. rewrite get_app, Hget2. simpl. by rewrite Hd.
Qed.

Lemma export_fails_on_catalog_slug_witness :
  exists fs',
    main ascii_only catalog_stub (Some catalog_clash) export_dir 1 "now"
      stale_tree
    = (fs', Raise OSError)
    /\ FS.is_dir_at (export_dir ++ ["catalog.json"]) fs' = true.
Proof.
  apply (export_fails_on_catalog_slug ascii_only catalog_stub catalog_clash
           export_dir 1 "now" stale_tree).
  - repeat constructor.
  - intros row H. cbn in H.
    repeat (apply elem_of_cons in H as [->|H];
            [split; vm_compute; by eexists|]).
    by apply elem_of_nil in H.
  - reflexivity.
  - cbn. by left.
Defined.

(** X19.  When the output path is a file, or a file stands on the way to
    it, the run fails with an [OSError] before anything is changed. *)
Theorem export_blocked_output_raises
    json_pretty catalog_text st out ver now fs :
  way_clear out fs = false ->
  main json_pretty catalog_text (Some st) out ver now fs
  = (fs, Raise OSError).
Proof.
  intros Hway. unfold main, bindM.
  by rewrite (ensure_clean_directory_blocked _ _ Hway).
Qed.

Lemma export_blocked_output_raises_witness :
  main as_is catalog_stub (Some two_templates) ["keep.txt"; "templates"] 1
    "now" stale_tree
  = (stale_tree, Raise OSError).
Proof.
  apply (export_blocked_output_raises as_is catalog_stub two_templates
           ["keep.txt"; "templates"] 1 "now" stale_tree).
  reflexivity.
Defined.

(** X21.  A manifest that cannot be decoded stops the run with a
    [ValueError] at its row, when the rows before it could be exported:
    the HTML and the text of the row are written by then, and no catalog is
    written. *)
Theorem export_stops_at_undecodable_manifest
    json_pretty catalog_text st out ver now fs before row after :
  plain_store st ->
  way_clear out fs = true ->
  templates st = before ++ row :: after ->
  (forall r, r ∈ before ->
     is_Some (rendered json_pretty (manifest r))
     /\ is_Some (rendered json_pretty (seed st (slug r)))) ->
  rendered json_pretty (manifest row) = None ->
  exists fs',
    main json_pretty catalog_text (Some st) out ver now fs
    = (fs', Raise ValueError)
    /\ text_at (out ++ [slug row; slug row +:+ ".html"]) fs'
       = Some (default "" (html row))
    /\ text_at (out ++ [slug row; slug row +:+ ".txt"]) fs'
       = Some (default "" (text row))
    /\ text_at (out ++ ["catalog.json"]) fs' = None.
Proof.
  intros _ Hway Hrows Hdec Hbad.
  destruct (ensure_clean_directory_succeeds out fs Hway)
    as (fs1 & Hclean & Hget1).
  destruct (export_rows_run json_pretty st out before fs1 [] Hget1 tidy_nil
              Hdec) as (cs' & Hbefore & Htidy & _ & _).
  pose proof (get_put_here _ _ _ (FS.Dir cs') Hget1) as Hget2.
  destruct (export_row_manifest_raises json_pretty st out row _ cs' Hget2
              Htidy Hbad) as (ds & Hrow & Hhtml & Htxt & _).
  eexists. split; [|split; [|split]].
  - unfold main, bindM. rewrite Hclean. unfold export_templates, bindM.
    rewrite Hrows, export_rows_app. unfold bindM. rewrite Hbefore.
    cbn [export_rows]. unfold bindM. rewrite Hrow. reflexivity.
  - unfold text_at. rewrite (put_put _ _ _ _ _ Hget1).
    rewrite (get_put _ _ _ _ _ Hget1). simpl.
    by rewrite child_set_child, String.eqb_refl, Hhtml.
  - unfold text_at. rewrite (put_put _ _ _ _ _ Hget1).
    rewrite (get_put _ _ _ _ _ Hget1). simpl.
    by rewrite child_set_child, String.eqb_refl, Htxt.
  - unfold text_at. rewrite (put_put _ _ _ _ _ Hget1).
    rewrite (get_put _ _ _ _ _ Hget1). simpl. rewrite child_set_child.
    destruct (String.eqb (slug row) "catalog.json"); [done|].
    destruct (FS.child "catalog.json" cs') as [n|] eqn:Hc; [|done].
    by destruct (Htidy _ _ Hc) as (sub & -> & _).
Qed.

Lemma export_stops_at_undecodable_manifest_witness :
  exists fs',
    main ascii_only catalog_stub (Some bad_manifest) export_dir 1 "now"
      stale_tree
    = (fs', Raise ValueError)
    /\ text_at (export_dir ++ ["modern"; "modern" +:+ ".html"]) fs'
       = Some "<m>"
    /\ text_at (export_dir ++ ["modern"; "modern" +:+ ".txt"]) fs' = Some "m"
    /\ text_at (export_dir ++ ["catalog.json"]) fs' = None.
Proof.
  apply (export_stops_at_undecodable_manifest ascii_only catalog_stub
           bad_manifest export_dir 1 "now" stale_tree
           [Template "Classic" "classic" false (Some "<c>") (Some "c")
              (Some "{1}")]
           (Template "Modern" "modern" true (Some "<m>") (Some "m")
              (Some (String (ascii_of_nat 255) EmptyString)))
           []).
  - repeat constructor.
  - reflexivity.
  - reflexivity.
  - intros r Hr. apply list_elem_of_singleton in Hr as ->.
    split; vm_compute; by eexists.
  - reflexivity.
Defined.

End ExportExtras.


(** ** Runs on the file system *)

Section LiveFacts.
Import Flatten Layout.
Variable scan_order : list (FS.path * FS.node) -> list (FS.path * FS.node).
Variable flushed : string -> string.

Lemma apart_sym (p q : FS.path) : apart p q -> apart q p.
Proof. intros [H1 H2]. by split. Qed.

(** Writing a file into an existing directory. *)
Lemma write_child out fs cs n data :
  FS.get fs out = Some (FS.Dir cs) ->
  FS.write_text (out ++ [n]) data fs
  = match FS.child n cs with
    | Some (FS.Dir _) => Raise OSError
    | _ => Ok (put out (FS.Dir (FS.set_child n (FS.File (Some data)) cs)) fs)
    end.
Proof.
  intros Hget. unfold FS.write_text.
  destruct (snoc_not_nil out n) as (x & l & E). rewrite E, <- E.
  rewrite parent_snoc, name_snoc.
  destruct (FS.child n cs) as [[t|sub]|] eqn:Hc.
  - apply (update_ok _ _ _ _ _ Hget). simpl. by rewrite Hc.
  - clear E. revert fs Hget. induction out as [|c out IH]; intros fs Hget.
    + simpl in *. injection Hget as ->. simpl. by rewrite Hc.
    + simpl in *. destruct fs as [|cs0]; [done|].
      destruct (FS.child c cs0) as [m|]; [|done]. by rewrite (IH m Hget).
  - apply (update_ok _ _ _ _ _ Hget). simpl. by rewrite Hc.
Qed.

Lemma overlay_files_only cs0 cs files n sub :
  files_only cs0 -> overlay cs0 cs files -> FS.child n cs <> Some (FS.Dir sub).
Proof.
  intros H0 Hov Hc. rewrite (Hov n) in Hc.
  destruct (files !! n); [done|]. by pose proof (H0 _ _ Hc).
Qed.

Lemma overlay_insert cs0 cs files n t :
  overlay cs0 cs files ->
  overlay cs0 (FS.set_child n (FS.File (Some t)) cs) (<[n := t]> files).
Proof.
  intros Hov k. rewrite child_set_child.
  destruct (String.eqb_spec n k) as [->|Hne].
  - by rewrite lookup_insert_eq.
  - rewrite lookup_insert_ne by done. apply Hov.
Qed.

(** While the archive is not one of the files it is made of, the loop
    writes what [Flatten.combine_loop] writes. *)
Lemma live_combine_loop root out_file files line_counter written acc seen :
  (forall f, f ∈ files -> root ++ f.1 <> out_file) ->
  (Live.combine_loop flushed root out_file files line_counter written acc
     seen).1.1
  = (combine_loop files line_counter written acc).1
  /\ (Live.combine_loop flushed root out_file files line_counter written acc
        seen).2
     = (combine_loop files line_counter written acc).2.
Proof.
  revert line_counter written acc seen.
  induction files as [|f files IH]; intros lc w acc seen Hself; [done|].
  cbn [Live.combine_loop combine_loop].
  rewrite decide_False by (apply Hself; by left).
  destruct (FS.read_text f.2) as [contents| |]; [|done|done].
  apply IH. intros g Hg. apply Hself. by right.
Qed.

Lemma live_root_node root r s :
  FS.get (Live.disk s) root = Some r -> Live.root_node root s = r.
Proof. unfold Live.root_node. by intros ->. Qed.

End LiveFacts.

(** ** When the file system and the world agree *)

Section LiveAgrees.
Import Flatten Layout.
Variable scan_order : list (FS.path * FS.node) -> list (FS.path * FS.node).
Variable flushed : string -> string.
Variables root out : FS.path.
Variable r : FS.node.
Variable cs0 : list (string * FS.node).
Variable fs0 : FS.node.
Hypothesis Hapart : apart root out.
Hypothesis Hfiles : files_only cs0.

Lemma not_self (rel : FS.path) n : root ++ rel <> out ++ [n].
Proof.
  intros E. apply (apart_below out [n] root (apart_sym _ _ Hapart)).
  exists rel. by rewrite E.
Qed.

Lemma live_combine_swift_files subdirs lbl s w :
  mirrors root out r cs0 fs0 s w ->
  (Live.combine_swift_files scan_order flushed root subdirs out lbl s).2
  = (combine_swift_files scan_order r subdirs lbl w).2
  /\ mirrors root out r cs0 fs0
       (Live.combine_swift_files scan_order flushed root subdirs out lbl s).1
       (combine_swift_files scan_order r subdirs lbl w).1.
Proof.
  intros Hm. pose proof Hm as (Hpr & Hroot & (cs & Hout & Hov) & Hframe).
  unfold Live.combine_swift_files, combine_swift_files.
  rewrite (live_root_node _ _ _ Hroot). cbv zeta.
  destruct (concat (map (gather_swift_files scan_order r) subdirs))
    as [|f0 files] eqn:Hall; [done|].
  set (sorted_files := sorted path_lt (f0 :: files)).
  destruct (live_combine_loop flushed root (out ++ [out_name subdirs +:+ ".txt"])
              sorted_files 1 "" [] []) as [Htext Hres].
  { intros f _. apply not_self. }
  rewrite (write_child _ _ _ _ _ Hout).
  destruct (FS.child (out_name subdirs +:+ ".txt") cs) as [[t|sub]|] eqn:Hc;
    [|by destruct (overlay_files_only _ _ _ _ sub Hfiles Hov Hc)|].
  all: rewrite Hres, Htext.
  all: assert (Hm' : mirrors root out r cs0 fs0
         (Live.State
            (put out
               (FS.Dir
                  (FS.set_child (out_name subdirs +:+ ".txt")
                     (FS.File (Some (combine_loop sorted_files 1 "" []).1)) cs))
               (Live.disk s))
            (Live.printed s)
            (Live.reads s
             ++ (Live.combine_loop flushed root
                   (out ++ [out_name subdirs +:+ ".txt"]) sorted_files 1 "" []
                   []).1.2)
            (Live.writes s ++ [out ++ [out_name subdirs +:+ ".txt"]]))
         (write_file (out_name subdirs +:+ ".txt")
            (combine_loop sorted_files 1 "" []).1 w)).
  all: try (split; [exact Hpr|]; split;
       [simpl; by rewrite (get_put_apart _ _ _ _ (apart_sym _ _ Hapart))|];
       split;
       [eexists; split; [simpl; by eapply get_put_here|by apply overlay_insert]|];
       intros q Hq; simpl; by rewrite (get_put_apart _ _ _ _ Hq), Hframe).
  all: by destruct (combine_loop sorted_files 1 "" []).2.
Qed.

Lemma live_flatten_groups groups ix mi s w :
  mirrors root out r cs0 fs0 s w ->
  (Live.flatten_groups scan_order flushed root out groups ix mi s).2
  = (flatten_groups scan_order r groups ix mi w).2
  /\ mirrors root out r cs0 fs0
       (Live.flatten_groups scan_order flushed root out groups ix mi s).1
       (flatten_groups scan_order r groups ix mi w).1.
Proof.
  revert ix mi s w. induction groups as [|g groups IH]; intros ix mi s w Hm;
    [done|].
  cbn [Live.flatten_groups flatten_groups]. cbv zeta.
  destruct (live_combine_swift_files (map (fun g => [g]) g) None s w Hm)
    as [Hres Hm1].
  rewrite Hres.
  destruct (combine_swift_files scan_order r (map (fun g => [g]) g) None w).2
    as [[[lbl [|e entries]]|]| |]; try done; by apply IH.
Qed.

Lemma live_count_dir st w d :
  mirrors root out r cs0 fs0 st.2 w ->
  (Live.count_dir scan_order root st d).1
  = (count_dir scan_order r (st.1, w) d).1
  /\ mirrors root out r cs0 fs0 (Live.count_dir scan_order root st d).2
       (count_dir scan_order r (st.1, w) d).2.
Proof.
  intros (Hpr & Hroot & Hout & Hframe).
  unfold Live.count_dir, count_dir, Live.count_lines_in_dir, count_lines_in_dir.
  rewrite (live_root_node _ _ _ Hroot). cbv zeta. simpl.
  split; [done|]. split; [simpl; by rewrite Hpr|]. done.
Qed.

Lemma live_counted subdirs st w :
  mirrors root out r cs0 fs0 st.2 w ->
  (foldl (Live.count_dir scan_order root) st subdirs).1
  = (foldl (count_dir scan_order r) (st.1, w) subdirs).1
  /\ mirrors root out r cs0 fs0
       (foldl (Live.count_dir scan_order root) st subdirs).2
       (foldl (count_dir scan_order r) (st.1, w) subdirs).2.
Proof.
  revert st w. induction subdirs as [|d subdirs IH]; intros st w Hm; [done|].
  cbn [foldl]. destruct (live_count_dir st w d Hm) as [E Hm1].
  destruct (IH _ _ Hm1) as [E2 Hm2].
  rewrite E in E2, Hm2.
  by rewrite <- (surjective_pairing (count_dir scan_order r (st.1, w) d))
    in E2, Hm2.
Qed.

Lemma live_decide_groups a subdirs dir_locs s w :
  mirrors root out r cs0 fs0 s w ->
  (Live.decide_groups (max_files a) subdirs dir_locs s).2
  = (decide_groups a subdirs dir_locs w).2
  /\ mirrors root out r cs0 fs0
       (Live.decide_groups (max_files a) subdirs dir_locs s).1
       (decide_groups a subdirs dir_locs w).1.
Proof.
  intros Hm. unfold Live.decide_groups, decide_groups.
  destruct (max_files a) as [m|]; [|done].
  destruct (negb (m =? 0) && (Z.of_nat (length subdirs) >? m))%bool; [|done].
  cbv zeta. split; [done|].
  destruct Hm as (Hpr & Hroot & Hout & Hframe).
  split; [simpl; by rewrite Hpr|]. done.
Qed.

End LiveAgrees.

Section LiveMain.
Import Flatten Layout.
Variable scan_order : list (FS.path * FS.node) -> list (FS.path * FS.node).
Variable flushed : string -> string.

Lemma join_snoc sep (l : list string) x :
  l <> [] -> join sep (l ++ [x]) = join sep l +:+ sep +:+ x.
Proof.
  induction l as [|a l IH]; [done|]. intros _.
  destruct l as [|b l]; [reflexivity|].
  change (join sep ((a :: b :: l) ++ [x]))
    with (a +:+ sep +:+ join sep ((b :: l) ++ [x])).
  rewrite IH by done.
  change (join sep (a :: b :: l)) with (a +:+ sep +:+ join sep (b :: l)).
  by rewrite !append_assoc.
Qed.

Lemma abs_str_snoc (p : FS.path) x :
  p <> [] -> Live.abs_str (p ++ [x]) = Live.abs_str p +:+ "/" +:+ x.
Proof.
  intros Hp. unfold Live.abs_str, FS.to_str. rewrite (join_snoc _ _ _ Hp).
  by rewrite !append_assoc.
Qed.

Lemma apart_not_nil (p q : FS.path) : apart p q -> q <> [].
Proof. intros [H _] ->. apply H. apply prefix_nil. Qed.

Lemma live_create_index_file root out r cs0 fs0 ix mi s w :
  apart root out -> files_only cs0 ->
  mirrors root out r cs0 fs0 s w ->
  (Live.create_index_file ix out mi s).2 = Ok tt
  /\ mirrors root out r cs0 fs0 (Live.create_index_file ix out mi s).1
       (create_index_file ix (Live.abs_str out) mi w).
Proof.
  intros Hapart Hfiles (Hpr & Hroot & (cs & Hout & Hov) & Hframe).
  unfold Live.create_index_file, create_index_file. cbv zeta.
  rewrite (write_child _ _ _ _ _ Hout).
  assert (Hm : mirrors root out r cs0 fs0
            (Live.print
               ("Created index file: "
                +:+ Live.abs_str (out ++ ["SourceIndex.txt"]))
               (Live.State
                  (put out
                     (FS.Dir (FS.set_child "SourceIndex.txt"
                                (FS.File (Some (index_text ix mi))) cs))
                     (Live.disk s))
                  (Live.printed s) (Live.reads s)
                  (Live.writes s ++ [out ++ ["SourceIndex.txt"]])))
            (print ("Created index file: " +:+ Live.abs_str out
                    +:+ "/SourceIndex.txt")
               (write_file "SourceIndex.txt" (index_text ix mi) w))).
  { split; [|split; [|split]].
    - simpl. rewrite Hpr, (abs_str_snoc _ _ (apart_not_nil _ _ Hapart)).
      reflexivity.
    - simpl. by rewrite (get_put_apart _ _ _ _ (apart_sym _ _ Hapart)).
    - eexists. split; [simpl; by eapply get_put_here|].
      by apply overlay_insert.
    - intros q Hq. simpl. by rewrite (get_put_apart _ _ _ _ Hq), Hframe. }
  destruct (FS.child "SourceIndex.txt" cs) as [[t|sub]|] eqn:Hc; [done| |done].
  by destruct (overlay_files_only _ _ _ _ sub Hfiles Hov Hc).
Qed.

(** Making the output directory leaves a state that mirrors the empty
    world. *)
Lemma live_setup root out fs r pr rd wr :
  apart root out ->
  way_clear out fs = true ->
  (forall cs, FS.get fs out = Some (FS.Dir cs) -> files_only cs) ->
  FS.get fs root = Some r ->
  exists made cs0,
    FS.mkdir_p out fs = Ok made
    /\ (FS.get fs out = Some (FS.Dir cs0) \/ (FS.get fs out = None /\ cs0 = []))
    /\ files_only cs0
    /\ FS.get made root = Some r
    /\ mirrors root out r cs0 made (Live.State made pr rd wr) (World ∅ pr).
Proof.
  intros Hapart Hway Hout_files Hroot.
  pose proof Hway as Hmk. rewrite <- mkdir_p_way_clear in Hmk.
  destruct (FS.mkdir_p out fs) as [made| |] eqn:Emk; [|done|done]. clear Hmk.
  destruct (mkdir_p_result _ _ _ Emk) as (cs0 & Hmade_out & Hcase).
  assert (Hfiles : files_only cs0).
  { destruct Hcase as [H|[_ ->]]; [by apply Hout_files|apply files_only_nil]. }
  assert (Hmade_root : FS.get made root = Some r).
  { rewrite (mkdir_p_frame _ _ _ Emk); [done|]. apply Hapart. }
  exists made, cs0. split; [done|]. split; [done|]. split; [done|].
  split; [done|].
  split; [done|]. split; [done|]. split; [|done].
  exists cs0. split; [done|]. intros n. cbn [out_files].
  by rewrite lookup_empty.
Qed.

(** The run on the file system is the run of [Flatten.main] on the tree
    [root_dir] holds, when the output directory lies outside [root_dir],
    [root_dir] outside the output directory, and the output directory can
    be made and holds no directory: the outcome and the lines printed are
    the same, the output directory then holds the files of the world over
    what it held, and nothing else has changed. *)
Lemma live_main root out m fs r pr rd wr :
  apart root out ->
  way_clear out fs = true ->
  (forall cs, FS.get fs out = Some (FS.Dir cs) -> files_only cs) ->
  FS.get fs root = Some r ->
  (Live.main scan_order flushed root out m (Live.State fs pr rd wr)).2
  = (main scan_order r (Args (Live.abs_str out) m) (World ∅ pr)).2
  /\ Live.printed
       (Live.main scan_order flushed root out m (Live.State fs pr rd wr)).1
     = stdout (main scan_order r (Args (Live.abs_str out) m) (World ∅ pr)).1
  /\ (forall n,
        FS.get
          (Live.disk
             (Live.main scan_order flushed root out m
                (Live.State fs pr rd wr)).1) (out ++ [n])
        = match out_files
                  (main scan_order r (Args (Live.abs_str out) m)
                     (World ∅ pr)).1 !! n with
          | Some t => Some (FS.File (Some t))
          | None => FS.get fs (out ++ [n])
          end)
  /\ (forall q, apart out q ->
        FS.get
          (Live.disk
             (Live.main scan_order flushed root out m
                (Live.State fs pr rd wr)).1) q
        = FS.get fs q)
  /\ (exists cs,
        FS.get
          (Live.disk
             (Live.main scan_order flushed root out m
                (Live.State fs pr rd wr)).1) out
        = Some (FS.Dir cs)
        /\ files_only cs).
Proof.
  intros Hapart Hway Hout_files Hroot.
  destruct (live_setup root out fs r pr rd wr Hapart Hway Hout_files Hroot)
    as (made & cs0 & Emk & Hcase & Hfiles & Hmade_root & Hm0).
  assert (Hend : forall s w,
            mirrors root out r cs0 made s w ->
            Live.printed s = stdout w
            /\ (forall n,
                  FS.get (Live.disk s) (out ++ [n])
                  = match out_files w !! n with
                    | Some t => Some (FS.File (Some t))
                    | None => FS.get fs (out ++ [n])
                    end)
            /\ (forall q, apart out q -> FS.get (Live.disk s) q = FS.get fs q)
            /\ (exists cs, FS.get (Live.disk s) out = Some (FS.Dir cs)
                           /\ files_only cs)).
  { intros s w (Hpr & _ & (cs & Hout & Hov) & Hframe).
    split; [done|]. split; [|split].
    - intros n. rewrite get_app, Hout. simpl. rewrite (Hov n).
      destruct (out_files w !! n); [done|].
      rewrite get_app. destruct Hcase as [->|[-> ->]]; done.
    - intros q Hq. rewrite (Hframe q Hq).
      apply (mkdir_p_frame _ _ _ Emk). apply Hq.
    - exists cs. split; [done|]. intros f n Hc. rewrite (Hov f) in Hc.
      destruct (out_files w !! f); [by injection Hc as <-|].
      by apply (Hfiles f). }
  assert (Hmain :
            (Live.main scan_order flushed root out m
               (Live.State fs pr rd wr)).2
            = (main scan_order r (Args (Live.abs_str out) m) (World ∅ pr)).2
            /\ mirrors root out r cs0 made
                 (Live.main scan_order flushed root out m
                    (Live.State fs pr rd wr)).1
                 (main scan_order r (Args (Live.abs_str out) m)
                    (World ∅ pr)).1).
  { unfold Live.main, main.
    cbn [Live.disk Live.printed Live.reads Live.writes].
    rewrite Emk. cbv zeta. rewrite Hmade_root.
    destruct (iterdir scan_order r) as [listing| |]; [|done..].
    set (subdirs := filter (fun d : FS.path * FS.node => FS.is_dir d.2)
                      (sorted path_lt listing)).
    destruct (live_counted scan_order root out r cs0 made subdirs
                ([], Live.State made pr rd wr) (World ∅ pr) Hm0) as [E1 Hm1].
    cbn [fst snd] in E1, Hm1. rewrite E1.
    set (lc := foldl (Live.count_dir scan_order root)
                 ([], Live.State made pr rd wr) subdirs) in *.
    set (oc := foldl (count_dir scan_order r) ([], World ∅ pr) subdirs) in *.
    destruct (live_decide_groups root out r cs0 made
                (Args (Live.abs_str out) m) subdirs oc.1 lc.2 oc.2 Hm1)
      as [E2 Hm2].
    cbn [max_files] in E2, Hm2. rewrite E2.
    set (lg := Live.decide_groups m subdirs oc.1 lc.2) in *.
    set (og := decide_groups (Args (Live.abs_str out) m) subdirs oc.1 oc.2)
      in *.
    destruct og.2 as [groups| |]; [|done..].
    destruct (live_flatten_groups scan_order flushed root out r cs0 made
                Hapart Hfiles groups ∅ ∅ lg.1 og.1 Hm2) as [E3 Hm3].
    rewrite E3.
    set (lf := Live.flatten_groups scan_order flushed root out groups ∅ ∅ lg.1)
      in *.
    set (ofl := flatten_groups scan_order r groups ∅ ∅ og.1) in *.
    destruct ofl.2 as [[ix mi]| |]; [|done..].
    destruct (bool_decide (ix = ∅)).
    - split; [done|]. destruct Hm3 as (Hpr & Hr & Ho & Hf).
      split; [simpl; by rewrite Hpr|]. done.
    - destruct (live_create_index_file root out r cs0 made ix mi lf.1 ofl.1
                  Hapart Hfiles Hm3) as [E4 Hm4].
      rewrite E4. cbn [output]. split; [done|].
      destruct Hm4 as (Hpr & Hr & Ho & Hf).
      split; [simpl; by rewrite Hpr|]. done. }
  destruct Hmain as [E Hm]. split; [exact E|]. by apply Hend.
Qed.

End LiveMain.

(** ** Runs that end normally *)

Section LiveSuccess.
Import Flatten Layout Examples.
Variable scan_order : list (FS.path * FS.node) -> list (FS.path * FS.node).
Variable flushed : string -> string.
Hypothesis scan_all : lists_all scan_order.
Variables root out : FS.path.
Variable r : FS.node.
Variable cs0 : list (string * FS.node).
Variable fs0 : FS.node.
Hypothesis Hapart : apart root out.
Hypothesis Hfiles : files_only cs0.

Lemma live_counted_writes subdirs st :
  Live.writes (foldl (Live.count_dir scan_order root) st subdirs).2
  = Live.writes st.2.
Proof.
  revert st. induction subdirs as [|d l IH]; intros st; [done|]. cbn [foldl].
  by rewrite IH.
Qed.

Lemma live_decide_groups_writes m subdirs dir_locs s :
  Live.writes (Live.decide_groups m subdirs dir_locs s).1 = Live.writes s.
Proof.
  unfold Live.decide_groups. destruct m as [m|]; [|done].
  by destruct (_ && _)%bool.
Qed.

Lemma live_combine_writes subdirs lbl s w :
  mirrors root out r cs0 fs0 s w ->
  concat (map (gather_swift_files scan_order r) subdirs) <> [] ->
  Live.writes
    (Live.combine_swift_files scan_order flushed root subdirs out lbl s).1
  = Live.writes s ++ [out ++ [out_name subdirs +:+ ".txt"]].
Proof.
  intros (Hpr & Hroot & (cs & Hout & Hov) & Hframe) Hne.
  unfold Live.combine_swift_files.
  rewrite (live_root_node _ _ _ Hroot). cbv zeta.
  destruct (concat (map (gather_swift_files scan_order r) subdirs))
    as [|f0 files]; [done|].
  rewrite (write_child _ _ _ _ _ Hout).
  destruct (FS.child (out_name subdirs +:+ ".txt") cs) as [[t|sub]|] eqn:Hc;
    [|by destruct (overlay_files_only _ _ _ _ sub Hfiles Hov Hc)|];
    by destruct (Live.combine_loop _ _ _ _ _ _ _ _).2.
Qed.

Lemma live_flatten_writes groups ix mi s w :
  mirrors root out r cs0 fs0 s w ->
  Forall (fun g => g <> [] /\
            forall d, d ∈ g ->
              gather_swift_files scan_order r [d] <> []
              /\ Forall (fun f => exists t, FS.read_text f.2 = Ok t)
                   (gather_swift_files scan_order r [d])) groups ->
  Live.writes
    (Live.flatten_groups scan_order flushed root out groups ix mi s).1
  = Live.writes s ++ map (fun g => out ++ [archive_of g]) groups.
Proof.
  revert ix mi s w. induction groups as [|g groups IH];
    intros ix mi s w Hm Hall.
  - cbn [Live.flatten_groups fst map]. by rewrite app_nil_r.
  - apply Forall_cons in Hall as [[Hne Hgroup] Hall].
    assert (Hnonempty : concat (map (gather_swift_files scan_order r)
                                  (map (fun g => [g]) g)) <> []).
    { destruct g as [|d g]; [done|]. cbn [map concat].
      destruct (Hgroup d) as [Hd _]; [left|].
      by destruct (gather_swift_files scan_order r [d]). }
    destruct (combine_swift_files_success scan_order r (map (fun g => [g]) g)
                None w Hnonempty) as (T & e & entries & Hold).
    { apply Forall_forall. intros f (l & Hl & Hf)%elem_of_concat.
      apply list_elem_of_fmap in Hl as (p & -> & Hp).
      apply list_elem_of_fmap in Hp as (d & -> & Hd).
      destruct (Hgroup d Hd) as [_ Hr]. rewrite Forall_forall in Hr. auto. }
    destruct (live_combine_swift_files scan_order flushed root out r cs0 fs0
                Hapart Hfiles (map (fun g => [g]) g) None s w Hm)
      as [Hres Hm1].
    pose proof (live_combine_writes (map (fun g => [g]) g) None s w Hm
                  Hnonempty) as Hw.
    cbn [Live.flatten_groups]. cbv zeta. rewrite Hres, Hold. cbn [snd].
    rewrite (IH _ _ _ _ Hm1 Hall), Hw. cbn [map].
    by rewrite <- app_assoc.
Qed.

Lemma live_create_index_writes ix mi s w :
  mirrors root out r cs0 fs0 s w ->
  Live.writes (Live.create_index_file ix out mi s).1
  = Live.writes s ++ [out ++ ["SourceIndex.txt"]].
Proof.
  intros (Hpr & Hroot & (cs & Hout & Hov) & Hframe).
  unfold Live.create_index_file. cbv zeta.
  rewrite (write_child _ _ _ _ _ Hout).
  destruct (FS.child "SourceIndex.txt" cs) as [[t|sub]|] eqn:Hc; [done| |done].
  by destruct (overlay_files_only _ _ _ _ sub Hfiles Hov Hc).
Qed.

End LiveSuccess.


(** ** The names of the generated files *)

Section NamingFacts.
Import Flatten Layout.

Lemma prefix_append_txt (p d : string) :
  (forall c, c ∈ list_ascii_of_string p -> c <> "."%char) ->
  String.prefix p (d +:+ ".txt") = String.prefix p d.
Proof.
  revert p. induction d as [|b d IH]; intros p Hp.
  - destruct p as [|a p]; [done|]. rewrite append_nil_l.
    cbn [String.prefix]. destruct (ascii_dec a "."%char) as [->|]; [|done].
    destruct (Hp "."%char). { simpl. left. } done.
  - destruct p as [|a p]; [done|]. rewrite append_cons.
    cbn [String.prefix]. destruct (ascii_dec a b); [|done].
    apply IH. intros c Hc. apply Hp. simpl. by right.
Qed.

Lemma prefix_append_self (p x : string) : String.prefix p (p +:+ x) = true.
Proof.
  induction p as [|a p IH]; [by destruct x|].
  rewrite append_cons. cbn [String.prefix].
  by destruct (ascii_dec a a).
Qed.

Lemma startswith_txt d :
  startswith (d +:+ ".txt") "Merged_" = startswith d "Merged_".
Proof.
  unfold startswith. apply prefix_append_txt. intros c Hc. simpl in Hc.
  repeat (apply elem_of_cons in Hc as [->|Hc]; [discriminate|]).
  by apply elem_of_nil in Hc.
Qed.

Lemma rfind_dot_txt d :
  FS.rfind_dot (d +:+ ".txt") = Some (String.length d).
Proof.
  induction d as [|c d IH]; [done|].
  rewrite append_cons. cbn [FS.rfind_dot]. by rewrite IH.
Qed.

Lemma substring_append (d e : string) n :
  String.substring (String.length d) n (d +:+ e) = String.substring 0 n e.
Proof. induction d as [|c d IH]; [done|]. rewrite append_cons. apply IH. Qed.

Lemma suffix_txt dir d :
  d <> "" -> FS.suffix (dir ++ [d +:+ ".txt"]) = ".txt".
Proof.
  intros Hd. unfold FS.suffix. rewrite name_snoc. cbv zeta.
  rewrite rfind_dot_txt, string_length_app.
  change (String.length ".txt") with 4%nat.
  assert (0 < String.length d)%nat by (destruct d; [done|simpl; lia]).
  rewrite (proj2 (Nat.ltb_lt _ _)) by lia.
  rewrite (proj2 (Nat.ltb_lt _ _)) by lia.
  cbn [andb].
  replace (String.length d + 4 - String.length d)%nat with 4%nat by lia.
  by rewrite substring_append.
Qed.

Lemma eligible_name_txt dir d :
  d <> "" ->
  eligible_name (dir ++ [d +:+ ".txt"]) = negb (startswith d "Merged_").
Proof.
  intros Hd. unfold eligible_name.
  rewrite (suffix_txt _ _ Hd), name_snoc, startswith_txt.
  rewrite bool_decide_true; [done|].
  unfold allowed_suffixes. right. left.
Qed.

Lemma archive_of_single d : archive_of [d] = d +:+ ".txt".
Proof. reflexivity. Qed.

Lemma archive_of_merged a b group :
  archive_of (a :: b :: group)
  = ("Merged_" +:+ join "+" (a :: b :: group)) +:+ ".txt".
Proof.
  assert (E : forall l : list string, map FS.name (map (fun g => [g]) l) = l).
  { induction l as [|c l IH]; [done|]. cbn [map].
    change (FS.name [c]) with c. by rewrite IH. }
  unfold archive_of, out_name. cbn [map].
  change (FS.name [a]) with a. change (FS.name [b]) with b. by rewrite E.
Qed.

End NamingFacts.

(** ** What a run opens *)

Section LiveLogs.
Import Flatten Layout.
Variable scan_order : list (FS.path * FS.node) -> list (FS.path * FS.node).
Variable flushed : string -> string.
Hypothesis scan_all : lists_all scan_order.
Variables root out : FS.path.

Lemma gather_below r dir f :
  f ∈ gather_swift_files scan_order r dir ->
  exists q, q <> [] /\ f.1 = dir ++ q.
Proof.
  intros Hf. unfold gather_swift_files in Hf.
  apply list_elem_of_filter in Hf as [_ Hf].
  unfold rglob in Hf. destruct (FS.get r dir) as [n|];
    [|by apply elem_of_nil in Hf].
  rewrite (scan_all _) in Hf. by eapply descendants_below.
Qed.

Lemma gather_deep r g f :
  f ∈ gather_swift_files scan_order r [g] -> deep_below root (root ++ f.1).
Proof.
  intros (q & Hq & E)%gather_below. exists g, q. by rewrite E.
Qed.

Lemma logs_reads s rd :
  logs_within root out s -> Forall (deep_below root) rd ->
  logs_within root out
    (Live.State (Live.disk s) (Live.printed s) (Live.reads s ++ rd)
       (Live.writes s)).
Proof. intros [Hr Hw] H. split; [by apply Forall_app|done]. Qed.

Lemma logs_print line s :
  logs_within root out s -> logs_within root out (Live.print line s).
Proof. by intros [Hr Hw]. Qed.

Lemma logs_count_dir st d g :
  d.1 = [g] -> logs_within root out st.2 ->
  logs_within root out (Live.count_dir scan_order root st d).2.
Proof.
  destruct d as [dp dn]. cbn [fst]. intros -> Hs.
  unfold Live.count_dir, Live.count_lines_in_dir. cbv zeta.
  cbn [fst snd]. apply logs_print, logs_reads; [done|].
  apply Forall_forall. intros p (f & -> & Hf)%list_elem_of_fmap.
  by eapply gather_deep.
Qed.

Lemma logs_counted subdirs st :
  (forall d, d ∈ subdirs -> exists g, d.1 = [g]) ->
  logs_within root out st.2 ->
  logs_within root out (foldl (Live.count_dir scan_order root) st subdirs).2.
Proof.
  revert st. induction subdirs as [|d subdirs IH]; intros st Hd Hs; [done|].
  cbn [foldl]. apply IH; [intros; apply Hd; by right|].
  destruct (Hd d) as [g Hg]; [left|]. by eapply logs_count_dir.
Qed.

Lemma logs_decide_groups m subdirs dir_locs s :
  logs_within root out s ->
  logs_within root out (Live.decide_groups m subdirs dir_locs s).1.
Proof.
  intros Hs. unfold Live.decide_groups. destruct m as [m|]; [|done].
  destruct (negb (m =? 0) && (Z.of_nat (length subdirs) >? m))%bool; [|done].
  by apply logs_print.
Qed.

Lemma logs_combine_loop out_file files line_counter written acc seen :
  Forall (fun f => deep_below root (root ++ f.1)) files ->
  Forall (deep_below root) seen ->
  Forall (deep_below root)
    (Live.combine_loop flushed root out_file files line_counter written acc
       seen).1.2.
Proof.
  revert line_counter written acc seen.
  induction files as [|f files IH]; intros lc w acc seen Hf Hs; [done|].
  apply Forall_cons in Hf as [Hf Hfiles]. cbn [Live.combine_loop]. cbv zeta.
  assert (Hs' : Forall (deep_below root) (seen ++ [root ++ f.1])).
  { apply Forall_app. split; [done|]. by constructor. }
  destruct (if decide (root ++ f.1 = out_file) then _ else _)
    as [contents| |]; [|done|done].
  by apply IH.
Qed.

Lemma logs_combine_swift_files group lbl s :
  logs_within root out s ->
  logs_within root out
    (Live.combine_swift_files scan_order flushed root
       (map (fun g => [g]) group) out lbl s).1.
Proof.
  intros Hs. unfold Live.combine_swift_files. cbv zeta.
  set (all_files := concat _).
  assert (Hall : Forall (fun f => deep_below root (root ++ f.1)) all_files).
  { apply Forall_forall. intros f (l & Hl & Hf)%elem_of_concat.
    apply list_elem_of_fmap in Hl as (sd & -> & Hsd).
    apply list_elem_of_fmap in Hsd as (g & -> & _). by eapply gather_deep. }
  destruct all_files as [|f0 files] eqn:E; [done|].
  set (run := Live.combine_loop _ _ _ _ _ _ _ _).
  assert (Hrun : Forall (deep_below root) run.1.2).
  { apply logs_combine_loop; [|done].
    apply Forall_forall. intros f Hf. rewrite sorted_perm in Hf.
    rewrite Forall_forall in Hall. by apply Hall. }
  destruct (FS.write_text _ _ _) as [closed| |]; [|done|done].
  destruct Hs as [Hr Hw].
  assert (Hnew : logs_within root out
            (Live.State closed (Live.printed s) (Live.reads s ++ run.1.2)
               (Live.writes s
                ++ [out ++ [out_name (map (fun g => [g]) group) +:+ ".txt"]]))).
  { split; [by apply Forall_app|]. apply Forall_app. split; [done|].
    constructor; [|done]. by eexists. }
  by destruct run.2.
Qed.

Lemma logs_flatten_groups groups ix mi s :
  logs_within root out s ->
  logs_within root out
    (Live.flatten_groups scan_order flushed root out groups ix mi s).1.
Proof.
  revert ix mi s. induction groups as [|g groups IH]; intros ix mi s Hs; [done|].
  cbn [Live.flatten_groups]. cbv zeta.
  pose proof (logs_combine_swift_files g None s Hs) as H1.
  destruct (Live.combine_swift_files _ _ _ _ _ _ _) as [s1 res].
  cbn [fst snd] in *.
  destruct res as [[[lbl [|e entries]]|]| |]; try done; by apply IH.
Qed.

Lemma logs_create_index_file ix mi s :
  logs_within root out s ->
  logs_within root out (Live.create_index_file ix out mi s).1.
Proof.
  intros [Hr Hw]. unfold Live.create_index_file. cbv zeta.
  destruct (FS.write_text _ _ _) as [d| |]; [|done|done].
  split; [done|]. apply Forall_app. split; [done|].
  constructor; [|done]. by eexists.
Qed.

(** A run opens for reading only files below the entries of [root_dir],
    and for writing only files directly in the output directory. *)
Lemma logs_main m s :
  logs_within root out s ->
  logs_within root out (Live.main scan_order flushed root out m s).1.
Proof.
  intros Hs. unfold Live.main.
  destruct (FS.mkdir_p out (Live.disk s)) as [made| |]; [|done|done].
  cbv zeta.
  destruct (FS.get made root) as [[t|cs]|]; [done| |done].
  cbn [iterdir].
  pose proof (subdirs_sound scan_order scan_all cs) as Hsound.
  set (subdirs := filter _ _) in *.
  set (s1 := Live.State made _ _ _).
  assert (H1 : logs_within root out s1) by done.
  pose proof (logs_counted subdirs ([], s1)) as H2.
  set (counted := foldl _ _ subdirs) in *.
  assert (Hc : logs_within root out counted.2).
  { apply H2; [|done]. intros d Hd.
    destruct (Hsound d Hd) as (g & n & -> & _). by exists g. }
  pose proof (logs_decide_groups m subdirs counted.1 counted.2 Hc) as H3.
  destruct (Live.decide_groups m subdirs counted.1 counted.2)
    as [s3 [groups| |]]; cbn [fst snd] in *; [|done|done].
  pose proof (logs_flatten_groups groups ∅ ∅ s3 H3) as H4.
  destruct (Live.flatten_groups _ _ _ _ _ _ _ _) as [s4 [[ix mi]| |]];
    cbn [fst snd] in *; [|done|done].
  destruct (bool_decide (ix = ∅)); [by apply logs_print|].
  pose proof (logs_create_index_file ix mi s4 H4) as H5.
  destruct (Live.create_index_file ix out mi s4) as [s5 [[]| |]];
    cbn [fst snd] in *; [|done|done].
  by apply logs_print.
Qed.

End LiveLogs.

(** ** Claims about repeated runs *)

Section RepeatedRuns.
Import Flatten Layout Examples.

(** C4.  Of the files a run generates, the naming filter excludes the
    archive of every group of two or more directories; it excludes the
    archive of a single directory exactly when the name of the directory
    starts with the merge marker; and it does not exclude the index.  Yet a
    run whose [root_dir] is the output directory of an earlier run opens
    none of the files that run wrote: a run writes files directly in its
    output directory only, and opens for reading only files below the
    entries of its [root_dir]. *)
Theorem generated_files_and_rerun :
  (forall dir group, (2 <= length group)%nat ->
     eligible_name (dir ++ [archive_of group]) = false)
  /\ (forall dir d, d <> "" ->
        eligible_name (dir ++ [archive_of [d]])
        = negb (startswith d "Merged_"))
  /\ (forall dir, eligible_name (dir ++ ["SourceIndex.txt"]) = true)
  /\ (forall scan flushed root out m fs scan' flushed' out' m' fs',
        lists_all scan' ->
        let first :=
          Live.main scan flushed root out m (Live.State fs [] [] []) in
        let second :=
          Live.main scan' flushed' out out' m' (Live.State fs' [] [] []) in
        Forall (directly_in out) (Live.writes first.1)
        /\ Forall (deep_below out) (Live.reads second.1)
        /\ (forall p, p ∈ Live.reads second.1 -> p ∉ Live.writes first.1)).
Proof.
  split; [|split; [|split]].
  - intros dir [|a [|b group]] Hlen; simpl in Hlen; [lia|lia|].
    rewrite archive_of_merged. unfold eligible_name.
    rewrite name_snoc. apply andb_false_iff. right.
    rewrite startswith_txt. unfold startswith.
    by rewrite prefix_append_self.
  - intros dir d Hd. rewrite archive_of_single. by apply eligible_name_txt.
  - intros dir. apply (eligible_name_txt dir "SourceIndex"). discriminate.
  - intros scan flushed root out m fs scan' flushed' out' m' fs' Hall
      first second.
    assert (Hw : Forall (directly_in out) (Live.writes first.1)).
    { unfold first. clear. unfold Live.main. cbn [Live.disk].
      destruct (FS.mkdir_p out fs) as [made| |]; [|done|done]. cbv zeta.
      cbn [Live.printed Live.reads Live.writes].
      destruct (match FS.get made root with
                | Some r => iterdir scan r
                | None => Raise OSError
                end) as [listing| |]; [|done|done].
      set (subdirs := filter _ _). set (s1 := Live.State made [] [] []).
      assert (Hc : forall l st,
                Live.writes (foldl (Live.count_dir scan root) st l).2
                = Live.writes st.2).
      { induction l as [|d l IH]; intros st; [done|]. cbn [foldl].
        by rewrite IH. }
      assert (Hcf : forall groups ix mi s,
                Forall (directly_in out) (Live.writes s) ->
                Forall (directly_in out)
                  (Live.writes
                     (Live.flatten_groups scan flushed root out groups ix mi
                        s).1)).
      { induction groups as [|g groups IH]; intros ix mi s Hs; [done|].
        cbn [Live.flatten_groups]. cbv zeta.
        assert (H1 : Forall (directly_in out)
                  (Live.writes
                     (Live.combine_swift_files scan flushed root
                        (map (fun g => [g]) g) out None s).1)).
        { unfold Live.combine_swift_files. cbv zeta.
          destruct (concat _) as [|f0 files]; [done|].
          destruct (FS.write_text _ _ _) as [closed| |]; [|done|done].
          assert (Forall (directly_in out)
                    (Live.writes s
                     ++ [out ++ [out_name (map (fun g => [g]) g) +:+ ".txt"]])).
          { apply Forall_app. split; [done|]. constructor; [|done].
            by eexists. }
          by destruct (Live.combine_loop _ _ _ _ _ _ _ _).2. }
        destruct (Live.combine_swift_files _ _ _ _ _ _ _) as [s2 res].
        cbn [fst snd] in *.
        destruct res as [[[lbl [|e entries]]|]| |]; try done; by apply IH. }
      set (counted := foldl _ _ subdirs).
      assert (Hd : Live.writes
                     (Live.decide_groups m subdirs counted.1 counted.2).1 = []).
      { unfold Live.decide_groups. destruct m as [m|];
          [destruct (_ && _)%bool|]; cbn [fst Live.print Live.writes];
          apply (Hc subdirs ([], s1)). }
      destruct (Live.decide_groups m subdirs counted.1 counted.2)
        as [s3 [groups| |]]; cbn [fst snd] in *; try (rewrite Hd; done).
      pose proof (Hcf groups ∅ ∅ s3) as H4. rewrite Hd in H4.
      specialize (H4 ltac:(done)).
      destruct (Live.flatten_groups _ _ _ _ _ _ _ _) as [s4 [[ix mi]| |]];
        cbn [fst snd] in *; [|done|done].
      destruct (bool_decide (ix = ∅)); [done|].
      unfold Live.create_index_file. cbv zeta.
      destruct (FS.write_text _ _ _) as [d| |]; cbn [fst snd]; [|done|done].
      cbn [Live.print Live.writes]. apply Forall_app. split; [done|].
      constructor; [|done]. by eexists. }
    assert (Hr : Forall (deep_below out) (Live.reads second.1)).
    { apply (logs_main scan' flushed' Hall out out' m'
               (Live.State fs' [] [] [])). by split. }
    split; [done|]. split; [done|].
    intros p Hp Hq. rewrite Forall_forall in Hw, Hr.
    destruct (Hw p Hq) as [n ->]. destruct (Hr _ Hp) as (d & q & Hne & E).
    apply app_inv_head in E. injection E as -> <-. done.
Qed.

Lemma generated_files_and_rerun_witness :
  eligible_name (["out"] ++ [archive_of ["A"; "B"]]) = false
  /\ eligible_name (["out"] ++ [archive_of ["Merged_x"]])
     = negb (startswith "Merged_x" "Merged_")
  /\ (let first :=
        Live.main same_order nothing_flushed ["src"] ["out"] None
          (Live.State workspace [] [] []) in
      let second :=
        Live.main same_order nothing_flushed ["out"] ["out2"] None
          (Live.State (Live.disk first.1) [] [] []) in
      Forall (directly_in ["out"]) (Live.writes first.1)
      /\ Forall (deep_below ["out"]) (Live.reads second.1)
      /\ (forall p, p ∈ Live.reads second.1 -> p ∉ Live.writes first.1)).
Proof.
  destruct generated_files_and_rerun as (H1 & H2 & _ & H4).
  split; [apply H1; simpl; lia|]. split; [apply H2; discriminate|].
  apply (H4 same_order nothing_flushed ["src"] ["out"] None workspace
           same_order nothing_flushed ["out2"] None).
  intros l. reflexivity.
Defined.

(** C4 as stated fails: a run over the directories A and B writes the
    archives A.txt and B.txt and the index SourceIndex.txt, and the naming
    filter accepts the three names. *)
Lemma generated_files_pass_naming_filter :
  let run :=
    Live.main same_order nothing_flushed ["src"] ["out"] None
      (Live.State workspace [] [] []) in
  run.2 = Ok tt
  /\ Live.writes run.1
     = [["out"; "A.txt"]; ["out"; "B.txt"]; ["out"; "SourceIndex.txt"]]
  /\ Forall (fun p => FS.is_file_at p (Live.disk run.1) = true
                      /\ eligible_name p = true) (Live.writes run.1).
Proof.
  cbv zeta. split; [vm_compute; reflexivity|].
  split; [vm_compute; reflexivity|].
  vm_compute. repeat constructor.
Qed.



(** When the output directory lies below [root_dir], a second run reads
    what the first wrote, whatever a reader finds of an archive that is
    being written: the tool is run on the directory [proj] with the output
    in [proj/flattened_output]. *)
Lemma second_run_reads_first_output :
  forall flushed,
    let first :=
      Live.main same_order flushed ["proj"] ["proj"; "flattened_output"] None
        (Live.State project [] [] []) in
    let second :=
      Live.main same_order flushed ["proj"] ["proj"; "flattened_output"] None
        (Live.State (Live.disk first.1) [] [] []) in
    first.2 = Ok tt /\ second.2 = Ok tt
    /\ ["proj"; "flattened_output"; "SourceIndex.txt"] ∈ Live.reads second.1
    /\ text_at ["proj"; "flattened_output"; "SourceIndex.txt"]
         (Live.disk second.1)
       <> text_at ["proj"; "flattened_output"; "SourceIndex.txt"]
            (Live.disk first.1).
Proof.
  intros flushed. cbv zeta.
  split; [vm_compute; reflexivity|]. split; [vm_compute; reflexivity|].
  split.
  - vm_compute. repeat (first [left; reflexivity | right]).
  - vm_compute. intros H. discriminate H.
Qed.


End RepeatedRuns.


(** ** More on runs on the file system *)

Section LiveExtras.
Import Flatten Layout Examples.



(** X20.  When the output directory lies outside [root_dir] and
    [root_dir] outside the output directory, and the output directory can
    be made and holds no directory, the run on the file system is the run
    of [Flatten.main] on the tree [root_dir] holds: the outcome and the
    lines printed are the same, every name of the output directory holds
    the file the world has for it or else what it held before, what is
    apart from the output directory is as it was, and the output directory
    still holds no directory. *)
Theorem main_agrees scan_order flushed root out m fs r pr rd wr :
  apart root out ->
  way_clear out fs = true ->
  (forall cs, FS.get fs out = Some (FS.Dir cs) -> files_only cs) ->
  FS.get fs root = Some r ->
  (Live.main scan_order flushed root out m (Live.State fs pr rd wr)).2
  = (main scan_order r (Args (Live.abs_str out) m) (World ∅ pr)).2
  /\ Live.printed
       (Live.main scan_order flushed root out m (Live.State fs pr rd wr)).1
     = stdout (main scan_order r (Args (Live.abs_str out) m) (World ∅ pr)).1
  /\ (forall n,
        FS.get
          (Live.disk
             (Live.main scan_order flushed root out m
                (Live.State fs pr rd wr)).1) (out ++ [n])
        = match out_files
                  (main scan_order r (Args (Live.abs_str out) m)
                     (World ∅ pr)).1 !! n with
          | Some t => Some (FS.File (Some t))
          | None => FS.get fs (out ++ [n])
          end)
  /\ (forall q, apart out q ->
        FS.get
          (Live.disk
             (Live.main scan_order flushed root out m
                (Live.State fs pr rd wr)).1) q
        = FS.get fs q)
  /\ (exists cs,
        FS.get
          (Live.disk
             (Live.main scan_order flushed root out m
                (Live.State fs pr rd wr)).1) out
        = Some (FS.Dir cs)
        /\ files_only cs).
Proof. apply live_main. Qed.

Lemma main_agrees_witness :
  (Live.main same_order nothing_flushed ["src"] ["out"] None
     (Live.State workspace [] [] [])).2
  = (main same_order sources (Args (Live.abs_str ["out"]) None)
       (World ∅ [])).2
  /\ (forall n,
        FS.get
          (Live.disk
             (Live.main same_order nothing_flushed ["src"] ["out"] None
                (Live.State workspace [] [] [])).1) (["out"] ++ [n])
        = match out_files
                  (main same_order sources (Args (Live.abs_str ["out"]) None)
                     (World ∅ [])).1 !! n with
          | Some t => Some (FS.File (Some t))
          | None => FS.get workspace (["out"] ++ [n])
          end).
Proof.
  destruct (main_agrees same_order nothing_flushed ["src"] ["out"] None
              workspace sources [] [] []) as (H1 & _ & H3 & _).
  - split; intros [k E]; discriminate E.
  - reflexivity.
  - intros cs H. discriminate H.
  - reflexivity.
  - split; [exact H1|exact H3].
Defined.

End LiveExtras.
